(** * Jalin-Deploy: the deployment agent and the auto-deploy watcher

    A shallow embedding of [deploy_agent.py] (class [DeploymentAgent]) and
    [deploy_watcher.py] (class [DeployWatcher]).

    The two scripts are effectful Python: they read and write the file
    system, start subprocesses, talk to the GitHub API and raise and catch
    exceptions.  They are embedded as computations in a state-and-exception
    monad over a [World] (the file system plus the list of external actions
    performed so far); what the outside answers (exit codes, HTTP responses,
    faults of file copies) is read from an [Env] of oracles.  Calls of
    [logger] have no effect on control flow and are left out. *)

From Stdlib Require Import ZArith Ascii String.
From stdpp Require Import gmap strings list fin_maps.

Open Scope string_scope.
Open Scope list_scope.
Open Scope stdpp_scope.

(** ** Python strings *)

Module Py.

(** Truthiness of a value that is [None] or a [str]. *)
Definition truthy (v : option string) : bool :=
  match v with
  | Some s => negb (String.eqb s "")
  | None => false
  end.

(** [s.rstrip('/')]: drops every trailing slash. *)
Fixpoint lstrip_slash (l : list ascii) : list ascii :=
  match l with
  | c :: l' => if Ascii.eqb c "/" then lstrip_slash l' else l
  | [] => []
  end.

Definition rstrip_slash (s : string) : string :=
  string_of_list_ascii
    (rev (lstrip_slash (rev (list_ascii_of_string s)))).

(** [s.endswith(suf)]. *)
Definition endswith (s suf : string) : bool :=
  String.prefix (String.rev suf) (String.rev s).

(** [s[:-n]]. *)
Definition drop_last (n : nat) (s : string) : string :=
  String.substring 0 (String.length s - n) s.

(** [sub in s]. *)
Fixpoint contains (sub s : string) : bool :=
  String.prefix sub s ||
  match s with
  | String _ s' => contains sub s'
  | EmptyString => false
  end.

(** [s.split(sep)] for a non-empty separator: the pieces between the
    occurrences of [sep], found from the left without overlap.  [skip]
    counts the characters of a separator still to be passed over;
    [cur] is the current piece, reversed. *)
Fixpoint split_aux (sep : string) (skip : nat) (cur : list ascii)
    (s : string) : list string :=
  match s with
  | EmptyString => [string_of_list_ascii (rev cur)]
  | String c s' =>
      match skip with
      | S k => split_aux sep k cur s'
      | O =>
          if String.prefix sep s
          then string_of_list_ascii (rev cur)
                 :: split_aux sep (String.length sep - 1) [] s'
          else split_aux sep 0 (c :: cur) s'
      end
  end.

Definition split (sep s : string) : list string := split_aux sep 0 [] s.

(** [l[-1]] of a list that [split] returned (never empty). *)
Definition last_piece (l : list string) : string := List.last l "".

(** [int(s)] for a decimal literal with an optional sign; [None] stands
    for [ValueError].  Surrounding blanks and underscores, which Python
    also accepts, are not covered. *)
Definition digit_of (c : ascii) : option Z :=
  let n := nat_of_ascii c in
  if (48 <=? n)%nat && (n <=? 57)%nat then Some (Z.of_nat (n - 48))
  else None.

Fixpoint digits_value (acc : Z) (s : string) : option Z :=
  match s with
  | EmptyString => Some acc
  | String c s' =>
      match digit_of c with
      | Some d => digits_value (10 * acc + d) s'
      | None => None
      end
  end.

Definition int_of_string (s : string) : option Z :=
  match s with
  | EmptyString => None
  | String "-" (String _ _ as s') => Z.opp <$> digits_value 0 s'
  | String "+" (String _ _ as s') => digits_value 0 s'
  | _ => digits_value 0 s
  end.

End Py.

(** ** Exceptions, worlds and the monad *)

(** The exception classes the two scripts raise, catch or let through. *)
Inductive exn :=
  | CalledProcessError      (* subprocess.run(check=True), exit code <> 0 *)
  | FileNotFoundError       (* executable or path not found *)
  | TimeoutExpired          (* subprocess.run(timeout=...) *)
  | PermissionError
  | FileExistsError
  | NotADirectoryError
  | IsADirectoryError
  | OtherOSError            (* e.g. a rename across devices *)
  | ValueError
  | RequestException        (* requests.exceptions.RequestException *)
  | BadZipFile
  | OtherException          (* any other subclass of Exception *)
  | KeyboardInterrupt.      (* a BaseException, not an Exception *)

#[global] Instance exn_eq_dec : EqDecision exn.
Proof. solve_decision. Defined.

(** [isinstance(e, Exception)]: what [except Exception] catches. *)
Definition is_Exception (e : exn) : bool :=
  match e with
  | KeyboardInterrupt => false
  | _ => true
  end.

(** A path is the list of its components below the root. *)
Definition path := list string.

Inductive node :=
  | File (content : string)
  | Dir.

#[global] Instance node_eq_dec : EqDecision node.
Proof. solve_decision. Defined.

(** The file system: the entries that exist, by path.  The root [[]] is a
    directory and has no entry of its own. *)
Abbreviation FS := (gmap (list string) node).

(** What the scripts do to the outside, in order. *)
Inductive event :=
  | EvRun (cmd : list string) (cwd : option path)   (* subprocess.run *)
  | EvGet (url : string)                            (* requests.get *)
  | EvMerge (src dst : path)                        (* _merge_directories *)
  | EvRename (src dst : path)                       (* Path.rename *)
  | EvSleep (seconds : Z).                          (* time.sleep *)

#[global] Instance event_eq_dec : EqDecision event.
Proof. solve_decision. Defined.

Record World := mkWorld {
  w_fs : FS;
  w_log : list event   (* latest first *)
}.

Definition set_fs (fs : FS) (w : World) : World :=
  {| w_fs := fs; w_log := w_log w |}.

Definition add_event (ev : event) (w : World) : World :=
  {| w_fs := w_fs w; w_log := ev :: w_log w |}.

(** The result of a computation: a value or a raised exception. *)
Inductive res (A : Type) :=
  | Ret (a : A)
  | Raise (e : exn).
Arguments Ret {A} a.
Arguments Raise {A} e.

Definition M (A : Type) : Type := World -> res A * World.

Definition ret {A} (a : A) : M A := fun w => (Ret a, w).

Definition raise {A} (e : exn) : M A := fun w => (Raise e, w).

Definition bind {A B} (m : M A) (k : A -> M B) : M B :=
  fun w =>
    match m w with
    | (Ret a, w') => k a w'
    | (Raise e, w') => (Raise e, w')
    end.

(** [try: m  except ...]: [h e] is the handler of the first [except]
    clause that matches [e], if there is one. *)
Definition catch {A} (m : M A) (h : exn -> option (M A)) : M A :=
  fun w =>
    match m w with
    | (Ret a, w') => (Ret a, w')
    | (Raise e, w') =>
        match h e with
        | Some m' => m' w'
        | None => (Raise e, w')
        end
    end.

(** [try: m  finally: f]. *)
Definition finally {A} (m : M A) (f : M unit) : M A :=
  fun w =>
    match m w with
    | (r, w') =>
        match f w' with
        | (Ret _, w'') => (r, w'')
        | (Raise e, w'') => (Raise e, w'')
        end
    end.

Definition gets {A} (f : World -> A) : M A := fun w => (Ret (f w), w).

Definition modify (f : World -> World) : M unit := fun w => (Ret tt, f w).

#[global] Instance M_ret : MRet M := @ret.
#[global] Instance M_bind : MBind M := fun A B k m => bind m k.

(** [for x in l: body x]. *)
Fixpoint for_each {A} (l : list A) (body : A -> M unit) : M unit :=
  match l with
  | [] => ret tt
  | x :: l' => body x;; for_each l' body
  end.

(** [except Exception: m']. *)
Definition except_Exception {A} (m' : M A) : exn -> option (M A) :=
  fun e => if is_Exception e then Some m' else None.

(** ** The file system *)

Module Fs.

Definition parent (p : path) : path := removelast p.

Definition basename (p : path) : string := List.last p "".

Definition exists_ (fs : FS) (p : path) : bool :=
  match p with
  | [] => true
  | _ => bool_decide (is_Some (fs !! p))
  end.

Definition is_dir (fs : FS) (p : path) : bool :=
  match p with
  | [] => true
  | _ => bool_decide (fs !! p = Some Dir)
  end.

(** [p / name] of pathlib for a single component: joining [""] or ["."]
    changes nothing.  Paths are taken free of [".."]. *)
Definition join (p : path) (name : string) : path :=
  if String.eqb name "" || String.eqb name "." then p else p ++ [name].

(** [str(p)]. *)
Definition to_string (p : path) : string := "/" +:+ String.concat "/" p.

(** The name of [p] when [p] lies directly inside [d]. *)
Definition child_of (d p : path) : option string :=
  match reverse p with
  | name :: rparent =>
      if bool_decide (reverse rparent = d) then Some name else None
  | [] => None
  end.

(** The entries directly inside [d], in the order of the listing. *)
Definition listdir (fs : FS) (d : path) : list (string * node) :=
  omap (fun '(p, n) => (fun name => (name, n)) <$> child_of d p)
       (map_to_list fs).

(** [any(d.iterdir())]. *)
Definition nonempty_dir (fs : FS) (d : path) : bool :=
  match listdir fs d with
  | [] => false
  | _ :: _ => true
  end.

(** [Path.mkdir(parents=True, exist_ok=True)]: walks down from the root,
    creating what is missing; an existing directory is accepted, an
    existing file is not. *)
Fixpoint mkdir_from (above below : path) (fs : FS) : res unit * FS :=
  match below with
  | [] => (Ret tt, fs)
  | c :: below' =>
      let p := above ++ [c] in
      match fs !! p with
      | Some Dir => mkdir_from p below' fs
      | Some (File _) =>
          (Raise (match below' with
                  | [] => FileExistsError
                  | _ :: _ => NotADirectoryError
                  end), fs)
      | None => mkdir_from p below' (<[p := Dir]> fs)
      end
  end.

Definition mkdir_parents (p : path) : M unit :=
  fun w =>
    let '(r, fs') := mkdir_from [] p (w_fs w) in (r, set_fs fs' w).

(** [shutil.rmtree(p)]: [p] and everything below it. *)
Definition rmtree (p : path) : M unit :=
  modify (fun w =>
    set_fs (filter (fun '(q, _) => ¬ (p `prefix_of` q)) (w_fs w)) w).

(** [os.unlink(p)] of an existing file. *)
Definition unlink (p : path) : M unit :=
  modify (fun w => set_fs (delete p (w_fs w)) w).

(** Writing a whole file, as [open(p, 'wb')] and [write] do. *)
Definition write_file (p : path) (content : string) : M unit :=
  fun w =>
    if is_dir (w_fs w) p then (Raise IsADirectoryError, w)
    else if negb (is_dir (w_fs w) (parent p))
         then (Raise FileNotFoundError, w)
         else (Ret tt, set_fs (<[p := File content]> (w_fs w)) w).

(** The subtree at [src] moved to [dst] (the entries re-rooted). *)
Definition reroot (src dst q : path) : path := dst ++ drop (length src) q.

Definition move_tree (src dst : path) (fs : FS) : FS :=
  map_fold (fun q n acc => <[reroot src dst q := n]> acc)
    (filter (fun '(q, _) => ¬ (src `prefix_of` q)) fs)
    (filter (fun '(q, _) => src `prefix_of` q) fs).

End Fs.

(** ** The outside world *)

(** What [subprocess.run] meets: the process ends with a return code, or
    the call raises ([FileNotFoundError] for a missing executable,
    [TimeoutExpired] after its [timeout], ...). *)
Inductive proc_result :=
  | Exited (returncode : Z)
  | ProcRaises (e : exn).

(** The body of an HTTP response, as far as the scripts look at it: the
    string fields of a JSON object, or a zip archive given by its members
    in [namelist()] order (a member is a file or a directory entry). *)
Inductive http_body :=
  | BodyJson (fields : list (string * string))
  | BodyZip (members : list (path * node))
  | BodyOther.

(** [requests.get] returns a response or raises ([RequestException] for
    a connection error or a timeout). *)
Inductive http_result :=
  | Response (status_code : Z) (body : http_body)
  | RequestRaises (e : exn).

(** A fault of one [shutil.copy2]: none, an exception before anything is
    written, or an exception after the content is written (the copy of the
    metadata is what fails on a mounted volume). *)
Inductive copy_fault :=
  | NoFault
  | FaultBefore (e : exn)
  | FaultAfter (e : exn).

(** The oracles.  The [nat] argument of an oracle is the number of external
    actions performed before the call, so that the same call can be
    answered differently at different times. *)
Record Env := mkEnv {
  env_base_dir : path;                        (* Path(__file__).parent *)
  env_getenv : string -> option string;       (* os.getenv, after load_dotenv *)
  env_executable : string;                    (* sys.executable *)
  env_platform : string;                      (* sys.platform *)
  env_proc : nat -> list string -> option path -> FS -> proc_result * FS;
  env_get : nat -> string -> http_result;     (* requests.get(url) *)
  env_copy_fault : path -> nat -> copy_fault; (* by destination and attempt *)
  env_chmod_fault : path -> option exn;       (* os.chmod *)
  env_rename_fault : path -> option exn;      (* Path.rename, by source *)
  env_tmp_zip : nat -> path;                  (* NamedTemporaryFile(...).name *)
  env_time : nat -> string;                   (* str(int(time.time())) *)
  env_sleep : nat -> option exn;              (* what interrupts time.sleep *)
  (* the run of deploy_agent.py cut short by its timeout or not started:
     the exception of subprocess.run and the world left behind *)
  env_agent_fault : nat -> World -> option (exn * World)
}.

Definition log_event (ev : event) : M unit := modify (add_event ev).

Definition clock : M nat := gets (fun w => length (w_log w)).

(** [subprocess.run(cmd, cwd=cwd, check=check)]: the return code, or the
    exception of the call; with [check], a non-zero return code raises
    [CalledProcessError]. *)
Definition subprocess_run (env : Env) (cmd : list string)
    (cwd : option path) (check : bool) : M Z :=
  fun w =>
    let '(r, fs') := env_proc env (length (w_log w)) cmd cwd (w_fs w) in
    let w' := add_event (EvRun cmd cwd) (set_fs fs' w) in
    match r with
    | Exited rc =>
        if check && negb (rc =? 0)%Z then (Raise CalledProcessError, w')
        else (Ret rc, w')
    | ProcRaises e => (Raise e, w')
    end.

(** [requests.get(url, ...)]. *)
Definition requests_get (env : Env) (url : string) : M (Z * http_body) :=
  fun w =>
    let w' := add_event (EvGet url) w in
    match env_get env (length (w_log w)) url with
    | Response status body => (Ret (status, body), w')
    | RequestRaises e => (Raise e, w')
    end.

(** [response.json().get(key)]: [json()] raises on a body that is not
    JSON. *)
Definition json_get (body : http_body) (key : string) : M (option string) :=
  match body with
  | BodyJson fields =>
      ret (snd <$> List.find (fun kv => String.eqb (fst kv) key) fields)
  | _ => raise ValueError
  end.

Definition path_exists (p : path) : M bool :=
  gets (fun w => Fs.exists_ (w_fs w) p).

Definition os_chmod (env : Env) (p : path) : M unit :=
  match env_chmod_fault env p with
  | Some e => raise e
  | None => ret tt
  end.

(** [shutil.copy2(src, dst)] of a file named [name] with content
    [content]: copied into [dst] when [dst] is a directory, to [dst]
    otherwise. *)
Definition shutil_copy2 (env : Env) (attempt : nat) (name content : string)
    (dst : path) : M unit :=
  fun w =>
    let fs := w_fs w in
    let real := if Fs.is_dir fs dst then dst ++ [name] else dst in
    match env_copy_fault env real attempt with
    | FaultBefore e => (Raise e, w)
    | flt =>
        if Fs.is_dir fs real then (Raise IsADirectoryError, w)
        else if negb (Fs.is_dir fs (Fs.parent real))
        then (Raise FileNotFoundError, w)
        else
          let w' := set_fs (<[real := File content]> fs) w in
          match flt with
          | FaultAfter e => (Raise e, w')
          | _ => (Ret tt, w')
          end
    end.

(** [time.sleep(seconds)]. *)
Definition time_sleep (env : Env) (seconds : Z) : M unit :=
  if (seconds <? 0)%Z then raise ValueError
  else
    now ← clock;
    log_event (EvSleep seconds);;
    match env_sleep env now with
    | Some e => raise e
    | None => ret tt
    end.

(** [os.walk(top)], top-down: for every directory, its path relative to
    [top] ([[]] is ['.']), its subdirectories and its files with their
    contents.  Nothing is yielded when [top] is not a directory.  The depth
    of a tree is at most the number of entries, which bounds the
    recursion. *)
Definition walk_entry : Type := path * list string * list (string * string).

Fixpoint os_walk_from (fuel : nat) (fs : FS) (top rel : path)
    : list walk_entry :=
  match fuel with
  | O => []
  | S fuel' =>
      let entries := Fs.listdir fs (top ++ rel) in
      let dirs :=
        omap (fun '(name, n) =>
                match n with Dir => Some name | File _ => None end) entries in
      let files :=
        omap (fun '(name, n) =>
                match n with File c => Some (name, c) | Dir => None end)
             entries in
      (rel, dirs, files)
        :: flat_map (fun d => os_walk_from fuel' fs top (rel ++ [d])) dirs
  end.

Definition os_walk (fs : FS) (top : path) : list walk_entry :=
  if Fs.is_dir fs top then os_walk_from (S (size fs)) fs top [] else [].

(** ** deploy_agent.py *)

Module DeploymentAgent.

Record t := mk {
  base_dir : path;
  frontend_dir : path;
  backend_dir : path;
  github_token : option string
}.

(** [__init__]: the token is read only when [.env.local] exists. *)
Definition __init__ (env : Env) : M t :=
  let base := env_base_dir env in
  has_env ← path_exists (base ++ [".env.local"]);
  ret {| base_dir := base;
          frontend_dir := base ++ ["frontend"];
          backend_dir := base ++ ["backend"];
          github_token :=
            if has_env : bool then env_getenv env "GITHUB_TOKEN" else None |}.

(** [verify_repo_cloned]: the directory exists, is a directory, is not
    empty, and holds every required file. *)
Definition verify_repo_cloned (target_dir : path)
    (required_files : list string) : M bool :=
  gets (fun w =>
    let fs := w_fs w in
    if negb (Fs.exists_ fs target_dir) then false
    else if negb (Fs.is_dir fs target_dir) then false
    else if negb (Fs.nonempty_dir fs target_dir) then false
    else
      let missing_files :=
        List.filter
          (fun file_name => negb (Fs.exists_ fs (Fs.join target_dir file_name)))
          required_files in
      match missing_files with
      | [] => true
      | _ :: _ => false
      end).

(** The names a fetch never overwrites. *)
Definition preserve_files : gset string :=
  {[ ".env.local"; ".env.local.example"; "Dockerfile" ]}.

(** One pass of the inner loop of [_merge_directories]: a file of the
    fetched tree goes to [target_subdir / file], unless its name is
    preserved and the destination exists.  A [PermissionError] is
    answered by a chmod of the directory and a second copy; what the
    second attempt raises is raised again. *)
Definition merge_file (env : Env) (target_subdir : path)
    (file content : string) : M unit :=
  let target_file := target_subdir ++ [file] in
  target_exists ← path_exists target_file;
  if bool_decide (file ∈ preserve_files) && target_exists
  then ret tt
  else
    catch (shutil_copy2 env 0 file content target_file)
      (fun e =>
         match e with
         | PermissionError =>
             Some (os_chmod env (Fs.parent target_file);;
                   shutil_copy2 env 1 file content target_file;;
                   os_chmod env target_file)
         | _ => None
         end).

(** One pass of the outer loop: the directory of the walk is created in
    the target, then its files are copied. *)
Definition merge_walk_entry (env : Env) (target_path : path)
    (entry : walk_entry) : M unit :=
  let '(rel_path, _, files) := entry in
  let target_subdir := target_path ++ rel_path in
  match rel_path with
  | [] => ret tt
  | _ :: _ => Fs.mkdir_parents target_subdir
  end;;
  for_each files (fun '(file, content) =>
    merge_file env target_subdir file content).

(** [_merge_directories].  The walk reads the fetched tree, which lies in
    a private directory under /tmp and is not written during the merge,
    so its listing is taken once. *)
Definition _merge_directories (env : Env) (source_dir target_dir : path)
    : M unit :=
  log_event (EvMerge source_dir target_dir);;
  Fs.mkdir_parents target_dir;;
  walk ← gets (fun w => os_walk (w_fs w) source_dir);
  for_each walk (merge_walk_entry env target_dir).

(** [extract_repo_info]: owner and repository name of a GitHub URL. *)
Definition extract_repo_info (repo_url : string) : M (string * string) :=
  let repo_url := Py.rstrip_slash repo_url in
  let repo_url :=
    if Py.endswith repo_url ".git" then Py.drop_last 4 repo_url
    else repo_url in
  if Py.contains "github.com" repo_url then
    let parts :=
      Py.split "/" (Py.last_piece (Py.split "github.com/" repo_url)) in
    match parts with
    | owner :: repo :: _ => ret (owner, repo)
    | _ => raise ValueError
    end
  else raise ValueError.

(** [response.raise_for_status()]. *)
Definition raise_for_status (status : Z) : M unit :=
  if ((400 <=? status) && (status <? 600))%Z then raise RequestException
  else ret tt.

(** [zip_ref.extractall(dest)]: every member goes below [dest], under its
    name without empty, ["."] and [".."] components; the directories
    above it are created. *)
Definition extract_member (dest : path) (member : path * node) : M unit :=
  let arcname :=
    List.filter
      (fun c => negb (String.eqb c "" || String.eqb c "."
                      || String.eqb c ".."))
      member.1 in
  let targetpath := dest ++ arcname in
  match member.2 with
  | Dir => Fs.mkdir_parents targetpath
  | File content =>
      Fs.mkdir_parents (Fs.parent targetpath);;
      Fs.write_file targetpath content
  end.

Definition extractall (dest : path) (members : list (path * node))
    : M unit :=
  for_each members (extract_member dest).

(** [src.rename(dst)]. *)
Definition path_rename (env : Env) (src dst : path) : M unit :=
  log_event (EvRename src dst);;
  match env_rename_fault env src with
  | Some e => raise e
  | None => modify (fun w => set_fs (Fs.move_tree src dst (w_fs w)) w)
  end.

(** The part of [clone_repository] between the creation of the
    extraction directory and its removal: open the archive, extract it,
    find its root folder, and merge it into the target or move it
    there.  The members of the archive are those of the response that
    was saved; its bytes are not modelled. *)
Definition extract_and_place (env : Env) (body : http_body)
    (extract_temp target_dir : path) : M unit :=
  zip_members ← match body with
                | BodyZip members => ret members
                | _ => raise BadZipFile
                end;
  extractall extract_temp zip_members;;
  match zip_members with
  | [] => raise ValueError           (* "Zip file appears to be empty" *)
  | first :: _ =>
      let root_folder := List.hd "" first.1 in
      let extracted_folder := Fs.join extract_temp root_folder in
      folder_exists ← path_exists extracted_folder;
      if negb folder_exists then raise ValueError
      else
        target_exists ← path_exists target_dir;
        if target_exists : bool
        then _merge_directories env extracted_folder target_dir
        else path_rename env extracted_folder target_dir
  end.

(** [clone_repository]: download the default branch as a zip archive and
    put it at [target_dir].  Every exception after the token check ends
    in [return False]. *)
Definition clone_repository (env : Env) (self : t) (repo_url : string)
    (target_dir : path) (repo_name : string) : M bool :=
  if negb (Py.truthy (github_token self)) then ret false
  else
    catch
      ('(owner, repo) ← extract_repo_info repo_url;
       default_branch ←
         catch
           ('(status, body) ←
              requests_get env
                ("https://api.github.com/repos/" +:+ owner +:+ "/" +:+ repo);
            if (status =? 200)%Z then
              branch ← json_get body "default_branch";
              ret (default "main" branch)
            else ret "main")
           (except_Exception (ret "main"));
       let api_url :=
         "https://api.github.com/repos/" +:+ owner +:+ "/" +:+ repo
           +:+ "/zipball/" +:+ default_branch in
       now ← clock;
       let tmp_zip_path := env_tmp_zip env now in
       Fs.write_file tmp_zip_path "";;
       finally
         ('(status, body) ← requests_get env api_url;
          raise_for_status status;;
          Fs.write_file tmp_zip_path "(zip archive)";;
          Fs.mkdir_parents (Fs.parent target_dir);;
          now ← clock;
          let extract_temp :=
            ["tmp"; "_temp_extract_" +:+ repo_name +:+ "_"
                      +:+ env_time env now] in
          stale ← path_exists extract_temp;
          (if stale : bool then Fs.rmtree extract_temp else ret tt);;
          Fs.mkdir_parents extract_temp;;
          finally
            (extract_and_place env body extract_temp target_dir)
            (left_over ← path_exists extract_temp;
             if left_over : bool then Fs.rmtree extract_temp else ret tt);;
          verify_repo_cloned target_dir [])
         (zip_left ← path_exists tmp_zip_path;
          if zip_left : bool then Fs.unlink tmp_zip_path else ret tt))
      (except_Exception (ret false)).

(** [is_running_in_docker]: [/.dockerenv] exists, or [/proc/self/cgroup]
    can be read and mentions docker. *)
Definition is_running_in_docker : M bool :=
  gets (fun w =>
    if Fs.exists_ (w_fs w) [".dockerenv"] then true
    else
      match w_fs w !! ["proc"; "self"; "cgroup"] with
      | Some (File content) => Py.contains "docker" content
      | _ => false
      end).

(** [except subprocess.CalledProcessError: return False]. *)
Definition on_CalledProcessError {A} (m' : M A) : exn -> option (M A) :=
  fun e => match e with CalledProcessError => Some m' | _ => None end.

(** [setup_backend]. *)
Definition setup_backend (env : Env) (self : t) : M bool :=
  in_docker ← is_running_in_docker;
  if in_docker : bool then ret true
  else
    let venv_path := backend_dir self ++ ["venv"] in
    let requirements_file := backend_dir self ++ ["requirements.txt"] in
    venv_exists ← path_exists venv_path;
    created ←
      (if venv_exists : bool then ret true
       else
         catch
           (subprocess_run env
              [env_executable env; "-m"; "venv"; Fs.to_string venv_path]
              (Some (backend_dir self)) true;;
            ret true)
           (on_CalledProcessError (ret false)));
    if negb created then ret false
    else
      venv_exists ← path_exists venv_path;
      requirements_exist ← path_exists requirements_file;
      if venv_exists && requirements_exist then
        let pip_cmd :=
          if String.eqb (env_platform env) "win32"
          then Fs.to_string (venv_path ++ ["Scripts"; "pip.exe"])
          else Fs.to_string (venv_path ++ ["bin"; "pip"]) in
        catch
          (subprocess_run env [pip_cmd; "install"; "--upgrade"; "pip"]
             (Some (backend_dir self)) true;;
           subprocess_run env
             [pip_cmd; "install"; "-r"; Fs.to_string requirements_file]
             (Some (backend_dir self)) true;;
           ret true)
          (on_CalledProcessError (ret false))
      else ret true.

(** [check_command]. *)
Definition check_command (env : Env) (command : string) : M bool :=
  catch (subprocess_run env ["which"; command] None true;; ret true)
        (on_CalledProcessError (ret false)).

(** [check_nodejs]. *)
Definition check_nodejs (env : Env) : M bool :=
  found ← check_command env "node";
  if found : bool then
    subprocess_run env ["node"; "--version"] None false;; ret true
  else ret false.

(** [setup_frontend]. *)
Definition setup_frontend (env : Env) (self : t) : M bool :=
  in_docker ← is_running_in_docker;
  if in_docker : bool then ret true
  else
    node_ok ← check_nodejs env;
    if negb node_ok then ret false
    else
      has_package_json ← path_exists (frontend_dir self ++ ["package.json"]);
      if has_package_json : bool then
        installed ←
          catch
            (subprocess_run env ["npm"; "install"; "--force"]
               (Some (frontend_dir self)) true;;
             ret true)
            (on_CalledProcessError
               (catch
                  (subprocess_run env ["npm"; "install"; "--legacy-peer-deps"]
                     (Some (frontend_dir self)) true;;
                   ret true)
                  (on_CalledProcessError (ret false))));
        if negb installed then ret false
        else
          catch
            (subprocess_run env ["npm"; "run"; "build"]
               (Some (frontend_dir self)) true;;
             ret tt)
            (on_CalledProcessError (ret tt));;
          ret true
      else ret true.

(** [except (CalledProcessError, FileNotFoundError, TimeoutExpired)]. *)
Definition on_probe_failure {A} (m' : M A) : exn -> option (M A) :=
  fun e =>
    match e with
    | CalledProcessError | FileNotFoundError | TimeoutExpired => Some m'
    | _ => None
    end.

(** The directory the compose commands run in. *)
Definition compose_dir (self : t) : M path :=
  in_docker ← is_running_in_docker;
  ret (if in_docker : bool then ["app"; "project"] else base_dir self).

(** [build_docker_images]. *)
Definition build_docker_images (env : Env) (self : t) : M bool :=
  manifest ← path_exists (base_dir self ++ ["docker-compose.yml"]);
  if negb manifest then ret false
  else
    frontend_ok ← verify_repo_cloned (frontend_dir self) [];
    if negb frontend_ok then ret false
    else
      backend_ok ← verify_repo_cloned (backend_dir self) ["requirements.txt"];
      if negb backend_ok then ret false
      else
        catch
          (build_cmd ←
             catch
               (subprocess_run env ["docker"; "compose"; "version"] None true;;
                ret ["docker"; "compose"; "-p"; "jalindeploy"; "build";
                      "--parallel"; "frontend"; "backend"])
               (on_probe_failure
                  (ret ["docker-compose"; "--project-name"; "jalindeploy";
                         "build"; "--parallel"; "frontend"; "backend"]));
           dir ← compose_dir self;
           subprocess_run env build_cmd (Some dir) true;;
           ret true)
          (on_CalledProcessError (ret false)).

(** [deploy]. *)
Definition containers_to_remove : list string :=
  ["jalin-frontend"; "jalin-backend"].

Definition old_images : list string :=
  ["jalindeploy-frontend"; "jalindeploy-backend"].

Definition up_cmd (compose_cmd_base : list string) (project_flag : string)
    : list string :=
  compose_cmd_base
    ++ [project_flag; "jalindeploy"; "up"; "-d"; "--no-deps"; "--build";
        "frontend"; "backend"].

Definition deploy (env : Env) (self : t) : M bool :=
  catch
    ('(compose_cmd_base, project_flag) ←
       catch
         (subprocess_run env ["docker"; "compose"; "version"] None true;;
          ret (["docker"; "compose"], "-p"))
         (on_probe_failure (ret (["docker-compose"], "--project-name")));
     dir ← compose_dir self;
     for_each containers_to_remove (fun container_name =>
       subprocess_run env ["docker"; "stop"; container_name] None false;;
       subprocess_run env ["docker"; "rm"; "-f"; container_name] None false;;
       ret tt);;
     time_sleep env 1;;
     subprocess_run env (up_cmd compose_cmd_base project_flag)
       (Some dir) true;;
     for_each old_images (fun image_name =>
       catch
         (subprocess_run env
            ["docker"; "image"; "prune"; "-f"; "--filter"; "dangling=true"]
            None false;;
          subprocess_run env ["docker"; "rmi"; "-f"; image_name] None false;;
          ret tt)
         (except_Exception (ret tt)));;
     ret true)
    (on_CalledProcessError (ret false)).

(** [run]: the five steps; the first that fails ends the run. *)
Definition run (env : Env) (self : t) (fe_repo_url be_repo_url : string)
    : M bool :=
  fe_ok ←
    clone_repository env self fe_repo_url (frontend_dir self) "Frontend";
  if negb fe_ok then ret false
  else
    be_ok ←
      clone_repository env self be_repo_url (backend_dir self) "Backend";
    if negb be_ok then ret false
    else
      backend_ready ← setup_backend env self;
      if negb backend_ready then ret false
      else
        frontend_ready ← setup_frontend env self;
        if negb frontend_ready then ret false
        else
          built ← build_docker_images env self;
          if negb built then ret false
          else
            deployed ← deploy env self;
            if negb deployed then ret false
            else ret true.

(** [main] as a process: its exit status.  [sys.exit(0 if success else
    1)]; an exception that nothing catches ends the interpreter with a
    non-zero status. *)
Definition main (env : Env) (fe_repo be_repo : string) (w : World)
    : Z * World :=
  match (agent ← __init__ env; run env agent fe_repo be_repo) w with
  | (Ret true, w') => (0%Z, w')
  | (Ret false, w') => (1%Z, w')
  | (Raise _, w') => (1%Z, w')
  end.

End DeploymentAgent.

(** ** deploy_watcher.py *)

Module DeployWatcher.

Record t := mk {
  base_dir : path;
  github_token : option string;
  fe_repo_url : string;
  be_repo_url : string;
  fe_last_sha : option string;
  be_last_sha : option string;
  poll_interval : Z
}.

Definition set_last_shas (fe be : option string) (self : t) : t :=
  {| base_dir := base_dir self;
     github_token := github_token self;
     fe_repo_url := fe_repo_url self;
     be_repo_url := be_repo_url self;
     fe_last_sha := fe;
     be_last_sha := be;
     poll_interval := poll_interval self |}.

(** [__init__]: both revisions start as [None]. *)
Definition __init__ (env : Env) : M t :=
  let base := env_base_dir env in
  has_env ← path_exists (base ++ [".env.local"]);
  match Py.int_of_string (default "300" (env_getenv env "POLL_INTERVAL")) with
  | None => raise ValueError
  | Some interval =>
      ret {| base_dir := base;
             github_token :=
               if has_env : bool then env_getenv env "GITHUB_TOKEN"
               else None;
             fe_repo_url :=
               default "https://github.com/Ayash13/Jalin-App-v2.git"
                       (env_getenv env "FE_REPO_URL");
             be_repo_url :=
               default "https://github.com/Ayash13/JalinApp-REN.git"
                       (env_getenv env "BE_REPO_URL");
             fe_last_sha := None;
             be_last_sha := None;
             poll_interval := interval |}
  end.

(** [get_latest_commit_sha]: the [sha] of the latest commit of the
    branch, [None] on any other status and on any exception. *)
Definition get_latest_commit_sha (env : Env) (owner repo branch : string)
    : M (option string) :=
  let api_url :=
    "https://api.github.com/repos/" +:+ owner +:+ "/" +:+ repo
      +:+ "/commits/" +:+ branch in
  catch
    ('(status, body) ← requests_get env api_url;
     if (status =? 200)%Z then json_get body "sha" else ret None)
    (except_Exception (ret None)).

(** [extract_repo_info], the same text as the agent's. *)
Definition extract_repo_info (repo_url : string) : M (string * string) :=
  let repo_url := Py.rstrip_slash repo_url in
  let repo_url :=
    if Py.endswith repo_url ".git" then Py.drop_last 4 repo_url
    else repo_url in
  if Py.contains "github.com" repo_url then
    let parts :=
      Py.split "/" (Py.last_piece (Py.split "github.com/" repo_url)) in
    match parts with
    | owner :: repo :: _ => ret (owner, repo)
    | _ => raise ValueError
    end
  else raise ValueError.

(** [new_sha and new_sha != last_sha], as a truth value. *)
Definition updated (new_sha last_sha : option string) : bool :=
  Py.truthy new_sha && negb (bool_decide (new_sha = last_sha)).

(** [check_for_updates]: whether either repository has a new commit, and
    the two revisions observed. *)
Definition check_for_updates (env : Env) (self : t)
    : M (bool * option string * option string) :=
  catch
    ('(fe_owner, fe_repo) ← extract_repo_info (fe_repo_url self);
     '(be_owner, be_repo) ← extract_repo_info (be_repo_url self);
     fe_sha ← get_latest_commit_sha env fe_owner fe_repo "main";
     be_sha ← get_latest_commit_sha env be_owner be_repo "main";
     let fe_updated := updated fe_sha (fe_last_sha self) in
     let be_updated := updated be_sha (be_last_sha self) in
     if fe_updated || be_updated then ret (true, fe_sha, be_sha)
     else ret (false, fe_sha, be_sha))
    (except_Exception (ret (false, None, None))).

(** The command line of the agent. *)
Definition agent_cmd (env : Env) (self : t) : list string :=
  [env_executable env;
   Fs.to_string (base_dir self ++ ["deploy_agent.py"]);
   "--fe-repo"; fe_repo_url self; "--be-repo"; be_repo_url self].

(** The world in which the agent starts. *)
Definition agent_start (env : Env) (self : t) (w : World) : World :=
  add_event (EvRun (agent_cmd env self) (Some (base_dir self))) w.

(** The run of [deploy_agent.py] as a subprocess with a timeout of 600
    seconds: the exit status of the agent's [main], unless the call is
    cut short. *)
Definition run_deploy_agent (env : Env) (self : t) : M Z :=
  fun w =>
    let w1 := agent_start env self w in
    match env_agent_fault env (length (w_log w)) w1 with
    | Some (e, w') => (Raise e, w')
    | None =>
        let '(returncode, w2) :=
          DeploymentAgent.main env (fe_repo_url self) (be_repo_url self) w1 in
        (Ret returncode, w2)
    end.

Definition compose_commands : list (list string * string) :=
  [ (["docker"; "compose"], "-p");
    (["docker-compose"], "--project-name") ].

Definition rebuild_cmd (cmd_base : list string) (project_flag : string)
    : list string :=
  cmd_base
    ++ [project_flag; "jalindeploy"; "up"; "-d"; "--build";
        "--force-recreate"; "frontend"; "backend"].

(** [except (FileNotFoundError, subprocess.TimeoutExpired): continue]. *)
Definition on_missing_or_timeout {A} (m' : M A) : exn -> option (M A) :=
  fun e =>
    match e with
    | FileNotFoundError | TimeoutExpired => Some m'
    | _ => None
    end.

(** The [for] loop over [compose_commands]: the return code of the first
    rebuild that ran ([break]), [None] when none did. *)
Fixpoint rebuild_with (env : Env) (self : t)
    (commands : list (list string * string)) : M (option Z) :=
  match commands with
  | [] => ret None
  | (cmd_base, project_flag) :: commands' =>
      rebuild_result ←
        catch
          (test_returncode ←
             subprocess_run env (cmd_base ++ ["version"]) None false;
           if (test_returncode =? 0)%Z then
             in_docker ← path_exists [".dockerenv"];
             let compose_dir :=
               if in_docker : bool then ["app"; "project"]
               else base_dir self in
             returncode ←
               subprocess_run env (rebuild_cmd cmd_base project_flag)
                 (Some compose_dir) false;
             ret (Some returncode)
           else ret None)
          (on_missing_or_timeout (ret None));
      match rebuild_result with
      | Some returncode => ret (Some returncode)
      | None => rebuild_with env self commands'
      end
  end.

(** [trigger_redeploy]. *)
Definition trigger_redeploy (env : Env) (self : t) : M bool :=
  catch
    (returncode ← run_deploy_agent env self;
     if (returncode =? 0)%Z then
       rebuild_result ← rebuild_with env self compose_commands;
       match rebuild_result with
       | None => ret false
       | Some rebuild_returncode => ret (rebuild_returncode =? 0)%Z
       end
     else ret false)
    (except_Exception (ret false)).

(** The two assignments after a successful redeploy. *)
Definition update_last_shas (fe_sha be_sha : option string) (self : t)
    : t :=
  set_last_shas
    (if Py.truthy fe_sha then fe_sha else fe_last_sha self)
    (if Py.truthy be_sha then be_sha else be_last_sha self)
    self.

(** The body of the [try] of the main loop: one poll and, on a change,
    one deploy cycle. *)
Definition poll_and_deploy (env : Env) (self : t) : M t :=
  '(has_updates, fe_sha, be_sha) ← check_for_updates env self;
  if has_updates : bool then
    redeployed ← trigger_redeploy env self;
    if redeployed : bool then ret (update_last_shas fe_sha be_sha self)
    else ret self
  else ret self.

(** How [run] stands after some iterations of [while True]. *)
Inductive status :=
  | Looping               (* still in the loop *)
  | Returned              (* left the loop by [break] *)
  | Uncaught (e : exn).   (* an exception left [run] *)

(** [iterations] passes through the main loop. *)
Fixpoint main_loop (env : Env) (iterations : nat) (self : t) (w : World)
    : status * t * World :=
  match iterations with
  | O => (Looping, self, w)
  | S iterations' =>
      match poll_and_deploy env self w with
      | (Raise KeyboardInterrupt, w1) => (Returned, self, w1)
      | (r, w1) =>
          let self1 :=
            match r with
            | Ret self' => self'
            | Raise _ => self       (* except Exception: logged *)
            end in
          match time_sleep env (poll_interval self1) w1 with
          | (Ret _, w2) => main_loop env iterations' self1 w2
          | (Raise e, w2) => (Uncaught e, self1, w2)
          end
      end
  end.

(** The start of [run]: the current revisions become the last seen
    ones; an exception leaves both as they are. *)
Definition initial_shas (env : Env) (self : t) : M t :=
  catch
    ('(fe_owner, fe_repo) ← extract_repo_info (fe_repo_url self);
     '(be_owner, be_repo) ← extract_repo_info (be_repo_url self);
     fe_sha ← get_latest_commit_sha env fe_owner fe_repo "main";
     be_sha ← get_latest_commit_sha env be_owner be_repo "main";
     ret (set_last_shas fe_sha be_sha self))
    (except_Exception (ret self)).

(** [run], followed for [iterations] passes of its loop. *)
Definition run (env : Env) (iterations : nat) (self : t) (w : World)
    : status * t * World :=
  match initial_shas env self w with
  | (Ret self0, w0) => main_loop env iterations self0 w0
  | (Raise e, w0) => (Uncaught e, self, w0)
  end.

(** How the process of the watcher ends, if it does. *)
Inductive process_end :=
  | Running
  | ExitCode (code : Z)
  | Traceback (e : exn).   (* uncaught exception: a non-zero status *)

(** [main]: [DeployWatcher().run()]; the interpreter exits with status 0
    when [main] returns. *)
Definition main (env : Env) (iterations : nat) (w : World)
    : process_end * World :=
  match __init__ env w with
  | (Raise e, w0) => (Traceback e, w0)
  | (Ret watcher, w0) =>
      match run env iterations watcher w0 with
      | (Looping, _, w1) => (Running, w1)
      | (Returned, _, w1) => (ExitCode 0, w1)
      | (Uncaught e, _, w1) => (Traceback e, w1)
      end
  end.

End DeployWatcher.

(** * Vocabulary of the statements *)

(** A relation between the world before and the world after that a
    computation respects, whether it returns or raises. *)
Definition respects (R : World -> World -> Prop) {A} (m : M A) : Prop :=
  forall w, R w (m w).2.

(** [m], started in [w], ends in a world related by [R] to [w0], and
    what it returns, if it returns, satisfies [post]. *)
Definition safe (R : World -> World -> Prop) {A} (post : A -> Prop)
    (m : M A) (w0 w : World) : Prop :=
  R w0 (m w).2 /\ forall a, (m w).1 = Ret a -> post a.

(** Every entry that exists is kept as it is. *)
Definition fs_kept (w w' : World) : Prop := w_fs w ⊆ w_fs w'.

(** A file stays a file and a directory a directory. *)
Definition same_kind (n n' : node) : Prop :=
  match n, n' with
  | File _, File _ => True
  | Dir, Dir => True
  | _, _ => False
  end.

(** Every entry that exists keeps existing, with its kind. *)
Definition fs_additive (w w' : World) : Prop :=
  forall q n, w_fs w !! q = Some n ->
    exists n', w_fs w' !! q = Some n' /\ same_kind n n'.

(** The file at [q] with content [c] is there afterwards if it was
    before. *)
Definition local_kept (q : path) (c : string) (w w' : World) : Prop :=
  w_fs w !! q = Some (File c) -> w_fs w' !! q = Some (File c).

(** When a copy to [dst = subdir / file] cannot hit [q]: the name is not a
    preserved one, or [dst] is another path and not a directory. *)
Definition misses (q : path) (file : string) (dst : path) (w : World)
    : Prop :=
  file ∉ DeploymentAgent.preserve_files
  \/ (q <> dst /\ Fs.is_dir (w_fs w) dst = false).

(** The entry at [p] is as it was, or it is the file with content [c]. *)
Definition installs_or_leaves (p : path) (c : string) (w w' : World) : Prop :=
  w_fs w' !! p = w_fs w !! p \/ w_fs w' !! p = Some (File c).

(** The log grew, and by events in [P] only. *)
Definition events_only (P : event -> Prop) (w w' : World) : Prop :=
  exists new, w_log w' = new ++ w_log w /\ Forall P new.

Definition is_get (ev : event) : Prop :=
  match ev with
  | EvGet _ => True
  | _ => False
  end.

(** From time [t] on, every archive that is served has no members. *)
Definition serves_empty_archives (env : Env) (t : nat) : Prop :=
  forall n url status members,
    t <= n -> env_get env n url = Response status (BodyZip members) ->
    members = [].

(** No member of the archive lies below its root folder. *)
Definition root_has_no_entries (members : list (path * node)) : bool :=
  forallb (fun member => (length member.1 <=? 1)%nat) members.

(** The verification check in the words of the specification: the
    directory exists, is a directory and is not empty. *)
Definition tree_ready (fs : FS) (dir : path) : bool :=
  Fs.exists_ fs dir && Fs.is_dir fs dir && Fs.nonempty_dir fs dir.

(** The three preconditions of a build: the manifest, the frontend tree,
    and the backend tree with its [requirements.txt]. *)
Definition build_gate (self : DeploymentAgent.t) (fs : FS) : bool :=
  Fs.exists_ fs (DeploymentAgent.base_dir self ++ ["docker-compose.yml"])
  && tree_ready fs (DeploymentAgent.frontend_dir self)
  && (tree_ready fs (DeploymentAgent.backend_dir self)
      && Fs.exists_ fs
           (DeploymentAgent.backend_dir self ++ ["requirements.txt"])).

(** Every stage of the agent's [run] reports success, one after the
    other. *)
Definition stages_succeed (env : Env) (agent : DeploymentAgent.t)
    (fe_repo_url be_repo_url : string) (w w' : World) : Prop :=
  exists w1 w2 w3 w4 w5,
    DeploymentAgent.clone_repository env agent fe_repo_url
      (DeploymentAgent.frontend_dir agent) "Frontend" w = (Ret true, w1)
    /\ DeploymentAgent.clone_repository env agent be_repo_url
         (DeploymentAgent.backend_dir agent) "Backend" w1 = (Ret true, w2)
    /\ DeploymentAgent.setup_backend env agent w2 = (Ret true, w3)
    /\ DeploymentAgent.setup_frontend env agent w3 = (Ret true, w4)
    /\ DeploymentAgent.build_docker_images env agent w4 = (Ret true, w5)
    /\ DeploymentAgent.deploy env agent w5 = (Ret true, w').

(** The whole pipeline of a deploy cycle reports success: the agent is
    started and runs to the end with exit status 0, each of its stages
    succeeds, and the rebuild of the watcher ends with return code 0. *)
Definition pipeline_succeeds (env : Env) (self : DeployWatcher.t)
    (w w' : World) : Prop :=
  exists agent w_init w_agent,
    DeployWatcher.run_deploy_agent env self w = (Ret 0%Z, w_agent)
    /\ DeploymentAgent.__init__ env (DeployWatcher.agent_start env self w)
       = (Ret agent, w_init)
    /\ stages_succeed env agent (DeployWatcher.fe_repo_url self)
         (DeployWatcher.be_repo_url self) w_init w_agent
    /\ DeployWatcher.rebuild_with env self DeployWatcher.compose_commands
         w_agent = (Ret (Some 0%Z), w').

(** The commands a deploy of the agent may run, and its pause. *)
Definition deploy_event (ev : event) : Prop :=
  match ev with
  | EvRun cmd _ =>
      cmd ∈ [ ["docker"; "compose"; "version"];
              ["docker"; "stop"; "jalin-frontend"];
              ["docker"; "rm"; "-f"; "jalin-frontend"];
              ["docker"; "stop"; "jalin-backend"];
              ["docker"; "rm"; "-f"; "jalin-backend"];
              DeploymentAgent.up_cmd ["docker"; "compose"] "-p";
              DeploymentAgent.up_cmd ["docker-compose"] "--project-name";
              ["docker"; "image"; "prune"; "-f"; "--filter"; "dangling=true"];
              ["docker"; "rmi"; "-f"; "jalindeploy-frontend"];
              ["docker"; "rmi"; "-f"; "jalindeploy-backend"] ]
  | EvSleep _ => True
  | _ => False
  end.

(** A stored revision that is known stays known. *)
Definition stays_known (self self' : DeployWatcher.t) : Prop :=
  (is_Some (DeployWatcher.fe_last_sha self) ->
   is_Some (DeployWatcher.fe_last_sha self'))
  /\ (is_Some (DeployWatcher.be_last_sha self) ->
      is_Some (DeployWatcher.be_last_sha self')).

(** The pair of revisions a watcher has stored. *)
Definition last_shas (self : DeployWatcher.t) : option string * option string :=
  (DeployWatcher.fe_last_sha self, DeployWatcher.be_last_sha self).

(** ** Vocabulary of the further properties *)

Definition is_sleep (ev : event) : Prop :=
  match ev with
  | EvSleep _ => True
  | _ => False
  end.

(** A request or a pause: what the watcher does while nothing changes. *)
Definition is_get_or_sleep (ev : event) : Prop :=
  match ev with
  | EvGet _ | EvSleep _ => True
  | _ => False
  end.

(** The answers of GitHub do not change over time. *)
Definition steady_upstream (env : Env) : Prop :=
  forall n m url, env_get env n url = env_get env m url.

(** What a fetch does to the outside: requests, a merge, a rename. *)
Definition fetch_event (ev : event) : Prop :=
  match ev with
  | EvGet _ | EvMerge _ _ | EvRename _ _ => True
  | _ => False
  end.

(** [CalledProcessError] comes from [check=True] alone: no call of
    [subprocess.run] raises it by itself, and [time.sleep] never does. *)
Definition check_raises_alone (env : Env) : Prop :=
  (forall n cmd cwd fs, (env_proc env n cmd cwd fs).1 <> ProcRaises CalledProcessError)
  /\ (forall n, env_sleep env n <> Some CalledProcessError).

(** The last external action in [w'] was the command [cmd] run in [cwd],
    and it failed: it exited with a non-zero code (or the call raised
    [CalledProcessError]). *)
Definition ended_in_failed_command (env : Env) (cmd : list string)
    (cwd : option path) (w' : World) : Prop :=
  exists rest fs,
    w_log w' = EvRun cmd cwd :: rest
    /\ match (env_proc env (length rest) cmd cwd fs).1 with
       | Exited returncode => returncode <> 0%Z
       | ProcRaises e => e = CalledProcessError
       end.

(** The commands that stop, remove or recreate the two containers. *)
Definition container_commands : list (list string) :=
  [ ["docker"; "stop"; "jalin-frontend"];
    ["docker"; "rm"; "-f"; "jalin-frontend"];
    ["docker"; "stop"; "jalin-backend"];
    ["docker"; "rm"; "-f"; "jalin-backend"];
    DeploymentAgent.up_cmd ["docker"; "compose"] "-p";
    DeploymentAgent.up_cmd ["docker-compose"] "--project-name" ].

Definition leaves_containers (ev : event) : Prop :=
  match ev with
  | EvRun cmd _ => cmd ∉ container_commands
  | _ => True
  end.

(** The two signs of a container that [is_running_in_docker] looks
    for. *)
Definition in_docker (fs : FS) : Prop :=
  Fs.exists_ fs [".dockerenv"] = true
  \/ exists content,
       fs !! ["proc"; "self"; "cgroup"] = Some (File content)
       /\ Py.contains "docker" content = true.

(** The file at [q] with content [c] is kept, and [target] stays a
    directory. *)
Definition kept_with_target (q : path) (c : string) (target : path)
    (w w' : World) : Prop :=
  local_kept q c w w'
  /\ (w_fs w !! target = Some Dir -> w_fs w' !! target = Some Dir).

(** * Concrete worlds *)

(** An environment where nothing goes wrong: every process exits with 0,
    no copy, chmod, rename or sleep is disturbed; [get] answers the HTTP
    requests. *)
Definition calm_env (get : string -> http_result) : Env :=
  {| env_base_dir := ["app"];
     env_getenv :=
       fun key => if String.eqb key "GITHUB_TOKEN" then Some "t0ken" else None;
     env_executable := "python3";
     env_platform := "linux";
     env_proc := fun _ _ _ fs => (Exited 0, fs);
     env_get := fun _ url => get url;
     env_copy_fault := fun _ _ => NoFault;
     env_chmod_fault := fun _ => None;
     env_rename_fault := fun _ => None;
     env_tmp_zip := fun _ => ["tmp"; "download.zip"];
     env_time := fun _ => "1700000000";
     env_sleep := fun _ => None;
     env_agent_fault := fun _ _ => None |}.

Definition fe_archive : list (path * node) :=
  [ (["Ayash13-Jalin-App-v2-abc123"], Dir);
    (["Ayash13-Jalin-App-v2-abc123"; "package.json"], File "{}");
    (["Ayash13-Jalin-App-v2-abc123"; "Dockerfile"], File "FROM upstream") ].

Definition be_archive : list (path * node) :=
  [ (["Ayash13-JalinApp-REN-def456"], Dir);
    (["Ayash13-JalinApp-REN-def456"; "requirements.txt"], File "flask");
    (["Ayash13-JalinApp-REN-def456"; "app.py"], File "print(1)") ].

(** GitHub with the frontend at [abc123] and the backend at [def456];
    [be_members] is the archive of the backend. *)
Definition github (be_members : list (path * node)) (url : string)
    : http_result :=
  if String.eqb url
       "https://api.github.com/repos/Ayash13/Jalin-App-v2/commits/main"
  then Response 200 (BodyJson [("sha", "abc123")])
  else if String.eqb url
       "https://api.github.com/repos/Ayash13/JalinApp-REN/commits/main"
  then Response 200 (BodyJson [("sha", "def456")])
  else if String.eqb url
       "https://api.github.com/repos/Ayash13/Jalin-App-v2/zipball/main"
  then Response 200 (BodyZip fe_archive)
  else if String.eqb url
       "https://api.github.com/repos/Ayash13/JalinApp-REN/zipball/main"
  then Response 200 (BodyZip be_members)
  else Response 200 (BodyJson [("default_branch", "main")]).

Definition demo_env : Env := calm_env (github be_archive).

(** A host inside Docker with both working trees in place. *)
Definition demo_fs : FS :=
  {[ [".dockerenv"] := File "";
     ["tmp"] := Dir;
     ["app"] := Dir;
     ["app"; ".env.local"] := File "GITHUB_TOKEN=t0ken";
     ["app"; "docker-compose.yml"] := File "services:";
     ["app"; "frontend"] := Dir;
     ["app"; "frontend"; "Dockerfile"] := File "FROM node";
     ["app"; "frontend"; "notes.txt"] := File "local";
     ["app"; "backend"] := Dir;
     ["app"; "backend"; "requirements.txt"] := File "django" ]}.

Definition demo_world : World := mkWorld demo_fs [].

(** The watcher with the frontend unknown and the backend at [def456]. *)
Definition demo_watcher : DeployWatcher.t :=
  {| DeployWatcher.base_dir := ["app"];
     DeployWatcher.github_token := Some "t0ken";
     DeployWatcher.fe_repo_url := "https://github.com/Ayash13/Jalin-App-v2.git";
     DeployWatcher.be_repo_url := "https://github.com/Ayash13/JalinApp-REN.git";
     DeployWatcher.fe_last_sha := None;
     DeployWatcher.be_last_sha := Some "def456";
     DeployWatcher.poll_interval := 300 |}.

Definition demo_agent : DeploymentAgent.t :=
  {| DeploymentAgent.base_dir := ["app"];
     DeploymentAgent.frontend_dir := ["app"; "frontend"];
     DeploymentAgent.backend_dir := ["app"; "backend"];
     DeploymentAgent.github_token := Some "t0ken" |}.

(** A fetched tree under /tmp next to the frontend tree of [demo_fs]. *)
Definition fetched_fs : FS :=
  <[ ["tmp"; "src"] := Dir ]>
  (<[ ["tmp"; "src"; "Dockerfile"] := File "FROM upstream" ]>
  (<[ ["tmp"; "src"; "package.json"] := File "{}" ]> demo_fs)).

Definition fetched_world : World := mkWorld fetched_fs [].

(** [demo_env] with every [time.sleep] interrupted from the keyboard. *)
Definition interrupted_env : Env :=
  {| env_base_dir := env_base_dir demo_env;
     env_getenv := env_getenv demo_env;
     env_executable := env_executable demo_env;
     env_platform := env_platform demo_env;
     env_proc := env_proc demo_env;
     env_get := env_get demo_env;
     env_copy_fault := env_copy_fault demo_env;
     env_chmod_fault := env_chmod_fault demo_env;
     env_rename_fault := env_rename_fault demo_env;
     env_tmp_zip := env_tmp_zip demo_env;
     env_time := env_time demo_env;
     env_sleep := fun _ => Some KeyboardInterrupt;
     env_agent_fault := env_agent_fault demo_env |}.

(** GitHub serving archives without members. *)
Definition empty_env : Env :=
  calm_env (fun _ => Response 200 (BodyZip [])).

(** [demo_env] for the first three external actions (the fetch of the
    frontend), archives without members afterwards. *)
Definition late_empty_env : Env :=
  {| env_base_dir := env_base_dir demo_env;
     env_getenv := env_getenv demo_env;
     env_executable := env_executable demo_env;
     env_platform := env_platform demo_env;
     env_proc := env_proc demo_env;
     env_get :=
       fun n url =>
         if (n <? 3)%nat then github be_archive url
         else Response 200 (BodyZip []);
     env_copy_fault := env_copy_fault demo_env;
     env_chmod_fault := env_chmod_fault demo_env;
     env_rename_fault := env_rename_fault demo_env;
     env_tmp_zip := env_tmp_zip demo_env;
     env_time := env_time demo_env;
     env_sleep := env_sleep demo_env;
     env_agent_fault := env_agent_fault demo_env |}.

(** An archive of the backend that holds its root folder and nothing in
    it. *)
Definition bare_root_archive : list (path * node) :=
  [ (["Ayash13-JalinApp-REN-def456"], Dir) ].

Definition bare_root_env : Env := calm_env (github bare_root_archive).

(** GitHub out of reach: every request raises. *)
Definition offline_env : Env :=
  calm_env (fun _ => RequestRaises RequestException).

(** [demo_env] with the processes answered by [proc]. *)
Definition proc_env (proc : list string -> proc_result) : Env :=
  {| env_base_dir := env_base_dir demo_env;
     env_getenv := env_getenv demo_env;
     env_executable := env_executable demo_env;
     env_platform := env_platform demo_env;
     env_proc := fun _ cmd _ fs => (proc cmd, fs);
     env_get := env_get demo_env;
     env_copy_fault := env_copy_fault demo_env;
     env_chmod_fault := env_chmod_fault demo_env;
     env_rename_fault := env_rename_fault demo_env;
     env_tmp_zip := env_tmp_zip demo_env;
     env_time := env_time demo_env;
     env_sleep := env_sleep demo_env;
     env_agent_fault := env_agent_fault demo_env |}.

(** Every command succeeds but [failing], which exits with 1. *)
Definition failing_env (failing : list string) : Env :=
  proc_env (fun cmd => if bool_decide (cmd = failing) then Exited 1
                       else Exited 0).

(** The rebuild with [docker compose] runs into its timeout. *)
Definition slow_rebuild_env : Env :=
  proc_env (fun cmd =>
    if bool_decide (cmd = DeployWatcher.rebuild_cmd ["docker"; "compose"] "-p")
    then ProcRaises TimeoutExpired
    else Exited 0).

(** A host outside Docker, with both working trees in place. *)
Definition host_fs : FS := delete [".dockerenv"] demo_fs.

Definition host_world : World := mkWorld host_fs [].

(** Every request is interrupted from the keyboard. *)
Definition ctrl_c_env : Env :=
  calm_env (fun _ => RequestRaises KeyboardInterrupt).

(** * Verification *)

(** ** Reasoning about computations *)

(** A relation between the world before and the world after that every
    step of a computation respects, whether it returns or raises. *)
Section Respects.
Context (R : World -> World -> Prop).
Hypothesis R_refl : forall w, R w w.
Hypothesis R_trans : forall w1 w2 w3, R w1 w2 -> R w2 w3 -> R w1 w3.

Lemma respects_ret {A} (a : A) : respects R (ret a).
Proof using R_refl. intros w. apply R_refl. Qed.

Lemma respects_raise {A} (e : exn) : respects R (@raise A e).
Proof using R_refl. intros w. apply R_refl. Qed.

Lemma respects_gets {A} (f : World -> A) : respects R (gets f).
Proof using R_refl. intros w. apply R_refl. Qed.

Lemma respects_bind {A B} (m : M A) (k : A -> M B) :
  respects R m -> (forall a, respects R (k a)) -> respects R (m ≫= k).
Proof using R_trans.
  intros Hm Hk w. unfold mbind, M_bind, bind.
  specialize (Hm w). destruct (m w) as [[a|e] w']; simpl in *.
  - eapply R_trans; [exact Hm | apply Hk].
  - exact Hm.
Qed.

Lemma respects_catch {A} (m : M A) (h : exn -> option (M A)) :
  respects R m -> (forall e m', h e = Some m' -> respects R m') ->
  respects R (catch m h).
Proof using R_trans.
  intros Hm Hh w. unfold catch.
  specialize (Hm w). destruct (m w) as [[a|e] w']; simpl in *.
  - exact Hm.
  - destruct (h e) as [m'|] eqn:He; simpl.
    + eapply R_trans; [exact Hm | eapply Hh, He].
    + exact Hm.
Qed.

Lemma respects_finally {A} (m : M A) (f : M unit) :
  respects R m -> respects R f -> respects R (finally m f).
Proof using R_trans.
  intros Hm Hf w. unfold finally.
  specialize (Hm w). destruct (m w) as [r w']; simpl in *.
  specialize (Hf w'). destruct (f w') as [[[]|e] w'']; simpl in *;
    eapply R_trans; eauto.
Qed.

Lemma respects_for_each {A} (l : list A) (body : A -> M unit) :
  (forall x, respects R (body x)) -> respects R (for_each l body).
Proof using R_refl R_trans.
  intros Hb. induction l as [|x l IH]; simpl.
  - apply (respects_ret tt).
  - apply respects_bind; auto.
Qed.
End Respects.

(** ** What the file operations of a merge do to the entries *)

Lemma same_kind_refl n : same_kind n n.
Proof. by destruct n. Qed.

Lemma same_kind_trans n1 n2 n3 :
  same_kind n1 n2 -> same_kind n2 n3 -> same_kind n1 n3.
Proof. by destruct n1, n2, n3. Qed.

Lemma fs_kept_refl w : fs_kept w w.
Proof. by unfold fs_kept. Qed.

Lemma fs_kept_trans w1 w2 w3 : fs_kept w1 w2 -> fs_kept w2 w3 -> fs_kept w1 w3.
Proof. unfold fs_kept. intros ??. by etrans. Qed.

Lemma fs_additive_refl w : fs_additive w w.
Proof. intros q n Hq. exists n. split; [done | apply same_kind_refl]. Qed.

Lemma fs_additive_trans w1 w2 w3 :
  fs_additive w1 w2 -> fs_additive w2 w3 -> fs_additive w1 w3.
Proof.
  intros H12 H23 q n Hq.
  destruct (H12 q n Hq) as (n2 & Hq2 & Hk2).
  destruct (H23 q n2 Hq2) as (n3 & Hq3 & Hk3).
  exists n3. split; [done | by eapply same_kind_trans].
Qed.

Lemma fs_kept_additive w w' : fs_kept w w' -> fs_additive w w'.
Proof.
  intros Hk q n Hq. exists n. split; [| apply same_kind_refl].
  eapply lookup_weaken; [exact Hq | exact Hk].
Qed.

Lemma mkdir_from_kept (above below : path) (fs : FS) :
  fs ⊆ (Fs.mkdir_from above below fs).2.
Proof.
  revert above fs. induction below as [|c below IH]; intros above fs; simpl.
  - done.
  - destruct (fs !! (above ++ [c])) as [[content|]|] eqn:Hp; simpl.
    + done.
    + apply IH.
    + etrans; [| apply IH]. by apply insert_subseteq.
Qed.

Lemma mkdir_parents_kept p : respects fs_kept (Fs.mkdir_parents p).
Proof.
  intros w. unfold Fs.mkdir_parents, fs_kept.
  pose proof (mkdir_from_kept [] p (w_fs w)) as H.
  destruct (Fs.mkdir_from [] p (w_fs w)) as [r fs']. exact H.
Qed.

Lemma log_event_kept ev : respects fs_kept (log_event ev).
Proof. intros w. by unfold fs_kept. Qed.

Lemma os_chmod_kept env p : respects fs_kept (os_chmod env p).
Proof.
  intros w. unfold os_chmod, fs_kept.
  by destruct (env_chmod_fault env p).
Qed.

(** A copy leaves the file system as it is or writes one file, at the
    destination or inside it, and never over a directory. *)
Lemma shutil_copy2_writes env attempt name content dst w :
  let w' := (shutil_copy2 env attempt name content dst w).2 in
  w_fs w' = w_fs w \/
  exists real,
    (real = dst /\ Fs.is_dir (w_fs w) dst = false \/
     real = dst ++ [name] /\ Fs.is_dir (w_fs w) dst = true) /\
    Fs.is_dir (w_fs w) real = false /\
    w_fs w' = <[real := File content]> (w_fs w).
Proof.
  unfold shutil_copy2. simpl.
  set (real := if Fs.is_dir (w_fs w) dst then dst ++ [name] else dst).
  assert (Hreal : real = dst /\ Fs.is_dir (w_fs w) dst = false \/
                  real = dst ++ [name] /\ Fs.is_dir (w_fs w) dst = true).
  { subst real. destruct (Fs.is_dir (w_fs w) dst); auto. }
  destruct (Fs.is_dir (w_fs w) real) eqn:Hd.
  { left. by destruct (env_copy_fault env real attempt). }
  destruct (Fs.is_dir (w_fs w) (Fs.parent real)); simpl.
  - destruct (env_copy_fault env real attempt); simpl; eauto 6.
  - left. by destruct (env_copy_fault env real attempt).
Qed.

Lemma is_dir_false_lookup (fs : FS) p n :
  Fs.is_dir fs p = false -> fs !! p = Some n -> exists c, n = File c.
Proof.
  destruct p as [|x p]; [done|]. simpl. intros Hd Hp.
  apply bool_decide_eq_false in Hd. destruct n; [eauto | done].
Qed.

Lemma shutil_copy2_additive env attempt name content dst :
  respects fs_additive (shutil_copy2 env attempt name content dst).
Proof.
  intros w q n Hq.
  destruct (shutil_copy2_writes env attempt name content dst w)
    as [-> | (real & _ & Hd & ->)].
  - exists n. split; [done | apply same_kind_refl].
  - destruct (decide (real = q)) as [-> | Hne].
    + destruct (is_dir_false_lookup _ _ _ Hd Hq) as [c ->].
      exists (File content). by rewrite lookup_insert_eq.
    + exists n. rewrite lookup_insert_ne by done.
      split; [done | apply same_kind_refl].
Qed.

Lemma respects_weaken (R R' : World -> World -> Prop) {A} (m : M A) :
  (forall w w', R w w' -> R' w w') -> respects R m -> respects R' m.
Proof. intros HR Hm w. apply HR, Hm. Qed.

(** One structural step of a proof that a computation respects a
    preorder. *)
Ltac respects_step Hrefl Htrans :=
  first
    [ apply (respects_ret _ Hrefl)
    | apply (respects_gets _ Hrefl)
    | apply (respects_raise _ Hrefl)
    | apply (respects_for_each _ Hrefl Htrans)
    | apply (respects_bind _ Htrans)
    | apply (respects_catch _ Htrans)
    | apply (respects_finally _ Htrans) ].

Section MergeAdditive.
Import DeploymentAgent.
Context (env : Env).

Local Ltac step := respects_step fs_additive_refl fs_additive_trans.
Local Ltac from_kept lem :=
  eapply respects_weaken; [apply fs_kept_additive | apply lem].

Lemma merge_file_additive target_subdir file content :
  respects fs_additive (merge_file env target_subdir file content).
Proof.
  unfold merge_file. step; [step |].
  intros target_exists.
  destruct (bool_decide (file ∈ preserve_files) && target_exists);
    [step |].
  step; [apply shutil_copy2_additive |].
  intros e m' He. destruct e; try discriminate He.
  injection He as <-.
  step; [from_kept os_chmod_kept | intros _].
  step; [apply shutil_copy2_additive | intros _].
  from_kept os_chmod_kept.
Qed.

Lemma merge_walk_entry_additive target_path entry :
  respects fs_additive (merge_walk_entry env target_path entry).
Proof.
  destruct entry as [[rel_path dirs] files]. unfold merge_walk_entry.
  step.
  - destruct rel_path; [step | from_kept mkdir_parents_kept].
  - intros _. step. intros [file content]. apply merge_file_additive.
Qed.

Lemma _merge_directories_additive source_dir target_dir :
  respects fs_additive (_merge_directories env source_dir target_dir).
Proof.
  unfold _merge_directories.
  step; [from_kept log_event_kept | intros _].
  step; [from_kept mkdir_parents_kept | intros _].
  step; [step | intros walk].
  step. intros entry. apply merge_walk_entry_additive.
Qed.
End MergeAdditive.

(** *** Locally-owned files *)

Section MergePreserves.
Import DeploymentAgent.
Context (env : Env) (q : path) (c : string).
Hypothesis q_local : Fs.basename q ∈ preserve_files.

Local Abbreviation local_kept := (local_kept q c).
Local Abbreviation misses := (misses q).

Lemma local_kept_refl w : local_kept w w.
Proof. by unfold local_kept. Qed.

Lemma local_kept_trans w1 w2 w3 :
  local_kept w1 w2 -> local_kept w2 w3 -> local_kept w1 w3.
Proof. unfold local_kept. auto. Qed.

Lemma fs_kept_local w w' : fs_kept w w' -> local_kept w w'.
Proof. intros Hk Hq. eapply lookup_weaken; [exact Hq | exact Hk]. Qed.

Lemma basename_snoc (p : path) (x : string) : Fs.basename (p ++ [x]) = x.
Proof. unfold Fs.basename. apply last_last. Qed.

Lemma shutil_copy2_misses attempt file content target_subdir w :
  let dst := target_subdir ++ [file] in
  let w' := (shutil_copy2 env attempt file content dst w).2 in
  misses file dst w ->
  w_fs w !! q = Some (File c) ->
  w_fs w' !! q = Some (File c) /\ misses file dst w'.
Proof using q_local.
  intros dst w' Hm Hq. subst w'. unfold misses in *.
  destruct (shutil_copy2_writes env attempt file content dst w)
    as [Heq | (real & Hreal & Hd & Heq)]; simpl in Heq; rewrite Heq.
  { done. }
  destruct Hm as [Hfile | [Hne Hnd]].
  - split; [| by left].
    rewrite lookup_insert_ne; [done |].
    intros ->. apply Hfile.
    destruct Hreal as [[-> _] | [-> _]]; unfold dst in q_local;
      by rewrite basename_snoc in q_local.
  - destruct Hreal as [[-> _] | [_ Hdir]]; [| congruence].
    split; [by rewrite lookup_insert_ne |].
    right. split; [done |]. unfold dst.
    destruct (target_subdir ++ [file]) eqn:E; [by destruct target_subdir |].
    simpl. rewrite lookup_insert_eq. by apply bool_decide_eq_false.
Qed.

Lemma merge_file_local target_subdir file content :
  respects local_kept (merge_file env target_subdir file content).
Proof using q_local.
  intros w Hq. unfold merge_file, mbind, M_bind, bind, path_exists, gets.
  set (dst := target_subdir ++ [file]).
  destruct (bool_decide (file ∈ preserve_files)
            && Fs.exists_ (w_fs w) dst) eqn:Hskip; [done |].
  assert (Hm : misses file dst w).
  { apply andb_false_iff in Hskip as [Hf | He].
    - left. by apply bool_decide_eq_false in Hf.
    - right. unfold dst in *.
      destruct (target_subdir ++ [file]) eqn:E; [done |]. simpl in *.
      apply bool_decide_eq_false in He.
      split.
      + intros Heq. apply He. rewrite <- Heq. by eexists.
      + apply bool_decide_eq_false. intros Hd. apply He. by eexists. }
  unfold catch.
  pose proof (shutil_copy2_misses 0 file content target_subdir w Hm Hq)
    as [Hq1 Hm1]. fold dst in Hq1, Hm1.
  destruct (shutil_copy2 env 0 file content dst w) as [[[]|e] w1];
    simpl in *; [done |].
  destruct e; try done.
  unfold os_chmod at 1.
  destruct (env_chmod_fault env (Fs.parent dst)); [done |]. simpl.
  pose proof (shutil_copy2_misses 1 file content target_subdir w1 Hm1 Hq1)
    as [Hq2 Hm2]. fold dst in Hq2, Hm2.
  destruct (shutil_copy2 env 1 file content dst w1) as [[[]|e] w2];
    simpl in *; [| done].
  unfold os_chmod. by destruct (env_chmod_fault env dst).
Qed.

Local Ltac step := respects_step local_kept_refl local_kept_trans.
Local Ltac from_kept lem :=
  eapply respects_weaken; [apply fs_kept_local | apply lem].

Lemma merge_walk_entry_local target_path entry :
  respects local_kept (merge_walk_entry env target_path entry).
Proof using q_local.
  destruct entry as [[rel_path dirs] files]. unfold merge_walk_entry.
  step.
  - destruct rel_path; [step | from_kept mkdir_parents_kept].
  - intros _. step. intros [file content]. apply merge_file_local.
Qed.

Lemma _merge_directories_local source_dir target_dir :
  respects local_kept (_merge_directories env source_dir target_dir).
Proof using q_local.
  unfold _merge_directories.
  step; [from_kept log_event_kept | intros _].
  step; [from_kept mkdir_parents_kept | intros _].
  step; [step | intros walk].
  step. intros entry. apply merge_walk_entry_local.
Qed.
End MergePreserves.

(** ** Computations that stay within a relation *)

Section Safe.
Context (R : World -> World -> Prop).
Hypothesis R_refl : forall w, R w w.
Hypothesis R_trans : forall w1 w2 w3, R w1 w2 -> R w2 w3 -> R w1 w3.

Lemma safe_ret {A} (post : A -> Prop) (a : A) w0 w :
  R w0 w -> post a -> safe R post (ret a) w0 w.
Proof. intros HR Hp. split; [done |]. by intros a' [= <-]. Qed.

Lemma safe_raise {A} (post : A -> Prop) (e : exn) w0 w :
  R w0 w -> safe R post (raise e) w0 w.
Proof. intros HR. by split. Qed.

Lemma safe_mono {A} (post post' : A -> Prop) (m : M A) w0 w :
  (forall a, post a -> post' a) -> safe R post m w0 w -> safe R post' m w0 w.
Proof. intros Hp [HR Ha]. split; [done |]. auto. Qed.

Lemma safe_respects {A} (m : M A) w0 w :
  respects R m -> R w0 w -> safe R (fun _ => True) m w0 w.
Proof using R_trans.
  intros Hm HR. split; [| done]. eapply R_trans; [exact HR | apply Hm].
Qed.

Lemma safe_gets {A} (f : World -> A) w0 w :
  R w0 w -> safe R (fun a => a = f w) (gets f) w0 w.
Proof. intros HR. split; [done |]. by intros a [= <-]. Qed.

Lemma safe_bind {A B} (mid : A -> Prop) (post : B -> Prop)
    (m : M A) (k : A -> M B) w0 w :
  safe R mid m w0 w ->
  (forall a w1, mid a -> R w0 w1 -> safe R post (k a) w0 w1) ->
  safe R post (m ≫= k) w0 w.
Proof.
  intros [HR Ha] Hk. unfold safe, mbind, M_bind, bind in *.
  destruct (m w) as [[a | e] w1]; simpl in *.
  - apply Hk; auto.
  - by split.
Qed.

Lemma safe_catch {A} (post : A -> Prop) (m : M A)
    (h : exn -> option (M A)) w0 w :
  safe R post m w0 w ->
  (forall e m' w1, h e = Some m' -> R w0 w1 -> safe R post m' w0 w1) ->
  safe R post (catch m h) w0 w.
Proof.
  intros [HR Ha] Hh. unfold safe, catch in *.
  destruct (m w) as [[a | e] w1]; simpl in *.
  - by split.
  - destruct (h e) as [m' |] eqn:He; [by eapply Hh | by split].
Qed.

Lemma safe_finally {A} (post : A -> Prop) (m : M A) (f : M unit) w0 w :
  safe R post m w0 w ->
  (forall w1, R w0 w1 -> safe R (fun _ => True) f w0 w1) ->
  safe R post (finally m f) w0 w.
Proof.
  intros [HR Ha] Hf. unfold safe, finally in *.
  destruct (m w) as [r w1]; simpl in *.
  destruct (Hf w1 HR) as [HR' _].
  destruct (f w1) as [[[] | e] w2]; simpl in *; by split.
Qed.

Lemma safe_for_each {A} (l : list A) (body : A -> M unit) w0 w :
  Forall (fun x => forall w1, R w0 w1 ->
                   safe R (fun _ => True) (body x) w0 w1) l ->
  R w0 w -> safe R (fun _ => True) (for_each l body) w0 w.
Proof.
  intros Hl. revert w. induction Hl as [| x l Hx _ IH]; intros w HR; simpl.
  - by apply safe_ret.
  - eapply safe_bind; [by apply Hx |]. intros _ w1 _ HR1. by apply IH.
Qed.
End Safe.

(** ** The walk finds every file of the fetched tree *)

Lemma child_of_spec (d p : path) (name : string) :
  Fs.child_of d p = Some name <-> p = d ++ [name].
Proof.
  unfold Fs.child_of. split.
  - destruct (reverse p) as [| x rparent] eqn:Hrev; [done |].
    case_bool_decide as Hd; [| done]. intros [= ->].
    rewrite <- (reverse_involutive p), Hrev, reverse_cons. by rewrite Hd.
  - intros ->. rewrite reverse_snoc.
    by rewrite bool_decide_eq_true_2 by apply reverse_involutive.
Qed.

Lemma elem_of_listdir (fs : FS) (d : path) (name : string) (n : node) :
  (name, n) ∈ Fs.listdir fs d <-> fs !! (d ++ [name]) = Some n.
Proof.
  unfold Fs.listdir. rewrite list_elem_of_omap. split.
  - intros ([p n'] & Hin & Hc). apply elem_of_map_to_list in Hin.
    destruct (Fs.child_of d p) as [name' |] eqn:Hch; [| done].
    injection Hc as -> ->. apply child_of_spec in Hch as ->. done.
  - intros Hl. exists (d ++ [name], n). split.
    + by apply elem_of_map_to_list.
    + by rewrite (proj2 (child_of_spec d (d ++ [name]) name) eq_refl).
Qed.

(** A chain of nested entries is no longer than the file system is
    large, which is why the fuel of [os_walk] is enough. *)
Lemma chain_length_bound (rel top : path) (fs : FS) :
  (forall k, 0 < k <= length rel -> is_Some (fs !! (top ++ take k rel))) ->
  length rel <= size fs.
Proof.
  revert fs. induction rel as [| d rel IH] using rev_ind; intros fs Hchain.
  { simpl. lia. }
  rewrite length_app. simpl.
  assert (Hlast : is_Some (fs !! (top ++ rel ++ [d]))).
  { specialize (Hchain (length (rel ++ [d]))).
    rewrite firstn_all in Hchain. apply Hchain.
    rewrite length_app. simpl. lia. }
  destruct Hlast as [n Hlast].
  assert (Hsmall : length rel <= size (delete (top ++ rel ++ [d]) fs)).
  { apply IH. intros k Hk.
    rewrite lookup_delete_ne.
    - specialize (Hchain k). rewrite take_app_le in Hchain by lia.
      apply Hchain. rewrite length_app. simpl. lia.
    - intros Heq. apply (f_equal length) in Heq.
      rewrite !length_app, length_take in Heq. simpl in Heq. lia. }
  rewrite map_size_delete, Hlast in Hsmall.
  assert (size fs <> 0).
  { intros Hz. apply map_size_empty_iff in Hz. by rewrite Hz in Hlast. }
  lia.
Qed.

Lemma os_walk_from_covers (fuel : nat) (fs : FS) (top pre rel : path)
    (name content : string) :
  length rel < fuel ->
  (forall k, 0 < k <= length rel ->
     fs !! (top ++ pre ++ take k rel) = Some Dir) ->
  fs !! (top ++ pre ++ rel ++ [name]) = Some (File content) ->
  exists dirs files,
    (pre ++ rel, dirs, files) ∈ os_walk_from fuel fs top pre
    /\ (name, content) ∈ files.
Proof.
  revert pre rel. induction fuel as [| fuel IH]; intros pre rel Hfuel Hdirs Hfile;
    [lia |].
  simpl. destruct rel as [| d rel].
  - rewrite app_nil_r. do 2 eexists. split; [apply elem_of_cons; by left |].
    apply list_elem_of_omap. exists (name, File content). split; [| done].
    apply elem_of_listdir. by rewrite <- app_assoc.
  - destruct (IH (pre ++ [d]) rel) as (dirs & files & Hin & Hname).
    + simpl in Hfuel. lia.
    + intros k Hk. specialize (Hdirs (S k)). simpl in Hdirs.
      rewrite <- app_assoc. simpl. apply Hdirs. simpl. lia.
    + rewrite <- app_assoc. simpl. exact Hfile.
    + exists dirs, files. split; [| done].
      apply elem_of_cons. right.
      apply list_elem_of_In, in_flat_map. exists d. split.
      * apply list_elem_of_In, list_elem_of_omap. exists (d, Dir).
        split; [| done]. apply elem_of_listdir.
        specialize (Hdirs 1). simpl in Hdirs. rewrite take_0 in Hdirs.
        rewrite <- app_assoc. apply Hdirs. simpl. lia.
      * apply list_elem_of_In. by rewrite <- app_assoc in Hin.
Qed.

(** Every file below a directory [top], all of whose ancestors up to
    [top] are directories, is listed by the walk of [top]. *)
Lemma os_walk_covers (fs : FS) (top rel : path) (name content : string) :
  Fs.is_dir fs top = true ->
  (forall k, 0 < k <= length rel -> fs !! (top ++ take k rel) = Some Dir) ->
  fs !! (top ++ rel ++ [name]) = Some (File content) ->
  exists dirs files,
    (rel, dirs, files) ∈ os_walk fs top /\ (name, content) ∈ files.
Proof.
  intros Htop Hdirs Hfile. unfold os_walk. rewrite Htop.
  apply (os_walk_from_covers (S (size fs)) fs top [] rel name content);
    [| done | done].
  apply Nat.lt_succ_r, (chain_length_bound rel top fs).
  intros k Hk. rewrite Hdirs; [by eexists | done].
Qed.

(** ** C2 and C3: the overlay merge *)

(** C3: the merge is additive.  Every entry of the file system that
    exists before [_merge_directories] runs still exists afterwards, a
    file as a file and a directory as a directory; in particular nothing
    that is only in the target is deleted.  This holds for every outcome
    of the merge, also when a copy fails and the merge raises. *)
Theorem merge_is_additive (env : Env) (source_dir target_dir : path)
    (w : World) (q : path) (n : node) :
  w_fs w !! q = Some n ->
  exists n',
    w_fs (DeploymentAgent._merge_directories env source_dir target_dir w).2
      !! q = Some n'
    /\ same_kind n n'.
Proof.
  intros Hq.
  exact (_merge_directories_additive env source_dir target_dir w q n Hq).
Qed.

Lemma merge_is_additive_witness :
  exists n',
    w_fs (DeploymentAgent._merge_directories demo_env ["tmp"; "src"]
            ["app"; "frontend"] fetched_world).2
      !! ["app"; "frontend"; "notes.txt"] = Some n'
    /\ same_kind (File "local") n'.
Proof.
  apply (merge_is_additive demo_env ["tmp"; "src"] ["app"; "frontend"]
           fetched_world ["app"; "frontend"; "notes.txt"] (File "local")).
  vm_compute. reflexivity.
Defined.

(** C2: a file with a locally-owned name ([.env.local],
    [.env.local.example], [Dockerfile]) that exists before the merge has
    the same content after it, whatever the fetched tree holds at that
    path and whatever the outcome of the merge. *)
Theorem merge_keeps_local_files (env : Env) (source_dir target_dir : path)
    (w : World) (q : path) (c : string) :
  Fs.basename q ∈ DeploymentAgent.preserve_files ->
  w_fs w !! q = Some (File c) ->
  w_fs (DeploymentAgent._merge_directories env source_dir target_dir w).2
    !! q = Some (File c).
Proof.
  intros Hlocal Hq.
  exact (_merge_directories_local env q c Hlocal source_dir target_dir w Hq).
Qed.

Lemma merge_keeps_local_files_witness :
  w_fs (DeploymentAgent._merge_directories demo_env ["tmp"; "src"]
          ["app"; "frontend"] fetched_world).2
    !! ["app"; "frontend"; "Dockerfile"] = Some (File "FROM node").
Proof.
  apply (merge_keeps_local_files demo_env ["tmp"; "src"] ["app"; "frontend"]
           fetched_world ["app"; "frontend"; "Dockerfile"] "FROM node").
  - apply (bool_decide_unpack _). vm_compute. exact I.
  - vm_compute. reflexivity.
Defined.

(** The merge at work: the fetched [package.json] is added, the local
    [Dockerfile] and the local-only [notes.txt] are kept. *)
Example merge_of_fetched_tree :
  let w := (DeploymentAgent._merge_directories demo_env ["tmp"; "src"]
              ["app"; "frontend"] fetched_world).2 in
  w_fs w !! ["app"; "frontend"; "package.json"] = Some (File "{}")
  /\ w_fs w !! ["app"; "frontend"; "Dockerfile"] = Some (File "FROM node")
  /\ w_fs w !! ["app"; "frontend"; "notes.txt"] = Some (File "local")
  /\ os_walk fetched_fs ["tmp"; "src"]
     = [([], [], [("package.json", "{}"); ("Dockerfile", "FROM upstream")])].
Proof. vm_compute. repeat split; reflexivity. Qed.

(** ** C6: the gate in front of the build *)

(** Case analysis on the answer of the next subprocess, and on whether a
    return code is 0. *)
Ltac case_proc :=
  match goal with
  | |- context [env_proc ?e ?t ?c ?d ?f] =>
      let rc := fresh "rc" in
      let e' := fresh "e" in
      let fs' := fresh "fs" in
      destruct (env_proc e t c d f) as [[rc | e'] fs'] eqn:?; simpl
  end.

Ltac case_rc :=
  match goal with
  | |- context [(?rc =? 0)%Z] => destruct (rc =? 0)%Z eqn:?; simpl
  end.

Section BuildGate.
Import DeploymentAgent.

Lemma verify_repo_cloned_plain (dir : path) (w : World) :
  verify_repo_cloned dir [] w = (Ret (tree_ready (w_fs w) dir), w).
Proof.
  unfold verify_repo_cloned, gets, tree_ready. f_equal. f_equal.
  destruct (Fs.exists_ (w_fs w) dir); simpl; [| done].
  destruct (Fs.is_dir (w_fs w) dir); simpl; [| done].
  by destruct (Fs.nonempty_dir (w_fs w) dir).
Qed.

Lemma verify_repo_cloned_requirements (dir : path) (w : World) :
  verify_repo_cloned dir ["requirements.txt"] w
  = (Ret (tree_ready (w_fs w) dir
          && Fs.exists_ (w_fs w) (dir ++ ["requirements.txt"])), w).
Proof.
  unfold verify_repo_cloned, gets, tree_ready. f_equal. f_equal.
  destruct (Fs.exists_ (w_fs w) dir); simpl; [| done].
  destruct (Fs.is_dir (w_fs w) dir); simpl; [| done].
  destruct (Fs.nonempty_dir (w_fs w) dir); simpl; [| done].
  unfold Fs.join. simpl.
  by destruct (Fs.exists_ (w_fs w) (dir ++ ["requirements.txt"])).
Qed.

(** With the gate closed nothing at all is done. *)
Lemma build_docker_images_closed (env : Env) (self : t) (w : World) :
  build_gate self (w_fs w) = false ->
  build_docker_images env self w = (Ret false, w).
Proof.
  intros Hgate.
  unfold build_docker_images, mbind, M_bind, bind.
  unfold build_gate in Hgate.
  change (path_exists (base_dir self ++ ["docker-compose.yml"]) w)
    with (Ret (Fs.exists_ (w_fs w) (base_dir self ++ ["docker-compose.yml"])), w).
  destruct (Fs.exists_ (w_fs w) (base_dir self ++ ["docker-compose.yml"]));
    [| done].
  cbn [negb]. rewrite verify_repo_cloned_plain.
  destruct (tree_ready (w_fs w) (frontend_dir self)); [| done].
  cbn [negb]. rewrite verify_repo_cloned_requirements.
  cbn [andb] in Hgate. by rewrite Hgate.
Qed.

(** With the gate open the build starts: the first thing done is the
    probe for the compose command. *)
Lemma build_docker_images_open (env : Env) (self : t) (w : World) :
  build_gate self (w_fs w) = true ->
  exists new,
    w_log (build_docker_images env self w).2
    = new ++ EvRun ["docker"; "compose"; "version"] None :: w_log w.
Proof.
  intros Hgate.
  unfold build_docker_images, mbind, M_bind, bind.
  unfold build_gate in Hgate.
  apply andb_true_iff in Hgate as [Hgate Hbe].
  apply andb_true_iff in Hgate as [Hman Hfe].
  change (path_exists (base_dir self ++ ["docker-compose.yml"]) w)
    with (Ret (Fs.exists_ (w_fs w) (base_dir self ++ ["docker-compose.yml"])), w).
  rewrite Hman. cbn [negb].
  rewrite verify_repo_cloned_plain, Hfe. cbn [negb].
  rewrite verify_repo_cloned_requirements, Hbe. cbn [negb].
  unfold catch, is_running_in_docker, compose_dir, mbind, M_bind, bind,
    gets, subprocess_run, ret.
  case_proc; [case_rc | destruct e; simpl; try by exists []];
    (case_proc; [case_rc | destruct e; simpl]); by eexists [_].
Qed.
End BuildGate.

(** C6: [build_docker_images] is gated.  When the manifest is missing or a
    working tree fails the verification check (the directory exists, is a
    directory, is not empty, and for the backend holds
    [requirements.txt]), it returns [False] and leaves the world as it
    is: no command is run.  A command that it does run is therefore run
    with all three preconditions true. *)
Theorem build_is_gated (env : Env) (self : DeploymentAgent.t) (w : World) :
  (build_gate self (w_fs w) = false ->
   DeploymentAgent.build_docker_images env self w = (Ret false, w))
  /\ (forall cmd cwd,
        EvRun cmd cwd
          ∈ w_log (DeploymentAgent.build_docker_images env self w).2 ->
        EvRun cmd cwd ∉ w_log w ->
        build_gate self (w_fs w) = true).
Proof.
  split.
  - apply build_docker_images_closed.
  - intros cmd cwd Hin Hnot.
    destruct (build_gate self (w_fs w)) eqn:Hgate; [done |].
    rewrite build_docker_images_closed in Hin by done. done.
Qed.

Lemma build_is_gated_witness :
  DeploymentAgent.build_docker_images demo_env demo_agent
    (mkWorld (delete ["app"; "docker-compose.yml"] demo_fs) [])
  = (Ret false, mkWorld (delete ["app"; "docker-compose.yml"] demo_fs) [])
  /\ build_gate demo_agent demo_fs = true.
Proof.
  split.
  - apply (proj1 (build_is_gated demo_env demo_agent
                    (mkWorld (delete ["app"; "docker-compose.yml"] demo_fs) []))).
    vm_compute. reflexivity.
  - apply (proj2 (build_is_gated demo_env demo_agent demo_world)
             ["docker"; "compose"; "version"] None).
    + apply (bool_decide_unpack _). vm_compute. exact I.
    + apply (bool_decide_unpack _). vm_compute. exact I.
Defined.

(** ** Inversion of computations that return *)

Lemma bind_Ret_inv {A B} (m : M A) (k : A -> M B) (w w' : World) (b : B) :
  (m ≫= k) w = (Ret b, w') ->
  exists a w1, m w = (Ret a, w1) /\ k a w1 = (Ret b, w').
Proof.
  unfold mbind, M_bind, bind. destruct (m w) as [[a | e] w1]; [eauto | done].
Qed.

Lemma catch_Ret_inv {A} (m : M A) (h : exn -> option (M A)) (w w' : World)
    (a : A) :
  catch m h w = (Ret a, w') ->
  m w = (Ret a, w')
  \/ exists e w1 m',
       m w = (Raise e, w1) /\ h e = Some m' /\ m' w1 = (Ret a, w').
Proof.
  unfold catch. destruct (m w) as [[a' | e] w1]; [by left |].
  destruct (h e) as [m' |] eqn:He; [| done]. right. by exists e, w1, m'.
Qed.

(** Takes a hypothesis that a chain of binds returns apart, step by
    step. *)
Ltac bind_inv H :=
  let a := fresh "a" in
  let w := fresh "w" in
  let H1 := fresh "Hstep" in
  apply bind_Ret_inv in H as (a & w & H1 & H).

(** ** C4, C5 and C10: the revision tracker *)

Section Tracker.
Import DeployWatcher.

Lemma truthy_Some (v : option string) :
  Py.truthy v = true <-> exists s, v = Some s /\ s <> "".
Proof.
  destruct v as [s |]; simpl.
  - rewrite negb_true_iff, String.eqb_neq. split.
    + intros Hs. by exists s.
    + by intros (s' & [= <-] & Hs).
  - split; [done |]. by intros (s & Hs & _).
Qed.

(** The change predicate. *)
Lemma updated_spec (new_sha last_sha : option string) :
  updated new_sha last_sha = true
  <-> (exists s, new_sha = Some s /\ s <> "") /\ new_sha <> last_sha.
Proof.
  unfold updated.
  rewrite andb_true_iff, negb_true_iff, bool_decide_eq_false, truthy_Some.
  done.
Qed.

Lemma updated_after_commit (new_sha last_sha : option string) :
  updated new_sha (if Py.truthy new_sha then new_sha else last_sha) = false.
Proof.
  unfold updated. destruct (Py.truthy new_sha) eqn:Ht; [| done].
  simpl. by rewrite bool_decide_eq_true_2.
Qed.

Lemma get_latest_commit_sha_returns env owner repo branch w r w' :
  get_latest_commit_sha env owner repo branch w = (r, w') ->
  r = Raise KeyboardInterrupt \/ exists sha, r = Ret sha.
Proof.
  unfold get_latest_commit_sha, catch, mbind, M_bind, bind, requests_get.
  destruct (env_get env _ _) as [status body | e]; simpl.
  - destruct (status =? 200)%Z; [| intros [= <- <-]; eauto].
    destruct body; simpl; intros [= <- <-]; eauto.
  - destruct e; simpl; intros [= <- <-]; eauto.
Qed.

(** What [check_for_updates] returns: the flag is the change predicate
    on the two revisions it observed. *)
Lemma check_for_updates_flag env self w flag fe_sha be_sha w' :
  check_for_updates env self w = (Ret (flag, fe_sha, be_sha), w') ->
  flag = updated fe_sha (fe_last_sha self)
         || updated be_sha (be_last_sha self).
Proof.
  unfold check_for_updates. intros H.
  apply catch_Ret_inv in H as [H | (e & w1 & m' & _ & Hh & H)].
  - bind_inv H. destruct a as [fe_owner fe_repo].
    bind_inv H. destruct a as [be_owner be_repo].
    bind_inv H. bind_inv H.
    destruct (updated a (fe_last_sha self) || updated a0 (be_last_sha self))
      eqn:Hu; injection H as <- <- <- <-; by rewrite Hu.
  - unfold except_Exception in Hh. destruct (is_Exception e); [| done].
    injection Hh as <-. by injection H as <- <- <- <-.
Qed.

(** The outcomes of one pass through the body of the loop. *)
Lemma poll_and_deploy_cases env self w r w' :
  poll_and_deploy env self w = (r, w') ->
  r = Ret self
  \/ (exists e, r = Raise e)
  \/ exists w1 fe_sha be_sha,
       check_for_updates env self w = (Ret (true, fe_sha, be_sha), w1)
       /\ trigger_redeploy env self w1 = (Ret true, w')
       /\ r = Ret (update_last_shas fe_sha be_sha self).
Proof.
  unfold poll_and_deploy, mbind, M_bind, bind.
  destruct (check_for_updates env self w) as [[[[flag fe] be] | e] w1];
    [| intros [= <- <-]; eauto].
  destruct flag; [| intros [= <- <-]; eauto].
  destruct (trigger_redeploy env self w1) as [[[] | e] w2] eqn:Ht;
    intros [= <- <-]; eauto 10.
Qed.

Lemma update_last_shas_fe fe_sha be_sha self :
  fe_last_sha (update_last_shas fe_sha be_sha self)
  = if Py.truthy fe_sha then fe_sha else fe_last_sha self.
Proof. done. Qed.

Lemma update_last_shas_be fe_sha be_sha self :
  be_last_sha (update_last_shas fe_sha be_sha self)
  = if Py.truthy be_sha then be_sha else be_last_sha self.
Proof. done. Qed.

Lemma update_last_shas_stays_known fe_sha be_sha self :
  stays_known self (update_last_shas fe_sha be_sha self).
Proof.
  split; intros Hk; [rewrite update_last_shas_fe | rewrite update_last_shas_be].
  - destruct (Py.truthy fe_sha) eqn:Ht; [| done].
    apply truthy_Some in Ht as (s & -> & _). by eexists.
  - destruct (Py.truthy be_sha) eqn:Ht; [| done].
    apply truthy_Some in Ht as (s & -> & _). by eexists.
Qed.

Lemma main_loop_stays_known env iterations self w :
  stays_known self (main_loop env iterations self w).1.2.
Proof.
  revert self w. induction iterations as [| n IH]; intros self w; simpl.
  { by split. }
  destruct (poll_and_deploy env self w) as [r w1] eqn:Hp.
  assert (Hself :
    exists self1, stays_known self self1 /\
      self1 = match r with Ret self' => self' | Raise _ => self end).
  { apply poll_and_deploy_cases in Hp
      as [-> | [[e ->] | (w0 & fe & be & _ & _ & ->)]];
      eexists; (split; [| reflexivity]);
      [by split | by split | apply update_last_shas_stays_known]. }
  destruct Hself as (self1 & Hk & Heq). rewrite <- Heq. clear Heq.
  assert (Hnext :
    stays_known self
      (match time_sleep env (poll_interval self1) w1 with
       | (Ret _, w2) => main_loop env n self1 w2
       | (Raise e, w2) => (Uncaught e, self1, w2)
       end).1.2).
  { destruct (time_sleep env (poll_interval self1) w1) as [[[] | e] w2];
      simpl; [| done].
    specialize (IH self1 w2). destruct Hk, IH. split; auto. }
  destruct r as [self' | e]; [done |].
  destruct e; done.
Qed.
End Tracker.

(** C4: the change predicate.  A poll reports a change for a repository iff
    the revision it observed is not [None], not empty, and differs from
    the stored one (so a stored [None] differs from every concrete
    revision); the flag of [check_for_updates] is the disjunction of the
    two.  Right after the observed revisions are committed the predicate
    is false for both of them, and a following poll that returns the same
    two revisions reports no update, so that no deploy cycle starts; the
    same holds after a poll that reported no update. *)
Theorem change_predicate :
  (forall new_sha last_sha,
     DeployWatcher.updated new_sha last_sha = true
     <-> (exists s, new_sha = Some s /\ s <> "") /\ new_sha <> last_sha)
  /\ (forall s, s <> "" -> DeployWatcher.updated (Some s) None = true)
  /\ (forall fe_sha be_sha self,
        let self' := DeployWatcher.update_last_shas fe_sha be_sha self in
        DeployWatcher.updated fe_sha (DeployWatcher.fe_last_sha self') = false
        /\ DeployWatcher.updated be_sha (DeployWatcher.be_last_sha self')
           = false)
  /\ (forall env fe_sha be_sha self w flag w',
        DeployWatcher.check_for_updates env
          (DeployWatcher.update_last_shas fe_sha be_sha self) w
        = (Ret (flag, fe_sha, be_sha), w') ->
        flag = false
        /\ DeployWatcher.poll_and_deploy env
             (DeployWatcher.update_last_shas fe_sha be_sha self) w
           = (Ret (DeployWatcher.update_last_shas fe_sha be_sha self), w'))
  /\ (forall env fe_sha be_sha self w1 w1' w2 w2' flag,
        DeployWatcher.check_for_updates env self w1
        = (Ret (false, fe_sha, be_sha), w1') ->
        DeployWatcher.check_for_updates env self w2
        = (Ret (flag, fe_sha, be_sha), w2') ->
        flag = false).
Proof.
  split; [apply updated_spec |].
  split; [intros s Hs; apply updated_spec; naive_solver |].
  split; [| split].
  - intros fe_sha be_sha self. simpl. split; apply updated_after_commit.
  - intros env fe_sha be_sha self w flag w' Hc.
    pose proof (check_for_updates_flag _ _ _ _ _ _ _ Hc) as Hflag.
    rewrite update_last_shas_fe, update_last_shas_be in Hflag.
    rewrite !updated_after_commit in Hflag. simpl in Hflag. subst flag.
    split; [done |].
    unfold DeployWatcher.poll_and_deploy, mbind, M_bind, bind.
    by rewrite Hc.
  - intros env fe_sha be_sha self w1 w1' w2 w2' flag Hc1 Hc2.
    rewrite (check_for_updates_flag _ _ _ _ _ _ _ Hc2).
    by rewrite <- (check_for_updates_flag _ _ _ _ _ _ _ Hc1).
Qed.

Lemma change_predicate_witness :
  DeployWatcher.updated (Some "abc123") None = true
  /\ (DeployWatcher.poll_and_deploy demo_env
        (DeployWatcher.update_last_shas (Some "abc123") (Some "def456")
           demo_watcher) demo_world).1
     = Ret (DeployWatcher.update_last_shas (Some "abc123") (Some "def456")
              demo_watcher).
Proof.
  destruct change_predicate as (_ & Hunknown & _ & Hsame & _).
  split.
  - apply Hunknown. discriminate.
  - destruct (Hsame demo_env (Some "abc123") (Some "def456") demo_watcher
                demo_world false
                (DeployWatcher.check_for_updates demo_env
                   (DeployWatcher.update_last_shas (Some "abc123")
                      (Some "def456") demo_watcher) demo_world).2) as [_ Hp].
    + vm_compute. reflexivity.
    + rewrite Hp. reflexivity.
Defined.

(** A failed cycle is not committed, so the next poll with the same
    revisions reports the change again. *)
Lemma failed_cycle_is_retried env self w w1 w2 fe_sha be_sha :
  DeployWatcher.check_for_updates env self w
  = (Ret (true, fe_sha, be_sha), w1) ->
  DeployWatcher.trigger_redeploy env self w1 = (Ret false, w2) ->
  DeployWatcher.poll_and_deploy env self w = (Ret self, w2).
Proof.
  intros Hc Ht.
  unfold DeployWatcher.poll_and_deploy, mbind, M_bind, bind.
  by rewrite Hc, Ht.
Qed.

(** C5: when a poll reports an update and the redeploy succeeds, both
    stored revisions become the ones just observed, also the one that did
    not change; and a poll that observes a concrete revision for a
    repository whose stored revision is unknown reports an update. *)
Theorem both_revisions_advance (env : Env) (self : DeployWatcher.t)
    (w w1 w2 : World) (flag : bool) (fe_sha be_sha : string) :
  fe_sha <> "" -> be_sha <> "" ->
  DeployWatcher.check_for_updates env self w
  = (Ret (flag, Some fe_sha, Some be_sha), w1) ->
  (DeployWatcher.fe_last_sha self = None -> flag = true)
  /\ (flag = true ->
      DeployWatcher.trigger_redeploy env self w1 = (Ret true, w2) ->
      DeployWatcher.poll_and_deploy env self w
      = (Ret (DeployWatcher.set_last_shas (Some fe_sha) (Some be_sha) self),
         w2)).
Proof.
  intros Hfe Hbe Hc. split.
  - intros Hnone.
    rewrite (check_for_updates_flag _ _ _ _ _ _ _ Hc), Hnone.
    apply orb_true_iff. left. apply updated_spec. naive_solver.
  - intros -> Ht.
    unfold DeployWatcher.poll_and_deploy, mbind, M_bind, bind.
    rewrite Hc, Ht. unfold DeployWatcher.update_last_shas. simpl.
    apply String.eqb_neq in Hfe, Hbe. by rewrite Hfe, Hbe.
Qed.

Lemma both_revisions_advance_witness :
  last_shas demo_watcher = (None, Some "def456")
  /\ last_shas
       match (DeployWatcher.poll_and_deploy demo_env demo_watcher demo_world).1
       with
       | Ret self' => self'
       | Raise _ => demo_watcher
       end
     = (Some "abc123", Some "def456").
Proof.
  split; [reflexivity |].
  destruct (both_revisions_advance demo_env demo_watcher demo_world
              (DeployWatcher.check_for_updates demo_env demo_watcher
                 demo_world).2
              (DeployWatcher.trigger_redeploy demo_env demo_watcher
                 (DeployWatcher.check_for_updates demo_env demo_watcher
                    demo_world).2).2
              true "abc123" "def456") as [_ Hrun].
  - discriminate.
  - discriminate.
  - vm_compute. reflexivity.
  - rewrite Hrun.
    + reflexivity.
    + reflexivity.
    + vm_compute. reflexivity.
Defined.

(** C10: a stored revision that is known never becomes unknown again.
    Through any number of passes of the main loop, whatever happens in
    them, [fe_last_sha] and [be_last_sha] stay different from [None] once
    they are; and the commit after a successful redeploy leaves the stored
    revision of a repository whose poll returned nothing as it was. *)
Theorem revision_never_reverts (env : Env) (iterations : nat)
    (self : DeployWatcher.t) (w : World) :
  let self' := (DeployWatcher.main_loop env iterations self w).1.2 in
  (is_Some (DeployWatcher.fe_last_sha self) ->
   is_Some (DeployWatcher.fe_last_sha self'))
  /\ (is_Some (DeployWatcher.be_last_sha self) ->
      is_Some (DeployWatcher.be_last_sha self'))
  /\ (forall be_sha,
        DeployWatcher.fe_last_sha
          (DeployWatcher.update_last_shas None be_sha self)
        = DeployWatcher.fe_last_sha self)
  /\ (forall fe_sha,
        DeployWatcher.be_last_sha
          (DeployWatcher.update_last_shas fe_sha None self)
        = DeployWatcher.be_last_sha self).
Proof.
  simpl. destruct (main_loop_stays_known env iterations self w) as [Hfe Hbe].
  repeat split; try done.
Qed.

Lemma revision_never_reverts_witness :
  is_Some (DeployWatcher.be_last_sha
             (DeployWatcher.main_loop demo_env 3 demo_watcher demo_world).1.2).
Proof.
  apply (revision_never_reverts demo_env 3 demo_watcher demo_world).
  vm_compute. eexists. reflexivity.
Defined.

(** ** C1: revisions are committed only after a successful cycle *)

Section Cycle.
Import DeployWatcher.

(** [run] returns [True] only through all six stages. *)
Lemma run_true_inv env agent fe_url be_url w w' :
  DeploymentAgent.run env agent fe_url be_url w = (Ret true, w') ->
  stages_succeed env agent fe_url be_url w w'.
Proof.
  unfold DeploymentAgent.run. intros H.
  bind_inv H. destruct a; [| done]. cbn [negb] in H.
  bind_inv H. destruct a; [| done]. cbn [negb] in H.
  bind_inv H. destruct a; [| done]. cbn [negb] in H.
  bind_inv H. destruct a; [| done]. cbn [negb] in H.
  bind_inv H. destruct a; [| done]. cbn [negb] in H.
  bind_inv H. destruct a; [| done]. cbn [negb] in H.
  injection H as <-.
  unfold stages_succeed. eauto 12.
Qed.

(** The first stage that does not return [True] ends [run], in the world
    it left. *)
Lemma run_stops_at_frontend_fetch env agent fe_url be_url w r w' :
  DeploymentAgent.clone_repository env agent fe_url
    (DeploymentAgent.frontend_dir agent) "Frontend" w = (r, w') ->
  r <> Ret true ->
  exists r', DeploymentAgent.run env agent fe_url be_url w = (r', w')
             /\ r' <> Ret true.
Proof.
  intros Hc Hr. unfold DeploymentAgent.run, mbind, M_bind, bind.
  rewrite Hc. destruct r as [[] | e]; [done | |]; by eexists.
Qed.

Lemma run_stops_at_backend_fetch env agent fe_url be_url w w1 r w' :
  DeploymentAgent.clone_repository env agent fe_url
    (DeploymentAgent.frontend_dir agent) "Frontend" w = (Ret true, w1) ->
  DeploymentAgent.clone_repository env agent be_url
    (DeploymentAgent.backend_dir agent) "Backend" w1 = (r, w') ->
  r <> Ret true ->
  exists r', DeploymentAgent.run env agent fe_url be_url w = (r', w')
             /\ r' <> Ret true.
Proof.
  intros Hfe Hc Hr. unfold DeploymentAgent.run, mbind, M_bind, bind.
  rewrite Hfe. cbn [negb]. rewrite Hc.
  destruct r as [[] | e]; [done | |]; by eexists.
Qed.

Lemma run_deploy_agent_zero env self w w' :
  run_deploy_agent env self w = (Ret 0%Z, w') ->
  exists agent w_init,
    DeploymentAgent.__init__ env (agent_start env self w) = (Ret agent, w_init)
    /\ DeploymentAgent.run env agent (fe_repo_url self) (be_repo_url self)
         w_init = (Ret true, w').
Proof.
  unfold run_deploy_agent, DeploymentAgent.main.
  destruct (env_agent_fault env _ _) as [[e wf] |]; [done |].
  match goal with
  | |- context [(?m ≫= ?k) ?w0] =>
      destruct ((m ≫= k) w0) as [[[] | e] w2] eqn:Hrun
  end; intros [= <-]; try done.
  bind_inv Hrun. eauto.
Qed.

(** [trigger_redeploy] returns [True] only when the whole pipeline
    succeeded. *)
Lemma trigger_redeploy_true env self w w' :
  trigger_redeploy env self w = (Ret true, w') ->
  pipeline_succeeds env self w w'.
Proof.
  unfold trigger_redeploy. intros H.
  apply catch_Ret_inv in H as [H | (e & w1 & m' & _ & Hh & H)].
  - bind_inv H. destruct (a =? 0)%Z eqn:Hrc; [| done].
    apply Z.eqb_eq in Hrc as ->.
    bind_inv H. destruct a as [rc |]; [| done].
    injection H as Hrc <-. apply Z.eqb_eq in Hrc as ->.
    destruct (run_deploy_agent_zero _ _ _ _ Hstep)
      as (agent & w_init & Hinit & Hrun).
    exists agent, w_init, w0.
    repeat split; try done. by apply run_true_inv.
  - unfold except_Exception in Hh. destruct (is_Exception e); [| done].
    by injection Hh as <-.
Qed.
End Cycle.

(** C1: the stored revisions change only at the end of a cycle whose
    whole pipeline succeeded.  After one pass of the main loop the two
    stored revisions either are what they were, or the poll reported an
    update, the agent ran to the end with each of its stages (the two
    fetches, the two preparations, the build, the deploy) returning
    [True], the rebuild of the watcher returned 0, and the new state is
    the one commit of the revisions observed by the poll.  So when any
    stage fails both stored revisions are what they were before. *)
Theorem revisions_committed_only_on_success (env : Env)
    (self : DeployWatcher.t) (w : World) :
  let self' := (DeployWatcher.main_loop env 1 self w).1.2 in
  (last_shas self' <> last_shas self ->
   exists w_poll fe_sha be_sha w_done,
     DeployWatcher.check_for_updates env self w
     = (Ret (true, fe_sha, be_sha), w_poll)
     /\ pipeline_succeeds env self w_poll w_done
     /\ self' = DeployWatcher.update_last_shas fe_sha be_sha self)
  /\ ((forall w_done,
         ~ pipeline_succeeds env self
             (DeployWatcher.check_for_updates env self w).2 w_done) ->
      last_shas self' = last_shas self).
Proof.
  assert (Hmain :
    let self' := (DeployWatcher.main_loop env 1 self w).1.2 in
    self' = self
    \/ exists w_poll fe_sha be_sha w_done,
         DeployWatcher.check_for_updates env self w
         = (Ret (true, fe_sha, be_sha), w_poll)
         /\ pipeline_succeeds env self w_poll w_done
         /\ self' = DeployWatcher.update_last_shas fe_sha be_sha self).
  { simpl.
    destruct (DeployWatcher.poll_and_deploy env self w) as [r w1] eqn:Hp.
    apply poll_and_deploy_cases in Hp
      as [-> | [[e ->] | (w0 & fe & be & Hc & Ht & ->)]].
    - left. by destruct (time_sleep env _ w1) as [[[] | e] w2].
    - left. destruct e;
        try by destruct (time_sleep env _ w1) as [[[] | e'] w2].
      done.
    - right. exists w0, fe, be, w1.
      split; [done |]. split; [by apply trigger_redeploy_true |].
      by destruct (time_sleep env _ w1) as [[[] | e] w2]. }
  simpl in *. split.
  - intros Hne. destruct Hmain as [Heq | Hmain]; [| done].
    by rewrite Heq in Hne.
  - intros Hfail. destruct Hmain as [-> | Hmain]; [done |].
    destruct Hmain as (w_poll & fe & be & w_done & Hc & Hs & _).
    rewrite Hc in Hfail. by destruct (Hfail w_done).
Qed.

Lemma revisions_committed_only_on_success_witness :
  (exists w_poll fe_sha be_sha w_done,
     DeployWatcher.check_for_updates demo_env demo_watcher demo_world
     = (Ret (true, fe_sha, be_sha), w_poll)
     /\ pipeline_succeeds demo_env demo_watcher w_poll w_done
     /\ (DeployWatcher.main_loop demo_env 1 demo_watcher demo_world).1.2
        = DeployWatcher.update_last_shas fe_sha be_sha demo_watcher)
  /\ last_shas
       (DeployWatcher.main_loop demo_env 1 demo_watcher
          (mkWorld (delete ["app"; "docker-compose.yml"] demo_fs) [])).1.2
     = last_shas demo_watcher.
Proof.
  split.
  - apply (proj1 (revisions_committed_only_on_success demo_env demo_watcher
                    demo_world)).
    vm_compute. discriminate.
  - apply (proj2 (revisions_committed_only_on_success demo_env demo_watcher
                    (mkWorld (delete ["app"; "docker-compose.yml"] demo_fs) []))).
    intros w_done (agent & w_init & w_agent & Hrc & _).
    vm_compute in Hrc. discriminate Hrc.
Defined.

(** ** Events *)

Lemma events_only_refl P w : events_only P w w.
Proof. by exists []. Qed.

Lemma events_only_trans P w1 w2 w3 :
  events_only P w1 w2 -> events_only P w2 w3 -> events_only P w1 w3.
Proof.
  intros (new1 & H1 & HP1) (new2 & H2 & HP2).
  exists (new2 ++ new1). split.
  - by rewrite H2, H1, app_assoc.
  - by apply Forall_app.
Qed.

Lemma events_only_weaken (P P' : event -> Prop) w w' :
  (forall ev, P ev -> P' ev) -> events_only P w w' -> events_only P' w w'.
Proof.
  intros HP (new & H & HF). exists new. split; [done |].
  eapply Forall_impl; eauto.
Qed.

Lemma events_only_length P w w' :
  events_only P w w' -> length (w_log w) <= length (w_log w').
Proof. intros (new & -> & _). rewrite length_app. lia. Qed.

Lemma events_only_same_log P w w' : w_log w' = w_log w -> events_only P w w'.
Proof. intros H. by exists []. Qed.

Lemma events_only_one (P : event -> Prop) ev w w' :
  P ev -> w_log w' = ev :: w_log w -> events_only P w w'.
Proof.
  intros HP H. exists [ev]. split; [done |]. by apply Forall_singleton.
Qed.

Lemma subprocess_run_events (P : event -> Prop) env cmd cwd check :
  P (EvRun cmd cwd) ->
  respects (events_only P) (subprocess_run env cmd cwd check).
Proof.
  intros HP w. unfold subprocess_run.
  destruct (env_proc env _ cmd cwd _) as [[rc | e] fs'].
  - destruct (check && negb (rc =? 0)%Z);
      by apply (events_only_one P (EvRun cmd cwd)).
  - by apply (events_only_one P (EvRun cmd cwd)).
Qed.

Lemma time_sleep_events (P : event -> Prop) env seconds :
  P (EvSleep seconds) -> respects (events_only P) (time_sleep env seconds).
Proof.
  intros HP w. unfold time_sleep.
  destruct (seconds <? 0)%Z; [apply events_only_refl |].
  unfold mbind, M_bind, bind, clock, gets, log_event, modify. simpl.
  destruct (env_sleep env _); by apply (events_only_one P (EvSleep seconds)).
Qed.

Lemma respects_for_each_in (R : World -> World -> Prop) {A} (l : list A)
    (body : A -> M unit) :
  (forall w, R w w) -> (forall w1 w2 w3, R w1 w2 -> R w2 w3 -> R w1 w3) ->
  Forall (fun x => respects R (body x)) l -> respects R (for_each l body).
Proof.
  intros Hrefl Htrans. induction 1 as [| x l Hx _ IH]; simpl.
  - by apply respects_ret.
  - apply respects_bind; auto.
Qed.


(** ** C7: what a redeploy starts and stops *)

(** Membership of a closed element in a closed list, by evaluation. *)
Ltac closed_elem := simpl; apply (bool_decide_unpack _); vm_compute; exact I.

Section Redeploy.
Import DeployWatcher.

Local Abbreviation R := (events_only deploy_event).

Lemma deploy_events_trans w1 w2 w3 : R w1 w2 -> R w2 w3 -> R w1 w3.
Proof. apply events_only_trans. Qed.

Lemma run_ok env cmd cwd check w0 w :
  deploy_event (EvRun cmd cwd) -> R w0 w ->
  safe R (fun _ => True) (subprocess_run env cmd cwd check) w0 w.
Proof.
  intros Hev HR. apply safe_respects; [apply deploy_events_trans | | done].
  by apply subprocess_run_events.
Qed.

Lemma compose_dir_world agent w :
  (DeploymentAgent.compose_dir agent w).2 = w.
Proof. done. Qed.

(** The deploy of the agent runs nothing but the probe, the stop and
    removal of the two managed containers, the bring-up with
    [--no-deps], and the cleanup of images. *)
Lemma deploy_runs_only_its_commands env agent w :
  R w (DeploymentAgent.deploy env agent w).2.
Proof.
  cut (safe R (fun _ => True) (DeploymentAgent.deploy env agent) w w);
    [by intros [? _] |].
  unfold DeploymentAgent.deploy.
  apply safe_catch.
  2:{ intros e m' w1 He HR. destruct e; try done. injection He as <-.
      by apply safe_ret. }
  apply (safe_bind R
           (fun bf => bf = (["docker"; "compose"], "-p")
                      \/ bf = (["docker-compose"], "--project-name"))).
  { apply safe_catch.
    - apply (safe_bind R (fun _ => True)).
      + apply run_ok; [closed_elem | apply events_only_refl].
      + intros _ w1 _ HR. apply safe_ret; auto.
    - intros e m' w1 He HR.
      destruct e; try done; injection He as <-; apply safe_ret; auto. }
  intros [compose_cmd_base project_flag] w1 Hbf HR1.
  apply (safe_bind R (fun _ => True)).
  { split; [by rewrite compose_dir_world | done]. }
  intros dir w2 _ HR2.
  apply (safe_bind R (fun _ => True)).
  { apply safe_for_each; [| done].
    unfold DeploymentAgent.containers_to_remove.
    repeat apply Forall_cons_2; [| | apply Forall_nil_2].
    all: intros w3 HR3; apply (safe_bind R (fun _ => True));
      [apply run_ok; [closed_elem | done] |].
    all: intros _ w4 _ HR4; apply (safe_bind R (fun _ => True));
      [apply run_ok; [closed_elem | done] |].
    all: intros _ w5 _ HR5; by apply safe_ret. }
  intros _ w3 _ HR3.
  apply (safe_bind R (fun _ => True)).
  { apply safe_respects; [apply deploy_events_trans | | done].
    by apply time_sleep_events. }
  intros _ w4 _ HR4.
  apply (safe_bind R (fun _ => True)).
  { apply run_ok; [| done].
    destruct Hbf as [[= -> ->] | [= -> ->]]; closed_elem. }
  intros _ w5 _ HR5.
  apply (safe_bind R (fun _ => True)).
  { apply safe_for_each; [| done].
    unfold DeploymentAgent.old_images.
    repeat apply Forall_cons_2; [| | apply Forall_nil_2].
    all: intros w6 HR6; apply safe_catch;
      [| intros e m' w7 He HR7; unfold except_Exception in He;
         destruct (is_Exception e); [| done]; injection He as <-;
         by apply safe_ret].
    all: apply (safe_bind R (fun _ => True));
      [apply run_ok; [closed_elem | done] |].
    all: intros _ w7 _ HR7; apply (safe_bind R (fun _ => True));
      [apply run_ok; [closed_elem | done] |].
    all: intros _ w8 _ HR8; by apply safe_ret. }
  intros _ w6 _ HR6. by apply safe_ret.
Qed.

(** The bring-up of the agent carries [--no-deps]. *)
Lemma up_cmd_has_no_deps compose_cmd_base project_flag :
  "--no-deps" ∈ DeploymentAgent.up_cmd compose_cmd_base project_flag.
Proof. unfold DeploymentAgent.up_cmd. set_solver. Qed.

(** A rebuild of the watcher that returned a code ran its bring-up
    command last, for one of the two compose commands. *)
Lemma rebuild_with_ran env self commands w rc w' :
  rebuild_with env self commands w = (Ret (Some rc), w') ->
  exists cmd_base project_flag dir,
    (cmd_base, project_flag) ∈ commands
    /\ exists rest,
         w_log w'
         = EvRun (rebuild_cmd cmd_base project_flag) (Some dir) :: rest.
Proof.
  revert w. induction commands as [| [cmd_base project_flag] commands IH];
    intros w H; simpl in H; [done |].
  bind_inv H. destruct a as [rc' |].
  - injection H as <- <-.
    exists cmd_base, project_flag.
    apply catch_Ret_inv in Hstep as [Hstep | (e & w1 & m' & _ & Hh & Hstep)].
    + bind_inv Hstep. destruct (a =? 0)%Z; [| done].
      bind_inv Hstep. bind_inv Hstep. injection Hstep as <- <-.
      unfold subprocess_run in Hstep2.
      match type of Hstep2 with
      | context [env_proc ?e ?t ?c ?d ?f] =>
          destruct (env_proc e t c d f) as [[rc2 | e2] fs2]
      end; simpl in Hstep2; [| done].
      injection Hstep2 as <- <-. eexists. split; [apply elem_of_cons; by left |].
      by eexists.
    + destruct e; try done; by injection Hh as <-.
  - destruct (IH _ H) as (b & f & dir & Hin & Hlog).
    exists b, f, dir. split; [apply elem_of_cons; by right | done].
Qed.
End Redeploy.

(** C7, at the input where the code departs from it: every redeploy of
    the watcher that succeeds has, as its last action, run a bring-up
    command [... up -d --build --force-recreate frontend backend] for one
    of the two compose commands, and that command does not carry
    [--no-deps], the flag that keeps the orchestrator from recreating the
    services the two depend on.  (The bring-up inside the agent's
    [deploy] does carry it, see [up_cmd_has_no_deps], and that deploy
    stops and removes only [jalin-frontend] and [jalin-backend], see
    [deploy_runs_only_its_commands].) *)
Theorem watcher_bring_up_lacks_no_deps (env : Env) (self : DeployWatcher.t)
    (w w' : World) :
  DeployWatcher.trigger_redeploy env self w = (Ret true, w') ->
  exists cmd dir rest,
    w_log w' = EvRun cmd (Some dir) :: rest
    /\ "up" ∈ cmd /\ "--force-recreate" ∈ cmd /\ "--no-deps" ∉ cmd.
Proof.
  intros H. apply trigger_redeploy_true in H
    as (agent & w_init & w_agent & _ & _ & _ & H).
  apply rebuild_with_ran in H as (b & f & dir & Hin & rest & Hlog).
  exists (DeployWatcher.rebuild_cmd b f), dir, rest. split; [done |].
  unfold DeployWatcher.compose_commands in Hin.
  apply elem_of_cons in Hin as [[= -> ->] | Hin];
    [| apply list_elem_of_singleton in Hin as [= -> ->]].
  all: repeat split; apply (bool_decide_unpack _); vm_compute; exact I.
Qed.

Lemma watcher_bring_up_lacks_no_deps_witness :
  exists cmd dir rest,
    w_log (DeployWatcher.trigger_redeploy demo_env demo_watcher demo_world).2
    = EvRun cmd (Some dir) :: rest
    /\ "up" ∈ cmd /\ "--force-recreate" ∈ cmd /\ "--no-deps" ∉ cmd.
Proof.
  apply (watcher_bring_up_lacks_no_deps demo_env demo_watcher demo_world).
  vm_compute. reflexivity.
Defined.

(** ** C8: exceptions and interrupts in the main loop *)

Section Loop.
Import DeployWatcher.

Lemma poll_and_deploy_interval env self w self' w' :
  poll_and_deploy env self w = (Ret self', w') ->
  poll_interval self' = poll_interval self.
Proof.
  intros H. apply poll_and_deploy_cases in H
    as [[= ->] | [[e [=]] | (w1 & fe & be & _ & _ & [= ->])]]; done.
Qed.

(** An exception in the body of the loop does not end it: as long as no
    interrupt arrives and the interval is not negative, the loop is
    still running after any number of passes. *)
Lemma loop_survives_exceptions env iterations self w :
  (forall self w,
     (poll_and_deploy env self w).1 <> Raise KeyboardInterrupt) ->
  (forall t, env_sleep env t = None) ->
  (0 <= poll_interval self)%Z ->
  (main_loop env iterations self w).1.1 = Looping.
Proof.
  intros Hbody Hsleep. revert self w.
  induction iterations as [| n IH]; intros self w Hint; simpl; [done |].
  specialize (Hbody self w).
  destruct (poll_and_deploy env self w) as [r w1] eqn:Hp. simpl in Hbody.
  set (self1 := match r with Ret self' => self' | Raise _ => self end).
  assert (Hint1 : (0 <= poll_interval self1)%Z).
  { subst self1. destruct r as [self' | e]; [| done].
    by rewrite (poll_and_deploy_interval _ _ _ _ _ Hp). }
  assert (Hnext :
    (match time_sleep env (poll_interval self1) w1 with
     | (Ret _, w2) => main_loop env n self1 w2
     | (Raise e, w2) => (Uncaught e, self1, w2)
     end).1.1 = Looping).
  { unfold time_sleep.
    destruct (poll_interval self1 <? 0)%Z eqn:Hneg; [lia |].
    unfold mbind, M_bind, bind, clock, gets, log_event, modify. simpl.
    rewrite Hsleep. by apply IH. }
  destruct r as [self' | e]; [done |]. by destruct e.
Qed.

(** An interrupt that arrives inside the [try] ends [run] by [break]. *)
Lemma interrupt_in_body_breaks env iterations self w w1 :
  poll_and_deploy env self w = (Raise KeyboardInterrupt, w1) ->
  main_loop env (S iterations) self w = (Returned, self, w1).
Proof. intros H. simpl. by rewrite H. Qed.

(** An interrupt that arrives in [time.sleep] leaves [run]. *)
Lemma interrupt_in_sleep_leaves_run env iterations self w :
  let r := (poll_and_deploy env self w).1 in
  let w1 := (poll_and_deploy env self w).2 in
  let self1 := match r with Ret self' => self' | Raise _ => self end in
  r <> Raise KeyboardInterrupt ->
  (time_sleep env (poll_interval self1) w1).1 = Raise KeyboardInterrupt ->
  (main_loop env (S iterations) self w).1.1 = Uncaught KeyboardInterrupt.
Proof.
  simpl. destruct (poll_and_deploy env self w) as [r w1]. simpl.
  intros Hr Hs.
  destruct r as [self' | e].
  - destruct (time_sleep env (poll_interval self') w1) as [[[] | e] w2];
      simpl in *; [done | by injection Hs as ->].
  - destruct e; try done;
      destruct (time_sleep env (poll_interval self) w1) as [[[] | e'] w2];
      simpl in *; try done; by injection Hs as ->.
Qed.
(** A negative polling interval makes the first [time.sleep] raise
    [ValueError], outside of the [try] as well. *)
Lemma negative_interval_leaves_run env iterations self w :
  (forall self' w', poll_and_deploy env self w = (Ret self', w') ->
                    (poll_interval self' < 0)%Z) ->
  (poll_interval self < 0)%Z ->
  (poll_and_deploy env self w).1 <> Raise KeyboardInterrupt ->
  (main_loop env (S iterations) self w).1.1 = Uncaught ValueError.
Proof.
  intros Hret Hneg Hbody. simpl.
  destruct (poll_and_deploy env self w) as [[self' | e] w1] eqn:Hp.
  - specialize (Hret self' w1 eq_refl). unfold time_sleep.
    apply Z.ltb_lt in Hret. by rewrite Hret.
  - unfold time_sleep. apply Z.ltb_lt in Hneg. rewrite Hneg.
    by destruct e.
Qed.
End Loop.

(** With GitHub out of reach every poll fails, and the watcher is still
    looping after five passes; so it is in the demo world, where the
    first pass redeploys. *)
Example loop_survives_failing_polls :
  (DeployWatcher.main offline_env 5 demo_world).1 = DeployWatcher.Running
  /\ (DeployWatcher.main_loop demo_env 5 demo_watcher demo_world).1.1
     = DeployWatcher.Looping.
Proof. split; vm_compute; reflexivity. Qed.

(** C8, at the input where the code departs from it: [time.sleep] is
    called after the [try] statement of the loop, so a
    [KeyboardInterrupt] raised while the watcher sleeps is caught by
    nothing.  When the first pass of the loop ends without an interrupt
    and the sleep that follows is interrupted, the process does not exit
    with status 0: the interrupt leaves [run] and [main] and the
    interpreter ends with a traceback.  (Exceptions inside the [try] do
    leave the loop running, see [loop_survives_exceptions], and an
    interrupt inside the [try] ends the process with status 0, see
    [interrupt_in_body_breaks].) *)
Theorem interrupt_in_sleep_is_not_clean (env : Env) (iterations : nat)
    (w w0 w1 : World) (watcher self : DeployWatcher.t) :
  DeployWatcher.__init__ env w = (Ret watcher, w0) ->
  DeployWatcher.initial_shas env watcher w0 = (Ret self, w1) ->
  (DeployWatcher.poll_and_deploy env self w1).1 <> Raise KeyboardInterrupt ->
  (time_sleep env
     (DeployWatcher.poll_interval
        match (DeployWatcher.poll_and_deploy env self w1).1 with
        | Ret self' => self'
        | Raise _ => self
        end)
     (DeployWatcher.poll_and_deploy env self w1).2).1
  = Raise KeyboardInterrupt ->
  (DeployWatcher.main env (S iterations) w).1
  = DeployWatcher.Traceback KeyboardInterrupt
  /\ (DeployWatcher.main env (S iterations) w).1 <> DeployWatcher.ExitCode 0.
Proof.
  intros Hinit Hshas Hbody Hsleep.
  pose proof (interrupt_in_sleep_leaves_run env iterations self w1 Hbody Hsleep)
    as Hloop.
  assert (Hmain : (DeployWatcher.main env (S iterations) w).1
                  = DeployWatcher.Traceback KeyboardInterrupt).
  { unfold DeployWatcher.main, DeployWatcher.run.
    rewrite Hinit, Hshas.
    destruct (DeployWatcher.main_loop env (S iterations) self w1)
      as [[st self2] w2].
    simpl in Hloop. by subst st. }
  split; [done |]. by rewrite Hmain.
Qed.

Lemma interrupt_in_sleep_is_not_clean_witness :
  (DeployWatcher.main interrupted_env 1 demo_world).1
  = DeployWatcher.Traceback KeyboardInterrupt
  /\ (DeployWatcher.main interrupted_env 1 demo_world).1
     <> DeployWatcher.ExitCode 0.
Proof.
  apply (interrupt_in_sleep_is_not_clean interrupted_env 0 demo_world
           (DeployWatcher.__init__ interrupted_env demo_world).2
           (DeployWatcher.initial_shas interrupted_env
              match (DeployWatcher.__init__ interrupted_env demo_world).1 with
              | Ret watcher => watcher
              | Raise _ => demo_watcher
              end
              (DeployWatcher.__init__ interrupted_env demo_world).2).2
           match (DeployWatcher.__init__ interrupted_env demo_world).1 with
           | Ret watcher => watcher
           | Raise _ => demo_watcher
           end
           (DeployWatcher.set_last_shas (Some "abc123") (Some "def456")
              demo_watcher)).
  - vm_compute. reflexivity.
  - vm_compute. reflexivity.
  - vm_compute. discriminate.
  - vm_compute. reflexivity.
Defined.

(** ** C9: the fetch of an empty archive *)

Section Fetch.
Import DeploymentAgent.

Local Abbreviation R := (events_only is_get).

Lemma get_events_trans w1 w2 w3 : R w1 w2 -> R w2 w3 -> R w1 w3.
Proof. apply events_only_trans. Qed.

(** A step that leaves the log as it is. *)
Lemma safe_quiet {A} (m : M A) w0 w :
  w_log (m w).2 = w_log w -> R w0 w -> safe R (fun _ => True) m w0 w.
Proof.
  intros Hlog HR. split; [| done].
  eapply get_events_trans; [exact HR |]. by apply events_only_same_log.
Qed.

Lemma mkdir_parents_log p w : w_log (Fs.mkdir_parents p w).2 = w_log w.
Proof. unfold Fs.mkdir_parents. by destruct (Fs.mkdir_from [] p (w_fs w)). Qed.

Lemma write_file_log p c w : w_log (Fs.write_file p c w).2 = w_log w.
Proof.
  unfold Fs.write_file. destruct (Fs.is_dir (w_fs w) p); [done |].
  by destruct (negb (Fs.is_dir (w_fs w) (Fs.parent p))).
Qed.

Lemma extract_repo_info_world url w : (extract_repo_info url w).2 = w.
Proof.
  unfold extract_repo_info.
  destruct (Py.contains _ _); [| done].
  by destruct (Py.split _ _) as [| owner [| repo parts]].
Qed.

Lemma raise_for_status_world status w : (raise_for_status status w).2 = w.
Proof. unfold raise_for_status. by destruct (_ && _). Qed.

Lemma json_get_world body key w : (json_get body key w).2 = w.
Proof. by destruct body. Qed.

Lemma requests_get_events env url w0 w :
  R w0 w -> safe R (fun _ => True) (requests_get env url) w0 w.
Proof.
  intros HR. split; [| done]. eapply get_events_trans; [exact HR |].
  unfold requests_get.
  destruct (env_get env _ url); by apply (events_only_one is_get (EvGet url)).
Qed.

(** From the time on at which only empty archives are served, a
    response holds no archive with members. *)
Lemma requests_get_empty env url w0 w :
  serves_empty_archives env (length (w_log w0)) ->
  R w0 w ->
  safe R (fun sb => forall members, sb.2 = BodyZip members -> members = [])
    (requests_get env url) w0 w.
Proof.
  intros Hempty HR. split; [by apply requests_get_events |].
  unfold requests_get. intros [status body].
  destruct (env_get env _ url) as [status' body' | e] eqn:Hget; [| done].
  intros [= <- <-] members Hzip. simpl in Hzip. subst body'.
  eapply Hempty; [| exact Hget]. by eapply events_only_length.
Qed.

(** An archive without members is refused before anything is placed. *)
Lemma extract_and_place_empty env extract_temp target_dir w :
  extract_and_place env (BodyZip []) extract_temp target_dir w
  = (Raise ValueError, w).
Proof. done. Qed.

Lemma extract_and_place_never_returns env body extract_temp target_dir w0 w :
  (forall members, body = BodyZip members -> members = []) ->
  R w0 w ->
  safe R (fun _ => False)
    (extract_and_place env body extract_temp target_dir) w0 w.
Proof.
  intros Hbody HR. destruct body as [fields | members |].
  - by split.
  - rewrite (Hbody members eq_refl). unfold safe.
    rewrite extract_and_place_empty. by split.
  - by split.
Qed.

(** A step that leaves the log as it is, then the rest. *)
Local Ltac quiet_step tac :=
  eapply (safe_bind R (fun _ => True));
    [apply safe_quiet; [tac | done] | intros ? ? _ ?].

Local Ltac case_if :=
  match goal with
  | |- context [if ?b then _ else _] => destruct b
  end.

Lemma clone_repository_empty env self repo_url target_dir repo_name w :
  serves_empty_archives env (length (w_log w)) ->
  safe R (fun ok => ok = false)
    (clone_repository env self repo_url target_dir repo_name) w w.
Proof.
  intros Hempty. unfold clone_repository.
  destruct (negb (Py.truthy (github_token self))).
  { apply safe_ret; [apply events_only_refl | done]. }
  apply safe_catch.
  2:{ intros e m' w1 He HR. unfold except_Exception in He.
      destruct (is_Exception e); [| done]. injection He as <-.
      by apply safe_ret. }
  eapply (safe_mono R (fun _ => False)); [done |].
  eapply (safe_bind R (fun _ => True)).
  { apply safe_quiet; [by rewrite extract_repo_info_world |].
    apply events_only_refl. }
  intros [owner repo] w1 _ HR1.
  eapply (safe_bind R (fun _ => True)).
  { apply safe_catch.
    - eapply (safe_bind R (fun _ => True));
        [by apply requests_get_events |].
      intros [status body] w2 _ HR2.
      destruct (status =? 200)%Z; [| by apply safe_ret].
      eapply (safe_bind R (fun _ => True)).
      + apply safe_quiet; [by rewrite json_get_world | done].
      + intros branch w3 _ HR3. by apply safe_ret.
    - intros e m' w2 He HR2. unfold except_Exception in He.
      destruct (is_Exception e); [| done]. injection He as <-.
      by apply safe_ret. }
  intros default_branch w2 _ HR2.
  quiet_step ltac:(done).
  quiet_step ltac:(by rewrite write_file_log).
  apply safe_finally.
  2:{ intros w5 HR5. quiet_step ltac:(done).
      case_if; [by apply safe_quiet | by apply safe_ret]. }
  eapply (safe_bind R); [by apply requests_get_empty |].
  intros [status body] w5 Hbody HR5. simpl in Hbody.
  quiet_step ltac:(by rewrite raise_for_status_world).
  quiet_step ltac:(by rewrite write_file_log).
  quiet_step ltac:(by rewrite mkdir_parents_log).
  quiet_step ltac:(done).
  quiet_step ltac:(done).
  eapply (safe_bind R (fun _ => True)).
  { case_if; [by apply safe_quiet | by apply safe_ret]. }
  intros _ w11 _ HR11.
  quiet_step ltac:(by rewrite mkdir_parents_log).
  eapply (safe_bind R (fun _ => False)).
  - apply safe_finally.
    + by apply extract_and_place_never_returns.
    + intros w13 HR13. quiet_step ltac:(done).
      case_if; [by apply safe_quiet | by apply safe_ret].
  - by intros _ w13 [].
Qed.
End Fetch.

(** C9, as amended: a fetch whose downloaded archive has no members at
    all reports failure without placing anything, and the run of the
    agent ends there.  Precisely, when from some time on every archive
    that is served has no members, a [clone_repository] started then does
    not return [True] and does nothing to the outside but HTTP requests
    (no merge, no rename, no command); and a run of the agent whose fetch
    of the backend (or of the frontend) starts then does not return
    [True] and, from that fetch on, does nothing but HTTP requests, so no
    build is reached. *)
Theorem fetch_of_empty_archive_fails (env : Env) (self : DeploymentAgent.t) :
  (forall repo_url target_dir repo_name w,
     serves_empty_archives env (length (w_log w)) ->
     let r :=
       DeploymentAgent.clone_repository env self repo_url target_dir
         repo_name w in
     r.1 <> Ret true /\ events_only is_get w r.2)
  /\ (forall fe_repo_url be_repo_url w,
        serves_empty_archives env (length (w_log w)) ->
        let r := DeploymentAgent.run env self fe_repo_url be_repo_url w in
        r.1 <> Ret true /\ events_only is_get w r.2)
  /\ (forall fe_repo_url be_repo_url w w1,
        DeploymentAgent.clone_repository env self fe_repo_url
          (DeploymentAgent.frontend_dir self) "Frontend" w = (Ret true, w1) ->
        serves_empty_archives env (length (w_log w1)) ->
        let r := DeploymentAgent.run env self fe_repo_url be_repo_url w in
        r.1 <> Ret true /\ events_only is_get w1 r.2).
Proof.
  assert (Hclone : forall repo_url target_dir repo_name w,
    serves_empty_archives env (length (w_log w)) ->
    (DeploymentAgent.clone_repository env self repo_url target_dir
       repo_name w).1 <> Ret true
    /\ events_only is_get w
         (DeploymentAgent.clone_repository env self repo_url target_dir
            repo_name w).2).
  { intros repo_url target_dir repo_name w Hempty.
    destruct (clone_repository_empty env self repo_url target_dir repo_name w
                Hempty) as [HR Hret].
    split; [| done]. intros Heq. by specialize (Hret true Heq). }
  split; [exact Hclone |]. split.
  - intros fe be w Hempty. simpl.
    destruct (Hclone fe (DeploymentAgent.frontend_dir self) "Frontend" w Hempty)
      as [Hr HR].
    destruct (DeploymentAgent.clone_repository env self fe _ _ w)
      as [r w'] eqn:Hc. simpl in *.
    destruct (run_stops_at_frontend_fetch env self fe be w r w' Hc Hr)
      as (r' & -> & Hr'). done.
  - intros fe be w w1 Hfe Hempty. simpl.
    destruct (Hclone be (DeploymentAgent.backend_dir self) "Backend" w1 Hempty)
      as [Hr HR].
    destruct (DeploymentAgent.clone_repository env self be _ _ w1)
      as [r w'] eqn:Hc. simpl in *.
    destruct (run_stops_at_backend_fetch env self fe be w w1 r w' Hfe Hc Hr)
      as (r' & -> & Hr'). done.
Qed.

Lemma fetch_of_empty_archive_fails_witness :
  (DeploymentAgent.clone_repository empty_env demo_agent
     "https://github.com/Ayash13/JalinApp-REN.git" ["app"; "backend"]
     "Backend" demo_world).1 <> Ret true
  /\ (DeploymentAgent.run late_empty_env demo_agent
        "https://github.com/Ayash13/Jalin-App-v2.git"
        "https://github.com/Ayash13/JalinApp-REN.git" demo_world).1
     <> Ret true.
Proof.
  split.
  - apply (proj1 (fetch_of_empty_archive_fails empty_env demo_agent)
             "https://github.com/Ayash13/JalinApp-REN.git" ["app"; "backend"]
             "Backend" demo_world).
    intros n url status members _ Hget. simpl in Hget.
    by injection Hget as _ <-.
  - apply (proj2 (proj2 (fetch_of_empty_archive_fails late_empty_env
                           demo_agent))
             "https://github.com/Ayash13/Jalin-App-v2.git"
             "https://github.com/Ayash13/JalinApp-REN.git" demo_world
             (DeploymentAgent.clone_repository late_empty_env demo_agent
                "https://github.com/Ayash13/Jalin-App-v2.git"
                ["app"; "frontend"] "Frontend" demo_world).2).
    + vm_compute. reflexivity.
    + intros n url status members Hle Hget.
      assert (Hlen : 3 <= n) by (vm_compute in Hle; exact Hle).
      simpl in Hget. apply Nat.ltb_ge in Hlen. rewrite Hlen in Hget.
      by injection Hget as _ <-.
Defined.

(** The claim as the specification states it fails for an archive that
    holds its root folder and nothing in it: the archive has members, so
    the check for an empty archive lets it pass; the empty folder is
    merged into the existing target, the verification of the target (which
    still holds its old files) succeeds, the fetch returns [True], and the
    run of the agent goes on to the build. *)
Lemma fetch_of_bare_root_succeeds :
  root_has_no_entries bare_root_archive = true
  /\ (DeploymentAgent.clone_repository bare_root_env demo_agent
        "https://github.com/Ayash13/JalinApp-REN.git" ["app"; "backend"]
        "Backend" demo_world).1 = Ret true
  /\ EvMerge ["tmp"; "_temp_extract_Backend_1700000000";
              "Ayash13-JalinApp-REN-def456"] ["app"; "backend"]
     ∈ w_log (DeploymentAgent.clone_repository bare_root_env demo_agent
                "https://github.com/Ayash13/JalinApp-REN.git"
                ["app"; "backend"] "Backend" demo_world).2
  /\ (DeploymentAgent.run bare_root_env demo_agent
        "https://github.com/Ayash13/Jalin-App-v2.git"
        "https://github.com/Ayash13/JalinApp-REN.git" demo_world).1 = Ret true
  /\ EvRun ["docker"; "compose"; "-p"; "jalindeploy"; "build"; "--parallel";
            "frontend"; "backend"] (Some ["app"; "project"])
     ∈ w_log (DeploymentAgent.run bare_root_env demo_agent
                "https://github.com/Ayash13/Jalin-App-v2.git"
                "https://github.com/Ayash13/JalinApp-REN.git" demo_world).2.
Proof.
  split; [reflexivity |].
  split; [vm_compute; reflexivity |].
  split; [apply (bool_decide_unpack _); vm_compute; exact I |].
  split; [vm_compute; reflexivity |].
  apply (bool_decide_unpack _). vm_compute. exact I.
Qed.

(** With no target yet, the same archive is renamed into place before the
    verification of the (empty) target fails the fetch. *)
Example fetch_of_bare_root_into_new_target :
  let w := mkWorld (delete ["app"; "backend"; "requirements.txt"]
                      (delete ["app"; "backend"] demo_fs)) [] in
  let r := DeploymentAgent.clone_repository bare_root_env demo_agent
             "https://github.com/Ayash13/JalinApp-REN.git" ["app"; "backend"]
             "Backend" w in
  r.1 = Ret false
  /\ w_log r.2
     = [ EvRename ["tmp"; "_temp_extract_Backend_1700000000";
                   "Ayash13-JalinApp-REN-def456"] ["app"; "backend"];
         EvGet "https://api.github.com/repos/Ayash13/JalinApp-REN/zipball/main";
         EvGet "https://api.github.com/repos/Ayash13/JalinApp-REN" ]
  /\ w_fs r.2 !! ["app"; "backend"] = Some Dir.
Proof. vm_compute. repeat split; reflexivity. Qed.

(** * Further properties of the code *)

(** ** The merge installs the fetched files *)

(** What the walk lists is there: the directories on the way to an entry
    are directories, and its files are files with the listed content. *)
Lemma os_walk_from_sound (fuel : nat) (fs : FS) (top pre : path)
    (rel : path) (dirs : list string) (files : list (string * string)) :
  (rel, dirs, files) ∈ os_walk_from fuel fs top pre ->
  exists below,
    rel = pre ++ below
    /\ (forall k, 0 < k <= length below ->
          fs !! (top ++ pre ++ take k below) = Some Dir)
    /\ (forall name content, (name, content) ∈ files ->
          fs !! (top ++ rel ++ [name]) = Some (File content)).
Proof.
  revert pre. induction fuel as [| fuel IH]; intros pre Hin; simpl in Hin.
  { by apply elem_of_nil in Hin. }
  apply elem_of_cons in Hin as [Heq | Hin].
  - injection Heq as -> -> ->. exists []. split; [by rewrite app_nil_r |].
    split; [simpl; intros; lia |].
    intros name content Hf. apply list_elem_of_omap in Hf as ([n e] & He & Hf).
    destruct e as [c |]; [| done]. injection Hf as -> ->.
    apply elem_of_listdir in He. by rewrite <- app_assoc in He.
  - apply list_elem_of_In, in_flat_map in Hin as (d & Hd & Hin).
    apply list_elem_of_In, list_elem_of_omap in Hd as ([n e] & He & Hd).
    destruct e as [c |]; [done |]. injection Hd as ->.
    apply elem_of_listdir in He.
    apply list_elem_of_In, IH in Hin as (below & -> & Hdirs & Hfiles).
    exists (d :: below). split; [by rewrite <- app_assoc |]. split; [| done].
    intros k Hk. destruct k as [| k]; [lia |]. simpl.
    destruct k as [| k].
    + rewrite ?take_0. by rewrite <- app_assoc in He.
    + specialize (Hdirs (S k)). rewrite <- !app_assoc in Hdirs.
      simpl in *. apply Hdirs. lia.
Qed.

Lemma os_walk_sound (fs : FS) (top rel : path) (dirs : list string)
    (files : list (string * string)) :
  (rel, dirs, files) ∈ os_walk fs top ->
  (forall k, 0 < k <= length rel -> fs !! (top ++ take k rel) = Some Dir)
  /\ (forall name content, (name, content) ∈ files ->
        fs !! (top ++ rel ++ [name]) = Some (File content)).
Proof.
  unfold os_walk. destruct (Fs.is_dir fs top); [| by intros ?%elem_of_nil].
  intros Hin. apply os_walk_from_sound in Hin as (below & -> & Hdirs & Hfiles).
  done.
Qed.

(** [mkdir] changes the entries on the way down only. *)
Lemma mkdir_from_lookup (above below : path) (fs : FS) (q : path) :
  (Fs.mkdir_from above below fs).2 !! q = fs !! q
  \/ exists k, 0 < k <= length below /\ q = above ++ take k below.
Proof.
  revert above fs. induction below as [| c below IH]; intros above fs; simpl.
  { by left. }
  assert (Hdeeper : forall fs',
    (Fs.mkdir_from (above ++ [c]) below fs').2 !! q = fs' !! q
    \/ exists k, 0 < k <= S (length below) /\ q = above ++ take k (c :: below)).
  { intros fs'. destruct (IH (above ++ [c]) fs') as [Heq | (k & Hk & ->)].
    - by left.
    - right. exists (S k). split; [lia |]. by rewrite <- app_assoc. }
  destruct (fs !! (above ++ [c])) as [[content |] |] eqn:Hp; simpl.
  - by left.
  - apply Hdeeper.
  - destruct (Hdeeper (<[above ++ [c] := Dir]> fs)) as [Heq | Hk]; [| by right].
    destruct (decide (q = above ++ [c])) as [-> | Hne].
    + right. exists 1. split; [lia | done].
    + left. by rewrite Heq, lookup_insert_ne.
Qed.

Lemma exists_nonempty (fs : FS) (p : list string) :
  p <> [] -> Fs.exists_ fs p = bool_decide (is_Some (fs !! p)).
Proof. by destruct p. Qed.

Lemma is_dir_nonempty (fs : FS) (p : list string) :
  p <> [] -> Fs.is_dir fs p = bool_decide (fs !! p = Some Dir).
Proof. by destruct p. Qed.

Section Installs.
Import DeploymentAgent.
Context (env : Env) (source target : path) (snapshot : FS).
Context (rel : path) (name content : string).

(** The file we follow, in the fetched tree and in the target. *)
Hypothesis fetched :
  snapshot !! (source ++ rel ++ [name]) = Some (File content).
Hypothesis fetched_dir :
  rel <> [] -> snapshot !! (source ++ rel) = Some Dir.

Local Abbreviation dest := (target ++ rel ++ [name]).
Local Abbreviation installs := (installs_or_leaves dest content).

Lemma installs_refl w : installs w w.
Proof. by left. Qed.

Lemma installs_trans w1 w2 w3 :
  installs w1 w2 -> installs w2 w3 -> installs w1 w3.
Proof.
  unfold installs_or_leaves. intros [H12 | H12] [H23 | H23]; auto.
  - left. congruence.
  - right. congruence.
Qed.

Lemma installs_kept p w : installs w (Fs.mkdir_parents p w).2 \/
  exists k, 0 < k <= length p /\ dest = take k p.
Proof.
  unfold Fs.mkdir_parents, installs_or_leaves.
  destruct (mkdir_from_lookup [] p (w_fs w) dest) as [Heq | Hk].
  - left. left. by destruct (Fs.mkdir_from [] p (w_fs w)).
  - by right.
Qed.

(** A copy of another file of the walk does not disturb the destination
    of ours, and a second copy of ours writes the same content. *)
Lemma shutil_copy2_installs attempt rel' name' content' :
  snapshot !! (source ++ rel' ++ [name']) = Some (File content') ->
  respects installs
    (shutil_copy2 env attempt name' content' (target ++ rel' ++ [name'])).
Proof using fetched fetched_dir.
  intros Hfile w. unfold installs_or_leaves.
  destruct (shutil_copy2_writes env attempt name' content'
              (target ++ rel' ++ [name']) w)
    as [Heq | (real & Hreal & _ & Heq)]; simpl in Heq; rewrite Heq.
  { by left. }
  destruct (decide (real = dest)) as [Hp | Hne].
  2:{ left. by rewrite lookup_insert_ne. }
  right. rewrite Hp, lookup_insert_eq.
  destruct Hreal as [[-> _] | [-> _]].
  - apply app_inv_head in Hp. apply app_inj_tail in Hp as [-> ->].
    congruence.
  - rewrite <- !app_assoc in Hp. apply app_inv_head in Hp.
    rewrite app_assoc in Hp. apply app_inj_tail in Hp as [<- _].
    rewrite fetched_dir in Hfile; [done | by destruct rel'].
Qed.

Lemma merge_file_installs rel' name' content' :
  snapshot !! (source ++ rel' ++ [name']) = Some (File content') ->
  respects installs (merge_file env (target ++ rel') name' content').
Proof using fetched fetched_dir.
  intros Hfile. unfold merge_file. rewrite <- !app_assoc.
  pose proof installs_refl as Hrefl. pose proof installs_trans as Htrans.
  apply respects_bind; [done | by apply respects_gets |].
  intros target_exists.
  destruct (bool_decide (name' ∈ preserve_files) && target_exists);
    [by apply respects_ret |].
  apply respects_catch; [done | by apply shutil_copy2_installs |].
  intros e m' He. destruct e; try discriminate He. injection He as <-.
  assert (Hchmod : forall p, respects installs (os_chmod env p)).
  { intros p w. unfold os_chmod. destruct (env_chmod_fault env p); by left. }
  apply respects_bind; [done | apply Hchmod | intros _].
  apply respects_bind; [done | by apply shutil_copy2_installs | intros _].
  apply Hchmod.
Qed.

(** The creation of the directory of an entry of the walk. *)
Lemma mkdir_subdir_installs rel' dirs files :
  (rel', dirs, files) ∈ os_walk snapshot source ->
  respects installs
    (match rel' with
     | [] => ret tt
     | _ :: _ => Fs.mkdir_parents (target ++ rel')
     end).
Proof using fetched.
  intros Hin. apply os_walk_sound in Hin as [Hdirs _].
  destruct rel' as [| d rel']; [apply respects_ret, installs_refl |].
  intros w. destruct (installs_kept (target ++ d :: rel') w)
    as [Hok | (k & Hk & Heq)]; [done |].
  exfalso. apply (f_equal length) in Heq as Hlen.
  rewrite length_take, !length_app in Hlen. simpl in Hlen.
  assert (length target < k) by lia.
  rewrite take_app_ge in Heq by lia. apply app_inv_head in Heq.
  assert (Hk' : 0 < k - length target <= length (d :: rel')).
  { rewrite length_app in Hk. simpl in *. lia. }
  specialize (Hdirs _ Hk'). by rewrite <- Heq, fetched in Hdirs.
Qed.

(** One pass of the outer loop, for an entry that the walk of the
    snapshot lists. *)
Lemma merge_walk_entry_installs entry :
  entry ∈ os_walk snapshot source ->
  respects installs (merge_walk_entry env target entry).
Proof using fetched fetched_dir.
  destruct entry as [[rel' dirs] files]. intros Hin.
  pose proof installs_refl as Hrefl. pose proof installs_trans as Htrans.
  unfold merge_walk_entry. apply respects_bind; [done | |].
  - by eapply mkdir_subdir_installs.
  - intros _. apply os_walk_sound in Hin as [_ Hfiles].
    apply respects_for_each_in; [done | done |].
    apply Forall_forall. intros [name' content'] Hf.
    apply merge_file_installs. by apply Hfiles.
Qed.

(** The copy of our own file, when it returns, has written it. *)
Lemma merge_file_writes w w' :
  merge_file env (target ++ rel) name content w = (Ret tt, w') ->
  Fs.is_dir (w_fs w) dest = false ->
  name ∉ preserve_files \/ w_fs w !! dest = None ->
  w_fs w' !! dest = Some (File content).
Proof.
  clear fetched fetched_dir.
  unfold merge_file, mbind, M_bind, bind, path_exists, gets.
  rewrite <- !app_assoc. intros Hrun Hnodir Hcopy.
  assert (Hskip : bool_decide (name ∈ preserve_files)
                  && Fs.exists_ (w_fs w) dest = false).
  { destruct Hcopy as [Hn | Hnone].
    - by rewrite bool_decide_eq_false_2.
    - apply andb_false_iff. right.
      rewrite exists_nonempty by (by destruct target, rel).
      apply bool_decide_eq_false. rewrite Hnone. by intros [? ?]. }
  rewrite Hskip in Hrun. unfold catch in Hrun.
  assert (Hcopy2 : forall attempt v,
    Fs.is_dir (w_fs v) dest = false ->
    forall v', shutil_copy2 env attempt name content dest v = (Ret tt, v') ->
    w_fs v' !! dest = Some (File content)).
  { intros attempt v Hd v'. unfold shutil_copy2. cbv zeta.
    rewrite Hd. cbv iota. rewrite Hd.
    destruct (env_copy_fault env dest attempt); [| done |];
      destruct (negb (Fs.is_dir (w_fs v) (Fs.parent dest))); try done;
      intros Hv; injection Hv as Hv; subst v'; simpl;
      by rewrite lookup_insert_eq. }
  destruct (shutil_copy2 env 0 name content dest w) as [[[] | e] w1] eqn:H0.
  - injection Hrun as <-. by eapply Hcopy2.
  - destruct e; try done. unfold os_chmod at 1 in Hrun.
    destruct (env_chmod_fault env (Fs.parent dest)); [done |]. simpl in Hrun.
    assert (Hd1 : Fs.is_dir (w_fs w1) dest = false).
    { pose proof (shutil_copy2_writes env 0 name content dest w) as Hw.
      rewrite H0 in Hw. simpl in Hw.
      destruct Hw as [-> | (real & Hreal & _ & ->)]; [done |].
      rewrite is_dir_nonempty in Hnodir |- * by (by destruct target, rel).
      apply bool_decide_eq_false. apply bool_decide_eq_false in Hnodir.
      destruct (decide (real = dest)) as [-> | Hne].
      - by rewrite lookup_insert_eq.
      - by rewrite lookup_insert_ne. }
    destruct (shutil_copy2 env 1 name content dest w1) as [[[] | e] w2] eqn:H1;
      [| done].
    assert (Hw2 : w_fs w2 !! dest = Some (File content)) by by eapply Hcopy2.
    unfold os_chmod in Hrun. destruct (env_chmod_fault env dest); [done |].
    by injection Hrun as <-.
Qed.
End Installs.

(** A loop that returns has run the body for each element, and returned
    from it. *)
Lemma for_each_Ret_inv (R : World -> World -> Prop) {A} (l : list A)
    (body : A -> M unit) (x : A) (w w' : World) :
  (forall w, R w w) -> (forall w1 w2 w3, R w1 w2 -> R w2 w3 -> R w1 w3) ->
  Forall (fun y => respects R (body y)) l ->
  for_each l body w = (Ret tt, w') ->
  x ∈ l ->
  exists wa wb, R w wa /\ body x wa = (Ret tt, wb) /\ R wb w'.
Proof.
  intros Hrefl Htrans Hl. revert w.
  induction Hl as [| y l Hy Hl IH]; intros w Hrun Hin.
  { by apply elem_of_nil in Hin. }
  simpl in Hrun. bind_inv Hrun. destruct a.
  apply elem_of_cons in Hin as [-> | Hin].
  - exists w, w0. split; [done |]. split; [done |].
    pose proof (respects_for_each_in R l body Hrefl Htrans Hl w0) as Hrest.
    by rewrite Hrun in Hrest.
  - destruct (IH w0 Hrun Hin) as (wa & wb & Hwa & Hbody & Hwb).
    exists wa, wb. split; [| done].
    eapply Htrans; [| exact Hwa]. specialize (Hy w). by rewrite Hstep in Hy.
Qed.


(** ** Repository URLs *)

(** *** Python strings *)

Lemma append_cons (c : ascii) (s t : string) :
  String c s +:+ t = String c (s +:+ t).
Proof. done. Qed.

Lemma append_nil_r (s : string) : s +:+ "" = s.
Proof. induction s as [|c s IH]; [done |]. rewrite ?append_cons. by rewrite IH. Qed.

Lemma append_assoc (s t u : string) : (s +:+ t) +:+ u = s +:+ (t +:+ u).
Proof. induction s as [|c s IH]; [done |]. rewrite ?append_cons. by rewrite IH. Qed.

Lemma append_length (s t : string) :
  String.length (s +:+ t) = String.length s + String.length t.
Proof. induction s as [|c s IH]; [done |]. rewrite ?append_cons; cbn [String.length]. by rewrite IH. Qed.

Lemma list_ascii_of_append (s t : string) :
  list_ascii_of_string (s +:+ t)
  = list_ascii_of_string s ++ list_ascii_of_string t.
Proof.
  induction s as [|c s IH]; [done |].
  rewrite ?append_cons; cbn [list_ascii_of_string]. by rewrite IH.
Qed.

Lemma string_of_list_ascii_app (l l' : list ascii) :
  string_of_list_ascii (l ++ l')
  = string_of_list_ascii l +:+ string_of_list_ascii l'.
Proof.
  induction l as [|c l IH]; [done |].
  rewrite ?append_cons; cbn [app string_of_list_ascii]. by rewrite IH.
Qed.

Lemma rev_app_append (s t : string) : String.rev_app s t = String.rev s +:+ t.
Proof.
  unfold String.rev. revert t.
  induction s as [|c s IH]; intros t; [done |].
  cbn [String.rev_app]. rewrite (IH (String c "")), IH.
  by rewrite append_assoc.
Qed.

Lemma rev_append (s t : string) :
  String.rev (s +:+ t) = String.rev t +:+ String.rev s.
Proof.
  induction s as [|c s IH].
  - by rewrite append_nil_r.
  - rewrite ?append_cons. unfold String.rev at 1 3. cbn [String.rev_app].
    rewrite !rev_app_append, IH. by rewrite append_assoc.
Qed.

Lemma prefix_empty (s : string) : String.prefix "" s = true.
Proof. by destruct s. Qed.

Lemma prefix_append (s t : string) : String.prefix s (s +:+ t) = true.
Proof.
  induction s as [|c s IH]; [by destruct t |].
  rewrite ?append_cons; cbn [String.prefix]. by destruct (ascii_dec c c).
Qed.

Lemma prefix_weaken (p s t : string) :
  String.prefix p s = true -> String.prefix p (s +:+ t) = true.
Proof.
  revert s. induction p as [|c p IH]; intros s.
  - intros _. by destruct (s +:+ t).
  - destruct s as [|d s]; [done |]. rewrite ?append_cons; cbn [String.prefix].
    destruct (ascii_dec c d); [apply IH | done].
Qed.

Lemma substring_append (s t : string) :
  substring 0 (String.length s) (s +:+ t) = s.
Proof.
  induction s as [|c s IH]; [by destruct t |].
  rewrite ?append_cons; cbn [String.length substring]. by rewrite IH.
Qed.

(** A prefix of a string, as a slice [s[:n]] is. *)
Lemma substring_is_prefix (n : nat) (s : string) :
  exists t, s = substring 0 n s +:+ t.
Proof.
  revert n. induction s as [|c s IH]; intros n.
  - exists "". by destruct n.
  - destruct n as [|n]; [by exists (String c s) |].
    destruct (IH n) as [t Ht]. exists t.
    cbn [substring]. rewrite append_cons. by rewrite <- Ht.
Qed.

Section PyStrings.
Import Py.

Lemma contains_weaken (sub s t : string) :
  contains sub s = true -> contains sub (s +:+ t) = true.
Proof.
  induction s as [|c s IH].
  - cbn [contains]. rewrite orb_false_r. intros H.
    destruct sub; [| done]. by destruct t.
  - rewrite ?append_cons; cbn [contains]. intros [H | H]%orb_true_iff.
    + apply orb_true_iff. left.
      by apply (prefix_weaken sub (String c s) t).
    + apply orb_true_iff. right. by apply IH.
Qed.

Lemma lstrip_slash_suffix (l : list ascii) :
  exists k, l = k ++ lstrip_slash l.
Proof.
  induction l as [|c l [k Hk]]; [by exists [] |].
  cbn [lstrip_slash]. destruct (Ascii.eqb c "/").
  - exists (c :: k). cbn [app]. by rewrite <- Hk.
  - by exists [].
Qed.

(** What [rstrip] returns is a prefix of its argument. *)
Lemma rstrip_slash_is_prefix (s : string) :
  exists t, s = rstrip_slash s +:+ t.
Proof.
  unfold rstrip_slash.
  destruct (lstrip_slash_suffix (rev (list_ascii_of_string s))) as [k Hk].
  exists (string_of_list_ascii (rev k)).
  rewrite <- string_of_list_ascii_app, <- rev_app_distr, <- Hk, rev_involutive.
  by rewrite string_of_list_ascii_of_string.
Qed.

Lemma rstrip_slash_slash (s : string) :
  rstrip_slash (s +:+ "/") = rstrip_slash s.
Proof.
  unfold rstrip_slash. by rewrite list_ascii_of_append, rev_app_distr.
Qed.

Lemma rstrip_slash_keeps (s : string) (c : ascii) :
  c <> "/"%char -> rstrip_slash (s +:+ String c "") = s +:+ String c "".
Proof.
  intros Hc. unfold rstrip_slash.
  assert (lstrip_slash (rev (list_ascii_of_string (s +:+ String c "")))
          = rev (list_ascii_of_string (s +:+ String c ""))) as ->.
  { rewrite list_ascii_of_append, rev_app_distr.
    cbn [list_ascii_of_string rev app lstrip_slash].
    by destruct (Ascii.eqb_spec c "/"). }
  rewrite rev_involutive. apply string_of_list_ascii_of_string.
Qed.

Lemma endswith_append (s suf : string) : endswith (s +:+ suf) suf = true.
Proof. unfold endswith. rewrite rev_append. apply prefix_append. Qed.

Lemma drop_last_append (s suf : string) :
  drop_last (String.length suf) (s +:+ suf) = s.
Proof.
  unfold drop_last. rewrite append_length.
  replace (String.length s + String.length suf - String.length suf)
    with (String.length s) by lia.
  apply substring_append.
Qed.

(** Without an occurrence of the separator, [split] returns the string
    as its only piece. *)
Lemma split_aux_absent (sep : string) (cur : list ascii) (s : string) :
  contains sep s = false ->
  split_aux sep 0 cur s = [string_of_list_ascii (rev cur) +:+ s].
Proof.
  revert cur. induction s as [|c s IH]; intros cur.
  - intros _. cbn [split_aux]. by rewrite append_nil_r.
  - cbn [contains]. intros [Hp Hs]%orb_false_iff.
    cbn [split_aux]. rewrite Hp, (IH _ Hs). cbn [rev].
    rewrite string_of_list_ascii_app, append_assoc. done.
Qed.

Lemma split_aux_skip (sep a : string) (cur : list ascii) (rest : string) :
  split_aux sep (String.length a) cur (a +:+ rest) = split_aux sep 0 cur rest.
Proof. induction a as [|c a IH]; [done |]. by rewrite append_cons. Qed.

(** At an occurrence of the separator the current piece ends. *)
Lemma split_aux_at_sep (c : ascii) (sep : string) (cur : list ascii)
    (rest : string) :
  split_aux (String c sep) 0 cur (String c sep +:+ rest)
  = string_of_list_ascii (rev cur) :: split_aux (String c sep) 0 [] rest.
Proof.
  rewrite append_cons. cbn [split_aux].
  rewrite <- append_cons, prefix_append.
  replace (String.length (String c sep) - 1) with (String.length sep)
    by (cbn [String.length]; lia).
  by rewrite split_aux_skip.
Qed.

(** [split('/')] cuts at the first slash. *)
Lemma split_aux_slash (cur : list ascii) (a rest : string) :
  contains "/" a = false ->
  split_aux "/" 0 cur (a +:+ String "/" rest)
  = (string_of_list_ascii (rev cur) +:+ a) :: split_aux "/" 0 [] rest.
Proof.
  revert cur. induction a as [|c a IH]; intros cur.
  - intros _. change ("" +:+ String "/" rest) with (String "/" rest).
    cbn [split_aux String.prefix].
    destruct (ascii_dec "/" "/") as [_ |]; [| done].
    by rewrite prefix_empty, append_nil_r.
  - cbn [contains]. intros [Hp Ha]%orb_false_iff.
    rewrite ?append_cons; cbn [split_aux].
    assert (String.prefix "/" (String c (a +:+ String "/" rest)) = false)
      as ->.
    { cbn [String.prefix] in *.
      destruct (ascii_dec "/" c); [by rewrite prefix_empty in Hp | done]. }
    rewrite (IH _ Ha). cbn [rev].
    rewrite string_of_list_ascii_app, append_assoc. done.
Qed.

(** Every list that [split] returns has a first piece. *)
Lemma split_aux_head (sep : string) (skip : nat) (cur : list ascii)
    (s : string) :
  exists piece pieces, split_aux sep skip cur s = piece :: pieces.
Proof.
  revert skip cur. induction s as [|c s IH]; intros skip cur.
  - by eexists _, _.
  - cbn [split_aux]. destruct skip as [|k]; [| apply IH].
    destruct (String.prefix sep (String c s)); [by eexists _, _ | apply IH].
Qed.

End PyStrings.

Section RepoUrls.
Import Py.

(** The URL after [rstrip('/')] and the removal of [.git] is a prefix of
    the URL. *)
Lemma normalised_is_prefix (url : string) :
  exists t,
    url = (if endswith (rstrip_slash url) ".git"
           then drop_last 4 (rstrip_slash url)
           else rstrip_slash url) +:+ t.
Proof.
  destruct (rstrip_slash_is_prefix url) as [t Ht].
  destruct (endswith (rstrip_slash url) ".git"); [| by exists t].
  destruct (substring_is_prefix (String.length (rstrip_slash url) - 4)
              (rstrip_slash url)) as [t' Ht'].
  exists (t' +:+ t). unfold drop_last.
  by rewrite <- append_assoc, <- Ht', <- Ht.
Qed.

Lemma extract_repo_info_foreign (url : string) (w : World) :
  contains "github.com" url = false ->
  DeploymentAgent.extract_repo_info url w = (Raise ValueError, w).
Proof.
  intros Hurl. unfold DeploymentAgent.extract_repo_info. cbv zeta.
  destruct (normalised_is_prefix url) as [t Ht].
  match goal with
  | |- context [contains "github.com" ?x] =>
      destruct (contains "github.com" x) eqn:Hc; [| done]
  end.
  apply (contains_weaken _ _ t) in Hc. rewrite <- Ht in Hc. congruence.
Qed.

(** The pieces of [owner/repo] when neither holds a slash. *)
Lemma split_owner_repo (owner repo : string) :
  contains "/" owner = false -> contains "/" repo = false ->
  split "/" (owner +:+ "/" +:+ repo) = [owner; repo].
Proof.
  intros Ho Hr. unfold split.
  change ("/" +:+ repo) with (String "/" repo).
  rewrite (split_aux_slash [] owner repo Ho).
  by rewrite (split_aux_absent "/" [] repo Hr).
Qed.

Lemma extract_repo_info_dot_git (base owner repo : string) (w : World) :
  contains "github.com" (base +:+ owner +:+ "/" +:+ repo) = true ->
  last_piece (split "github.com/" (base +:+ owner +:+ "/" +:+ repo))
  = owner +:+ "/" +:+ repo ->
  contains "/" owner = false -> contains "/" repo = false ->
  DeploymentAgent.extract_repo_info
    (base +:+ owner +:+ "/" +:+ repo +:+ ".git") w
  = (Ret (owner, repo), w).
Proof.
  intros Hbase Hlast Ho Hr. unfold DeploymentAgent.extract_repo_info.
  cbv zeta.
  set (url := base +:+ owner +:+ "/" +:+ repo).
  assert (base +:+ owner +:+ "/" +:+ repo +:+ ".git" = url +:+ ".git")
    as Hurl by (unfold url; by rewrite !append_assoc).
  rewrite Hurl.
  assert (rstrip_slash (url +:+ ".git") = url +:+ ".git") as ->.
  { change ".git" with (".gi" +:+ "t"). rewrite <- append_assoc.
    by apply rstrip_slash_keeps. }
  rewrite endswith_append.
  rewrite (drop_last_append url ".git"
             : drop_last 4 (url +:+ ".git") = url).
  fold url in Hbase, Hlast. rewrite Hbase, Hlast.
  by rewrite (split_owner_repo owner repo Ho Hr).
Qed.

End RepoUrls.

(** X2: [extract_repo_info] reads the clone URL of a repository.  For an
    owner and a repository name without a slash, the URL
    [https://github.com/<owner>/<repo>.git] gives the pair
    [(owner, repo)], in the agent and in the watcher, without touching
    the world.  (The third hypothesis excludes an owner whose name ends
    in [github.com], for which [split('github.com/')] cuts inside the
    name.) *)
Theorem extract_repo_info_reads_clone_url (owner repo : string) (w : World) :
  Py.contains "/" owner = false ->
  Py.contains "/" repo = false ->
  Py.contains "github.com/" (owner +:+ "/" +:+ repo) = false ->
  DeploymentAgent.extract_repo_info
    ("https://github.com/" +:+ owner +:+ "/" +:+ repo +:+ ".git") w
  = (Ret (owner, repo), w)
  /\ DeployWatcher.extract_repo_info
       ("https://github.com/" +:+ owner +:+ "/" +:+ repo +:+ ".git") w
     = (Ret (owner, repo), w).
Proof.
  intros Ho Hr Hsep.
  assert (DeploymentAgent.extract_repo_info
            ("https://github.com/" +:+ owner +:+ "/" +:+ repo +:+ ".git") w
          = (Ret (owner, repo), w)) as H; [| split; exact H].
  apply extract_repo_info_dot_git; [by apply contains_weaken | | done | done].
  change (Py.split "github.com/"
            ("https://github.com/" +:+ owner +:+ "/" +:+ repo))
    with (Py.split_aux "github.com/" 0
            (rev (list_ascii_of_string "https://"))
            ("github.com/" +:+ owner +:+ "/" +:+ repo)).
  rewrite split_aux_at_sep.
  by rewrite (split_aux_absent _ _ _ Hsep).
Qed.

Lemma extract_repo_info_reads_clone_url_witness :
  DeploymentAgent.extract_repo_info
    "https://github.com/Ayash13/Jalin-App-v2.git" demo_world
  = (Ret ("Ayash13", "Jalin-App-v2"), demo_world).
Proof.
  apply (extract_repo_info_reads_clone_url "Ayash13" "Jalin-App-v2"
           demo_world); reflexivity.
Defined.

(** X3: trailing slashes of a URL are ignored. *)
Theorem extract_repo_info_ignores_trailing_slash (url : string) :
  DeploymentAgent.extract_repo_info (url +:+ "/")
  = DeploymentAgent.extract_repo_info url
  /\ DeployWatcher.extract_repo_info (url +:+ "/")
     = DeployWatcher.extract_repo_info url.
Proof.
  unfold DeployWatcher.extract_repo_info, DeploymentAgent.extract_repo_info.
  cbv zeta. by rewrite rstrip_slash_slash.
Qed.

(** X4: a URL that does not mention [github.com] is rejected with
    [ValueError], in the agent and in the watcher; the world is left as it
    is. *)
Theorem extract_repo_info_rejects_foreign_url (url : string) (w : World) :
  Py.contains "github.com" url = false ->
  DeploymentAgent.extract_repo_info url w = (Raise ValueError, w)
  /\ DeployWatcher.extract_repo_info url w = (Raise ValueError, w).
Proof.
  intros Hurl. split; by apply extract_repo_info_foreign.
Qed.

Lemma extract_repo_info_rejects_foreign_url_witness :
  DeployWatcher.extract_repo_info "https://gitlab.com/Ayash13/Jalin-App-v2.git"
    demo_world
  = (Raise ValueError, demo_world).
Proof.
  apply (extract_repo_info_rejects_foreign_url
           "https://gitlab.com/Ayash13/Jalin-App-v2.git" demo_world).
  reflexivity.
Defined.

(** X5: the SSH form of a clone URL is accepted, and the host stays in
    the owner.  In [git@github.com:<owner>/<repo>.git] the text
    [github.com] is followed by a colon, so [split('github.com/')] cuts
    nothing and the first piece before a slash is returned as the owner:
    [git@github.com:<owner>]. *)
Theorem extract_repo_info_ssh_url_keeps_host (owner repo : string)
    (w : World) :
  Py.contains "/" owner = false ->
  Py.contains "/" repo = false ->
  Py.contains "github.com/" (owner +:+ "/" +:+ repo) = false ->
  DeploymentAgent.extract_repo_info
    ("git@github.com:" +:+ owner +:+ "/" +:+ repo +:+ ".git") w
  = (Ret ("git@github.com:" +:+ owner, repo), w).
Proof.
  intros Ho Hr Hsep.
  apply (extract_repo_info_dot_git "" ("git@github.com:" +:+ owner) repo w).
  - by apply (contains_weaken "github.com" "git@github.com:").
  - assert (Py.contains "github.com/"
              ("git@github.com:" +:+ owner +:+ "/" +:+ repo) = false)
      as Hsep' by exact Hsep.
    change (Py.last_piece
              (Py.split_aux "github.com/" 0 []
                 ("git@github.com:" +:+ owner +:+ "/" +:+ repo))
            = "git@github.com:" +:+ owner +:+ "/" +:+ repo).
    by rewrite (split_aux_absent _ _ _ Hsep').
  - exact Ho.
  - exact Hr.
Qed.

Lemma extract_repo_info_ssh_url_keeps_host_witness :
  DeploymentAgent.extract_repo_info
    "git@github.com:Ayash13/Jalin-App-v2.git" demo_world
  = (Ret ("git@github.com:Ayash13", "Jalin-App-v2"), demo_world).
Proof.
  apply (extract_repo_info_ssh_url_keeps_host "Ayash13" "Jalin-App-v2"
           demo_world); reflexivity.
Defined.
(** ** The watcher: polls *)

Lemma time_sleep_fs env seconds w : w_fs (time_sleep env seconds w).2 = w_fs w.
Proof.
  unfold time_sleep. destruct (seconds <? 0)%Z; [done |].
  unfold mbind, M_bind, bind, clock, gets, log_event, modify. simpl.
  by destruct (env_sleep env _).
Qed.

(** A handler [except Exception: return a] lets nothing through but an
    interrupt. *)
Lemma catch_all_raises {A} (m : M A) (a : A) (w : World) :
  match (catch m (except_Exception (ret a)) w).1 with
  | Raise e => e = KeyboardInterrupt
  | Ret _ => True
  end.
Proof.
  unfold catch, except_Exception. destruct (m w) as [[a' | e] w1]; [done |].
  by destruct e.
Qed.

Section Polls.
Import DeployWatcher.

Local Abbreviation commits_url owner repo branch :=
  ("https://api.github.com/repos/" +:+ owner +:+ "/" +:+ repo
     +:+ "/commits/" +:+ branch).

(** What the request of the latest commit was answered, read as
    [get_latest_commit_sha] reads it. *)
Lemma get_latest_commit_sha_eq env owner repo branch w :
  get_latest_commit_sha env owner repo branch w
  = (match env_get env (length (w_log w)) (commits_url owner repo branch) with
     | Response status body =>
         if (status =? 200)%Z then
           match body with
           | BodyJson fields =>
               Ret (snd <$> List.find (fun kv => String.eqb (fst kv) "sha")
                                      fields)
           | _ => Ret None
           end
         else Ret None
     | RequestRaises e => if is_Exception e then Ret None else Raise e
     end,
     add_event (EvGet (commits_url owner repo branch)) w).
Proof.
  unfold get_latest_commit_sha, catch, mbind, M_bind, bind, requests_get.
  destruct (env_get env _ _) as [status body | e]; simpl.
  - destruct (status =? 200)%Z; [| done]. by destruct body.
  - unfold except_Exception. by destruct (is_Exception e).
Qed.

Lemma extract_repo_info_cases url :
  (forall w, extract_repo_info url w = (Raise ValueError, w))
  \/ exists owner repo,
       forall w, extract_repo_info url w = (Ret (owner, repo), w).
Proof.
  unfold extract_repo_info. cbv zeta.
  destruct (Py.contains "github.com" _); [| by left].
  destruct (Py.split "/" _) as [| owner [| repo rest]];
    [by left | by left |].
  right. by exists owner, repo.
Qed.

Lemma updated_same (sha : option string) : updated sha sha = false.
Proof.
  unfold updated. rewrite bool_decide_eq_true_2 by done.
  apply andb_false_r.
Qed.

(** With a URL that [extract_repo_info] rejects, a poll asks nothing and
    reports no update, and the initial revisions stay unknown. *)
Lemma check_for_updates_invalid env self w :
  (forall w, extract_repo_info (fe_repo_url self) w = (Raise ValueError, w))
  \/ (forall w, extract_repo_info (be_repo_url self) w
                = (Raise ValueError, w)) ->
  check_for_updates env self w = (Ret (false, None, None), w)
  /\ initial_shas env self w = (Ret self, w).
Proof.
  intros Hbad.
  unfold check_for_updates, initial_shas, catch, mbind, M_bind, bind.
  destruct Hbad as [Hfe | Hbe].
  - by rewrite !Hfe.
  - destruct (extract_repo_info_cases (fe_repo_url self))
      as [Hfe | (owner & repo & Hfe)]; rewrite !Hfe; [done |].
    by rewrite !Hbe.
Qed.

(** A loop whose polls change nothing but the log. *)
Lemma quiet_loop env (P : event -> Prop) self :
  (forall w, exists w',
     poll_and_deploy env self w = (Ret self, w')
     /\ w_fs w' = w_fs w /\ events_only P w w') ->
  (forall seconds, P (EvSleep seconds)) ->
  forall iterations w,
    (main_loop env iterations self w).1.2 = self
    /\ w_fs (main_loop env iterations self w).2 = w_fs w
    /\ events_only P w (main_loop env iterations self w).2.
Proof.
  intros Hpoll Hsleep iterations.
  induction iterations as [| n IH]; intros w; simpl.
  { split; [done |]. split; [done | apply events_only_refl]. }
  destruct (Hpoll w) as (w1 & -> & Hfs1 & Hev1).
  pose proof (time_sleep_fs env (poll_interval self) w1) as Hfs2.
  pose proof (time_sleep_events P env (poll_interval self)
                (Hsleep _) w1) as Hev2.
  destruct (time_sleep env (poll_interval self) w1) as [[[] | e] w2];
    simpl in *.
  - destruct (IH w2) as (Hself & Hfs & Hev).
    split; [done |]. split; [congruence |].
    eapply events_only_trans; [exact Hev1 |].
    eapply events_only_trans; [exact Hev2 | exact Hev].
  - split; [done |]. split; [congruence |].
    eapply events_only_trans; [exact Hev1 | exact Hev2].
Qed.

Lemma steady_get env owner repo branch w :
  steady_upstream env ->
  get_latest_commit_sha env owner repo branch w
  = ((get_latest_commit_sha env owner repo branch (mkWorld ∅ [])).1,
     add_event (EvGet (commits_url owner repo branch)) w).
Proof.
  intros Hsteady. rewrite !get_latest_commit_sha_eq. simpl.
  by rewrite (Hsteady (length (w_log w)) 0).
Qed.

Lemma add_get_events (P : event -> Prop) url w :
  P (EvGet url) -> events_only P w (add_event (EvGet url) w).
Proof. intros HP. by apply (events_only_one P (EvGet url)). Qed.

(** The world after a poll: at most two requests were added. *)
Lemma check_for_updates_world env self w :
  exists new,
    (check_for_updates env self w).2 = mkWorld (w_fs w) (new ++ w_log w)
    /\ Forall is_get new /\ length new <= 2.
Proof.
  assert (forall new : list event,
            Forall is_get new -> length new <= 2 ->
            forall w', w' = mkWorld (w_fs w) (new ++ w_log w) ->
            exists new, w' = mkWorld (w_fs w) (new ++ w_log w)
                        /\ Forall is_get new /\ length new <= 2) as Hex.
  { intros new ?? w' ->. by exists new. }
  assert (w = mkWorld (w_fs w) ([] ++ w_log w)) as Hw by by destruct w.
  destruct (extract_repo_info_cases (fe_repo_url self))
    as [Hfe | (fe_owner & fe_repo & Hfe)].
  { destruct (check_for_updates_invalid env self w (or_introl Hfe))
      as [-> _]. apply (Hex []); [done | simpl; lia | done]. }
  destruct (extract_repo_info_cases (be_repo_url self))
    as [Hbe | (be_owner & be_repo & Hbe)].
  { destruct (check_for_updates_invalid env self w (or_intror Hbe))
      as [-> _]. apply (Hex []); [done | simpl; lia | done]. }
  unfold check_for_updates, catch, mbind, M_bind, bind.
  rewrite Hfe; cbv beta iota; rewrite Hbe; cbv beta iota.
  rewrite get_latest_commit_sha_eq.
  set (fe_url := commits_url fe_owner fe_repo "main").
  set (be_url := commits_url be_owner be_repo "main").
  assert (forall r : res (bool * option string * option string),
            exists new,
              (r, add_event (EvGet fe_url) w).2
              = mkWorld (w_fs w) (new ++ w_log w)
              /\ Forall is_get new /\ length new <= 2) as Hone.
  { intros r. apply (Hex [EvGet fe_url]);
      [by apply Forall_singleton | simpl; lia | done]. }
  assert (forall r : res (bool * option string * option string),
            exists new,
              (r, add_event (EvGet be_url) (add_event (EvGet fe_url) w)).2
              = mkWorld (w_fs w) (new ++ w_log w)
              /\ Forall is_get new /\ length new <= 2) as Htwo.
  { intros r. apply (Hex [EvGet be_url; EvGet fe_url]);
      [by repeat constructor | simpl; lia | done]. }
  destruct (env_get env (length (w_log w)) fe_url) as [status body | e];
    [destruct (status =? 200)%Z; [destruct body |] | destruct e];
    cbv beta iota; simpl is_Exception; cbv beta iota;
    try apply Hone.
  all: rewrite get_latest_commit_sha_eq; fold be_url.
  all: destruct (env_get env _ be_url) as [status' body' | e'];
         [destruct (status' =? 200)%Z; [destruct body' |] | destruct e'];
         cbv beta iota; simpl is_Exception; cbv beta iota.
  all: repeat match goal with
         | |- context [if ?b then _ else _] => destruct b
         end.
  all: apply Htwo.
Qed.

End Polls.

(** X6: [get_latest_commit_sha] sends exactly one request, to the commits
    URL of the branch, and changes nothing else.  The only exception that
    leaves it is an interrupt of that request; and a revision is returned
    only when the answer was 200 with a JSON body whose field [sha] is that
    revision. *)
Theorem get_latest_commit_sha_asks_once (env : Env)
    (owner repo branch : string) (w : World) :
  let url := "https://api.github.com/repos/" +:+ owner +:+ "/" +:+ repo
               +:+ "/commits/" +:+ branch in
  let r := DeployWatcher.get_latest_commit_sha env owner repo branch w in
  r.2 = add_event (EvGet url) w
  /\ (forall e, r.1 = Raise e ->
        e = KeyboardInterrupt
        /\ env_get env (length (w_log w)) url = RequestRaises e)
  /\ (forall sha, r.1 = Ret (Some sha) ->
        exists fields,
          env_get env (length (w_log w)) url = Response 200 (BodyJson fields)
          /\ snd <$> List.find (fun kv => String.eqb (fst kv) "sha") fields
             = Some sha).
Proof.
  intros url r. subst r. rewrite get_latest_commit_sha_eq. fold url. simpl.
  split; [done |].
  destruct (env_get env (length (w_log w)) url) as [status body | e'].
  - split.
    + intros e. destruct (status =? 200)%Z; [| done]. by destruct body.
    + intros sha. destruct (status =? 200)%Z eqn:Hs; [| done].
      apply Z.eqb_eq in Hs as ->.
      destruct body as [fields | |]; [| done | done].
      intros [= H]. by exists fields.
  - split.
    + intros e. destruct e'; simpl; by intros [= <-].
    + intros sha. by destruct (is_Exception e').
Qed.

(** X7: a poll only asks.  [check_for_updates] leaves the file system as
    it is, does nothing to the outside but at most two requests, and no
    exception leaves it but an interrupt. *)
Theorem check_for_updates_only_asks (env : Env) (self : DeployWatcher.t)
    (w : World) :
  let r := DeployWatcher.check_for_updates env self w in
  w_fs r.2 = w_fs w
  /\ (exists new,
        w_log r.2 = new ++ w_log w /\ Forall is_get new /\ length new <= 2)
  /\ match r.1 with
     | Raise e => e = KeyboardInterrupt
     | Ret _ => True
     end.
Proof.
  intros r. subst r.
  destruct (check_for_updates_world env self w) as (new & Hw & Hnew & Hlen).
  rewrite Hw. simpl. split; [done |]. split; [by exists new |].
  apply catch_all_raises.
Qed.
(** ** The watcher: what does not start a deploy *)

Section Idle.
Import DeployWatcher.

Local Abbreviation commits_url owner repo branch :=
  ("https://api.github.com/repos/" +:+ owner +:+ "/" +:+ repo
     +:+ "/commits/" +:+ branch).

Lemma poll_and_deploy_invalid env self w :
  (forall w, extract_repo_info (fe_repo_url self) w = (Raise ValueError, w))
  \/ (forall w, extract_repo_info (be_repo_url self) w
                = (Raise ValueError, w)) ->
  poll_and_deploy env self w = (Ret self, w).
Proof.
  intros Hbad. unfold poll_and_deploy, mbind, M_bind, bind.
  by destruct (check_for_updates_invalid env self w Hbad) as [-> _].
Qed.

Lemma run_invalid env iterations self w :
  (forall w, extract_repo_info (fe_repo_url self) w = (Raise ValueError, w))
  \/ (forall w, extract_repo_info (be_repo_url self) w
                = (Raise ValueError, w)) ->
  (run env iterations self w).1.2 = self
  /\ w_fs (run env iterations self w).2 = w_fs w
  /\ events_only is_sleep w (run env iterations self w).2.
Proof.
  intros Hbad. unfold run.
  destruct (check_for_updates_invalid env self w Hbad) as [_ ->].
  apply quiet_loop; [| done].
  intros w1. exists w1. rewrite (poll_and_deploy_invalid env self w1 Hbad).
  split; [done |]. split; [done | apply events_only_refl].
Qed.

(** The poll of a watcher whose stored revisions are the ones GitHub
    keeps answering. *)
Lemma poll_and_deploy_steady env self fe_owner fe_repo be_owner be_repo w :
  steady_upstream env ->
  (forall w, extract_repo_info (fe_repo_url self) w
             = (Ret (fe_owner, fe_repo), w)) ->
  (forall w, extract_repo_info (be_repo_url self) w
             = (Ret (be_owner, be_repo), w)) ->
  (get_latest_commit_sha env fe_owner fe_repo "main" (mkWorld ∅ [])).1
  = Ret (fe_last_sha self) ->
  (get_latest_commit_sha env be_owner be_repo "main" (mkWorld ∅ [])).1
  = Ret (be_last_sha self) ->
  poll_and_deploy env self w
  = (Ret self,
     add_event (EvGet (commits_url be_owner be_repo "main"))
       (add_event (EvGet (commits_url fe_owner fe_repo "main")) w)).
Proof.
  intros Hsteady Hfe Hbe Hfe_sha Hbe_sha.
  unfold poll_and_deploy, check_for_updates, catch, mbind, M_bind, bind.
  rewrite Hfe; cbv beta iota; rewrite Hbe; cbv beta iota.
  rewrite (steady_get env fe_owner fe_repo "main" w Hsteady), Hfe_sha.
  cbv beta iota.
  rewrite (steady_get env be_owner be_repo "main" _ Hsteady), Hbe_sha.
  cbv beta iota. by rewrite !updated_same.
Qed.

End Idle.

(** X8: a watcher with a repository URL that does not mention
    [github.com] only sleeps.  Through any number of passes of its loop it
    sends no request, runs no command and starts no deploy, its stored
    revisions stay what they were, and the file system is untouched; the
    [ValueError] of [extract_repo_info] is caught in every poll. *)
Theorem watcher_with_foreign_url_only_sleeps (env : Env) (iterations : nat)
    (self : DeployWatcher.t) (w : World) :
  Py.contains "github.com" (DeployWatcher.fe_repo_url self) = false
  \/ Py.contains "github.com" (DeployWatcher.be_repo_url self) = false ->
  let r := DeployWatcher.run env iterations self w in
  r.1.2 = self /\ w_fs r.2 = w_fs w /\ events_only is_sleep w r.2.
Proof.
  intros Hurl. apply run_invalid.
  destruct Hurl as [Hurl | Hurl]; [left | right]; intros w1;
    by apply extract_repo_info_foreign.
Qed.

Lemma watcher_with_foreign_url_only_sleeps_witness :
  let self :=
    DeployWatcher.mk ["app"] (Some "t0ken")
      "https://gitlab.com/Ayash13/Jalin-App-v2.git"
      "https://github.com/Ayash13/JalinApp-REN.git" None None 300 in
  events_only is_sleep demo_world (DeployWatcher.run demo_env 3 self demo_world).2.
Proof.
  intros self.
  apply (watcher_with_foreign_url_only_sleeps demo_env 3 self demo_world).
  left. reflexivity.
Defined.

(** X9: while the answers of GitHub do not change, the watcher never
    deploys.  Whatever it has stored when [run] starts, [run] takes the
    current revisions as the last seen ones, and through any number of
    passes of the loop every poll then finds them unchanged: nothing is
    done to the outside but requests and pauses (no command, no merge, no
    rename), and the file system stays as it is. *)
Theorem steady_upstream_is_never_deployed (env : Env) (iterations : nat)
    (self : DeployWatcher.t) (w : World) :
  steady_upstream env ->
  let r := DeployWatcher.run env iterations self w in
  w_fs r.2 = w_fs w /\ events_only is_get_or_sleep w r.2.
Proof.
  intros Hsteady r. subst r.
  destruct (extract_repo_info_cases (DeployWatcher.fe_repo_url self))
    as [Hfe | (fe_owner & fe_repo & Hfe)].
  { destruct (run_invalid env iterations self w (or_introl Hfe))
      as (_ & Hfs & Hev). split; [done |].
    eapply events_only_weaken; [| exact Hev]. by intros []. }
  destruct (extract_repo_info_cases (DeployWatcher.be_repo_url self))
    as [Hbe | (be_owner & be_repo & Hbe)].
  { destruct (run_invalid env iterations self w (or_intror Hbe))
      as (_ & Hfs & Hev). split; [done |].
    eapply events_only_weaken; [| exact Hev]. by intros []. }
  unfold DeployWatcher.run, DeployWatcher.initial_shas, catch, mbind, M_bind,
    bind.
  rewrite Hfe; cbv beta iota; rewrite Hbe; cbv beta iota.
  rewrite (steady_get env fe_owner fe_repo "main" w Hsteady).
  destruct (get_latest_commit_sha_returns env fe_owner fe_repo "main"
              (mkWorld ∅ []) _ _ (surjective_pairing _))
    as [Hfe_sha | [fe_sha Hfe_sha]]; rewrite Hfe_sha; cbv beta iota.
  { simpl. split; [done |]. by apply add_get_events. }
  rewrite (steady_get env be_owner be_repo "main" _ Hsteady).
  destruct (get_latest_commit_sha_returns env be_owner be_repo "main"
              (mkWorld ∅ []) _ _ (surjective_pairing _))
    as [Hbe_sha | [be_sha Hbe_sha]]; rewrite Hbe_sha; cbv beta iota.
  { simpl. split; [done |].
    eapply events_only_trans; by apply add_get_events. }
  simpl.
  set (self0 := DeployWatcher.set_last_shas fe_sha be_sha self).
  match goal with
  | |- context [DeployWatcher.main_loop env iterations self0 ?w_start] =>
      set (w0 := w_start)
  end.
  destruct (quiet_loop env is_get_or_sleep self0) with (iterations := iterations)
    (w := w0) as (_ & Hfs & Hev); [| done |].
  { intros w1. eexists.
    split; [by apply (poll_and_deploy_steady env self0 fe_owner fe_repo
                        be_owner be_repo) |].
    split; [done |].
    eapply events_only_trans; by apply add_get_events. }
  split; [done |].
  eapply events_only_trans; [| exact Hev].
  eapply events_only_trans; by apply add_get_events.
Qed.

Lemma steady_upstream_is_never_deployed_witness :
  events_only is_get_or_sleep demo_world
    (DeployWatcher.run demo_env 4 demo_watcher demo_world).2.
Proof.
  apply (steady_upstream_is_never_deployed demo_env 4 demo_watcher demo_world).
  intros n m url. reflexivity.
Defined.

(** X10: a rebuild that runs into its timeout is tried again with the
    next compose command.  In the loop over [compose_commands] the
    [except (FileNotFoundError, TimeoutExpired)] clause covers the
    rebuild as well as the probe: when the probe of a compose command
    answers 0 and its rebuild raises one of the two, the loop goes on
    with the remaining commands from the world the rebuild left. *)
Theorem rebuild_timeout_tries_next_command (env : Env)
    (self : DeployWatcher.t) (cmd_base : list string) (project_flag : string)
    (commands : list (list string * string)) (w w1 w2 : World) (e : exn) :
  subprocess_run env (cmd_base ++ ["version"]) None false w = (Ret 0%Z, w1) ->
  subprocess_run env (DeployWatcher.rebuild_cmd cmd_base project_flag)
    (Some (if Fs.exists_ (w_fs w1) [".dockerenv"] then ["app"; "project"]
           else DeployWatcher.base_dir self)) false w1
  = (Raise e, w2) ->
  e = TimeoutExpired \/ e = FileNotFoundError ->
  DeployWatcher.rebuild_with env self ((cmd_base, project_flag) :: commands) w
  = DeployWatcher.rebuild_with env self commands w2.
Proof.
  intros Hprobe Hbuild He.
  cbn [DeployWatcher.rebuild_with].
  unfold catch, mbind, M_bind, bind, path_exists, gets.
  rewrite Hprobe. cbv beta iota. change (0 =? 0)%Z with true.
  cbv beta iota.
  rewrite Hbuild. by destruct He as [-> | ->].
Qed.

Lemma rebuild_timeout_tries_next_command_witness :
  DeployWatcher.rebuild_with slow_rebuild_env demo_watcher
    DeployWatcher.compose_commands demo_world
  = DeployWatcher.rebuild_with slow_rebuild_env demo_watcher
      [(["docker-compose"], "--project-name")]
      (mkWorld demo_fs
         [EvRun (DeployWatcher.rebuild_cmd ["docker"; "compose"] "-p")
            (Some ["app"; "project"]);
          EvRun ["docker"; "compose"; "version"] None]).
Proof.
  apply (rebuild_timeout_tries_next_command slow_rebuild_env demo_watcher
           ["docker"; "compose"] "-p" [(["docker-compose"], "--project-name")]
           demo_world
           (mkWorld demo_fs [EvRun ["docker"; "compose"; "version"] None])
           _ TimeoutExpired).
  - vm_compute. reflexivity.
  - vm_compute. reflexivity.
  - by left.
Defined.

(** X11: no exception leaves the body of the loop but an interrupt.  Both
    [check_for_updates] and [trigger_redeploy] end in [except Exception],
    so a pass through [poll_and_deploy] returns or is interrupted from the
    keyboard. *)
Theorem loop_body_raises_only_interrupts (env : Env) (self : DeployWatcher.t)
    (w : World) :
  match (DeployWatcher.poll_and_deploy env self w).1 with
  | Raise e => e = KeyboardInterrupt
  | Ret _ => True
  end.
Proof.
  unfold DeployWatcher.poll_and_deploy, mbind, M_bind, bind.
  pose proof (catch_all_raises
                (A := bool * option string * option string)) as Hcheck.
  unfold DeployWatcher.check_for_updates.
  match goal with
  | |- context [catch ?m (except_Exception (ret ?a)) w] =>
      specialize (Hcheck m a w);
      destruct (catch m (except_Exception (ret a)) w)
        as [[[[has_updates fe_sha] be_sha] | e] w1]
  end; [| exact Hcheck].
  destruct has_updates; [| done].
  pose proof (catch_all_raises (A := bool)) as Hredeploy.
  unfold DeployWatcher.trigger_redeploy.
  match goal with
  | |- context [catch ?m (except_Exception (ret ?a)) w1] =>
      specialize (Hredeploy m a w1);
      destruct (catch m (except_Exception (ret a)) w1) as [[[] | e] w2]
  end; done.
Qed.
(** ** The agent: preparation, build and deploy *)

Lemma bind_Raise_inv {A B} (m : M A) (k : A -> M B) (w w' : World) (e : exn) :
  (m ≫= k) w = (Raise e, w') ->
  m w = (Raise e, w')
  \/ exists a w1, m w = (Ret a, w1) /\ k a w1 = (Raise e, w').
Proof.
  unfold mbind, M_bind, bind. destruct (m w) as [[a | e'] w1].
  - intros H. right. by exists a, w1.
  - intros [= <- <-]. by left.
Qed.

Lemma catch_Raise_inv {A} (m : M A) (h : exn -> option (M A)) (w w' : World)
    (e : exn) :
  catch m h w = (Raise e, w') ->
  (m w = (Raise e, w') /\ h e = None)
  \/ exists e1 w1 m',
       m w = (Raise e1, w1) /\ h e1 = Some m' /\ m' w1 = (Raise e, w').
Proof.
  unfold catch. destruct (m w) as [[a' | e1] w1]; [done |].
  destruct (h e1) as [m' |] eqn:He; [| intros [= <- <-]; by left].
  right. by exists e1, w1, m'.
Qed.

Lemma for_each_Raise_inv {A} (l : list A) (body : A -> M unit) (w w' : World)
    (e : exn) :
  for_each l body w = (Raise e, w') ->
  exists x w1, x ∈ l /\ body x w1 = (Raise e, w').
Proof.
  revert w. induction l as [| x l IH]; intros w; simpl; [done |].
  intros [H | (a & w1 & _ & H)]%bind_Raise_inv.
  - exists x, w. split; [by left | done].
  - destruct (IH _ H) as (y & w2 & Hy & Hb).
    exists y, w2. split; [by right | done].
Qed.

Lemma subprocess_run_log env cmd cwd check w r w' :
  subprocess_run env cmd cwd check w = (r, w') ->
  w_log w' = EvRun cmd cwd :: w_log w.
Proof.
  unfold subprocess_run.
  destruct (env_proc env _ cmd cwd _) as [[rc | e] fs'].
  - destruct (check && negb (rc =? 0)%Z); by intros [= <- <-].
  - by intros [= <- <-].
Qed.

(** A call of [subprocess.run] that raises [CalledProcessError] is a
    failed command. *)
Lemma subprocess_run_failed env cmd cwd check w w' :
  subprocess_run env cmd cwd check w = (Raise CalledProcessError, w') ->
  ended_in_failed_command env cmd cwd w'.
Proof.
  unfold subprocess_run. intros H.
  exists (w_log w), (w_fs w).
  destruct (env_proc env _ cmd cwd _) as [[rc | e] fs'] eqn:Hproc; simpl.
  - destruct check; simpl in H; [| done].
    destruct (rc =? 0)%Z eqn:Hrc; simpl in H; [done |].
    injection H as <-. split; [done |]. by apply Z.eqb_neq.
  - by injection H as -> <-.
Qed.

(** Without [check], only the call itself can raise. *)
Lemma subprocess_run_unchecked env cmd cwd w w' :
  check_raises_alone env ->
  subprocess_run env cmd cwd false w <> (Raise CalledProcessError, w').
Proof.
  intros [Hproc _]. unfold subprocess_run.
  specialize (Hproc (length (w_log w)) cmd cwd (w_fs w)).
  destruct (env_proc env _ cmd cwd _) as [[rc | e] fs']; simpl in *;
    [done |].
  intros [= -> _]. done.
Qed.

Section Preparation.
Import DeploymentAgent.

Lemma is_running_in_docker_true (w : World) :
  in_docker (w_fs w) <-> is_running_in_docker w = (Ret true, w).
Proof.
  unfold is_running_in_docker, gets, in_docker. unfold path in *. split.
  - intros [-> | (content & -> & ->)]; [done |].
    by destruct (Fs.exists_ (w_fs w) [".dockerenv"]).
  - destruct (Fs.exists_ (w_fs w) [".dockerenv"]); [by left |].
    destruct (w_fs w !! ["proc"; "self"; "cgroup"]) as [[content |] |];
      intros [= H]; right; by exists content.
Qed.

Lemma is_running_in_docker_world (w : World) :
  (is_running_in_docker w).2 = w.
Proof. done. Qed.

Lemma on_CalledProcessError_inv {A} (m' : M A) e m :
  on_CalledProcessError m' e = Some m -> e = CalledProcessError /\ m = m'.
Proof. destruct e; simpl; intros [= <-]; done. Qed.

End Preparation.

(** X12: inside a container the two preparations are skipped.  When
    [/.dockerenv] exists or [/proc/self/cgroup] mentions docker,
    [setup_backend] and [setup_frontend] return [True] without running a
    command or touching a file. *)
Theorem setup_is_skipped_in_docker (env : Env) (self : DeploymentAgent.t)
    (w : World) :
  in_docker (w_fs w) ->
  DeploymentAgent.setup_backend env self w = (Ret true, w)
  /\ DeploymentAgent.setup_frontend env self w = (Ret true, w).
Proof.
  intros Hdocker%is_running_in_docker_true.
  unfold DeploymentAgent.setup_backend, DeploymentAgent.setup_frontend,
    mbind, M_bind, bind.
  by rewrite Hdocker.
Qed.

Lemma setup_is_skipped_in_docker_witness :
  DeploymentAgent.setup_backend (failing_env ["which"; "node"]) demo_agent
    demo_world = (Ret true, demo_world)
  /\ DeploymentAgent.setup_frontend (failing_env ["which"; "node"]) demo_agent
       demo_world = (Ret true, demo_world).
Proof.
  apply (setup_is_skipped_in_docker (failing_env ["which"; "node"])
           demo_agent demo_world).
  left. reflexivity.
Defined.

(** X13: [setup_backend] reports failure only for a command that failed.
    When it returns [False], the last thing done was a command run in the
    backend directory that failed: the creation of the virtual
    environment, which is started only when [venv] does not exist, or one
    of the two [pip install] commands. *)
Theorem setup_backend_fails_only_with_a_command (env : Env)
    (self : DeploymentAgent.t) (w w' : World) :
  DeploymentAgent.setup_backend env self w = (Ret false, w') ->
  let venv_path := DeploymentAgent.backend_dir self ++ ["venv"] in
  exists cmd,
    ended_in_failed_command env cmd (Some (DeploymentAgent.backend_dir self)) w'
    /\ ((cmd = [env_executable env; "-m"; "venv"; Fs.to_string venv_path]
         /\ Fs.exists_ (w_fs w) venv_path = false)
        \/ exists pip_cmd,
             cmd = [pip_cmd; "install"; "--upgrade"; "pip"]
             \/ cmd = [pip_cmd; "install"; "-r";
                       Fs.to_string (DeploymentAgent.backend_dir self
                                       ++ ["requirements.txt"])]).
Proof.
  intros H venv_path. unfold DeploymentAgent.setup_backend in H.
  fold venv_path in H.
  bind_inv H. destruct a; [done |].
  injection Hstep as _ <-.
  bind_inv H. injection Hstep as <- <-.
  bind_inv H. destruct a as [|]; cbn [negb] in H.
  - (* the venv is there: one of the pip commands *)
    clear Hstep.
    bind_inv H. bind_inv H. clear Hstep Hstep0.
    destruct (a && a0); [| done].
    apply catch_Ret_inv in H as [H | (e & w5 & m' & Hm & Hh & H)].
    { bind_inv H. bind_inv H. done. }
    apply on_CalledProcessError_inv in Hh as [-> ->].
    injection H as <-.
    match type of Hm with
    | context [subprocess_run env (?pip :: _)] => set (pip_cmd := pip) in Hm
    end.
    apply bind_Raise_inv in Hm as [Hm | (rc1 & w6 & _ & Hm)].
    { eexists. split; [by eapply subprocess_run_failed |].
      right. exists pip_cmd. by left. }
    apply bind_Raise_inv in Hm as [Hm | (rc2 & w7 & _ & Hm)]; [| done].
    eexists. split; [by eapply subprocess_run_failed |].
    right. exists pip_cmd. by right.
  - (* the creation of the venv failed *)
    injection H as <-.
    destruct (Fs.exists_ (w_fs w) venv_path) eqn:Hvenv; [done |].
    apply catch_Ret_inv in Hstep as [H | (e & w5 & m' & Hm & Hh & H)].
    { bind_inv H. done. }
    apply on_CalledProcessError_inv in Hh as [-> ->].
    injection H as <-.
    apply bind_Raise_inv in Hm as [Hm | (rc1 & w6 & _ & Hm)]; [| done].
    eexists. split; [by eapply subprocess_run_failed |]. by left.
Qed.

Lemma setup_backend_fails_only_with_a_command_witness :
  exists cmd,
    ended_in_failed_command
      (failing_env ["/app/backend/venv/bin/pip"; "install"; "-r";
                    "/app/backend/requirements.txt"])
      cmd (Some ["app"; "backend"])
      (DeploymentAgent.setup_backend
         (failing_env ["/app/backend/venv/bin/pip"; "install"; "-r";
                       "/app/backend/requirements.txt"])
         demo_agent (mkWorld (<[ ["app"; "backend"; "venv"] := Dir ]> host_fs) [])).2.
Proof.
  destruct (setup_backend_fails_only_with_a_command
              (failing_env ["/app/backend/venv/bin/pip"; "install"; "-r";
                            "/app/backend/requirements.txt"])
              demo_agent
              (mkWorld (<[ ["app"; "backend"; "venv"] := Dir ]> host_fs) [])
              (DeploymentAgent.setup_backend
                 (failing_env ["/app/backend/venv/bin/pip"; "install"; "-r";
                               "/app/backend/requirements.txt"])
                 demo_agent
                 (mkWorld (<[ ["app"; "backend"; "venv"] := Dir ]> host_fs)
                    [])).2)
    as (cmd & Hcmd & _).
  - vm_compute. reflexivity.
  - by exists cmd.
Defined.
(** X14: [setup_frontend] reports failure only when Node.js is missing or
    the dependencies cannot be installed.  When it returns [False], the
    last thing done was [which node], which failed, or
    [npm install --legacy-peer-deps], which failed right after
    [npm install --force]; a failing [npm run build] is not among the
    reasons. *)
Theorem setup_frontend_fails_only_without_node_or_packages (env : Env)
    (self : DeploymentAgent.t) (w w' : World) :
  DeploymentAgent.setup_frontend env self w = (Ret false, w') ->
  let frontend := Some (DeploymentAgent.frontend_dir self) in
  ended_in_failed_command env ["which"; "node"] None w'
  \/ (ended_in_failed_command env ["npm"; "install"; "--legacy-peer-deps"]
        frontend w'
      /\ exists rest,
           w_log w'
           = EvRun ["npm"; "install"; "--legacy-peer-deps"] frontend
               :: EvRun ["npm"; "install"; "--force"] frontend :: rest).
Proof.
  intros H frontend. unfold DeploymentAgent.setup_frontend in H.
  fold frontend in H.
  bind_inv H. destruct a; [done |]. injection Hstep as _ <-.
  bind_inv H. destruct a; cbn [negb] in H.
  - (* Node.js is there: the installation failed *)
    right. clear Hstep.
    bind_inv H. clear Hstep. destruct a; [| done].
    bind_inv H. destruct a; cbn [negb] in H.
    { bind_inv H. done. }
    injection H as <-.
    apply catch_Ret_inv in Hstep as [H | (e & w5 & m' & Hforce & Hh & H)].
    { bind_inv H. done. }
    apply on_CalledProcessError_inv in Hh as [-> ->].
    apply bind_Raise_inv in Hforce as [Hforce | (rc & w6 & _ & Hforce)];
      [| done].
    apply catch_Ret_inv in H as [H | (e & w7 & m' & Hlegacy & Hh & H)].
    { bind_inv H. done. }
    apply on_CalledProcessError_inv in Hh as [-> ->].
    injection H as <-.
    apply bind_Raise_inv in Hlegacy as [Hlegacy | (rc & w6 & _ & Hlegacy)];
      [| done].
    split; [by eapply subprocess_run_failed |].
    apply subprocess_run_log in Hforce, Hlegacy.
    eexists. rewrite Hlegacy, Hforce. reflexivity.
  - (* [check_nodejs] returned [False] *)
    left. injection H as <-.
    unfold DeploymentAgent.check_nodejs in Hstep.
    bind_inv Hstep. destruct a.
    { bind_inv Hstep. done. }
    injection Hstep as <-.
    unfold DeploymentAgent.check_command in Hstep0.
    apply catch_Ret_inv in Hstep0 as [H | (e & w5 & m' & Hwhich & Hh & H)].
    { bind_inv H. done. }
    apply on_CalledProcessError_inv in Hh as [-> ->].
    injection H as <-.
    apply bind_Raise_inv in Hwhich as [Hwhich | (rc & w6 & _ & Hwhich)];
      [| done].
    by eapply subprocess_run_failed.
Qed.

Lemma setup_frontend_fails_only_without_node_or_packages_witness :
  ended_in_failed_command (failing_env ["which"; "node"]) ["which"; "node"]
    None
    (DeploymentAgent.setup_frontend (failing_env ["which"; "node"])
       demo_agent host_world).2
  \/ (ended_in_failed_command (failing_env ["which"; "node"])
        ["npm"; "install"; "--legacy-peer-deps"] (Some ["app"; "frontend"])
        (DeploymentAgent.setup_frontend (failing_env ["which"; "node"])
           demo_agent host_world).2
      /\ exists rest,
           w_log (DeploymentAgent.setup_frontend
                    (failing_env ["which"; "node"]) demo_agent host_world).2
           = EvRun ["npm"; "install"; "--legacy-peer-deps"]
               (Some ["app"; "frontend"])
               :: EvRun ["npm"; "install"; "--force"]
                    (Some ["app"; "frontend"]) :: rest).
Proof.
  apply (setup_frontend_fails_only_without_node_or_packages
           (failing_env ["which"; "node"]) demo_agent host_world).
  vm_compute. reflexivity.
Defined.

(** X15: a build that succeeds has run two commands.  When
    [build_docker_images] returns [True], the manifest and both working
    trees were in place, and exactly two commands were run: the probe
    [docker compose version] and then one build command, for the services
    [frontend] and [backend] only, in the project directory. *)
Theorem build_success_ran_probe_and_build (env : Env)
    (self : DeploymentAgent.t) (w w' : World) :
  DeploymentAgent.build_docker_images env self w = (Ret true, w') ->
  build_gate self (w_fs w) = true
  /\ exists cmd dir,
       w_log w'
       = EvRun cmd (Some dir)
           :: EvRun ["docker"; "compose"; "version"] None :: w_log w
       /\ cmd ∈ [ ["docker"; "compose"; "-p"; "jalindeploy"; "build";
                   "--parallel"; "frontend"; "backend"];
                  ["docker-compose"; "--project-name"; "jalindeploy";
                   "build"; "--parallel"; "frontend"; "backend"] ]
       /\ dir ∈ [ ["app"; "project"]; DeploymentAgent.base_dir self ].
Proof.
  intros H.
  destruct (build_gate self (w_fs w)) eqn:Hgate;
    [| by rewrite (build_docker_images_closed env self w Hgate) in H].
  split; [done |].
  unfold DeploymentAgent.build_docker_images in H.
  bind_inv H. destruct a; [| done]. injection Hstep as _ <-.
  bind_inv H. destruct a; [| done]. injection Hstep as _ <-.
  bind_inv H. destruct a; [| done]. injection Hstep as _ <-.
  cbn [negb] in H.
  apply catch_Ret_inv in H as [H | (e & w5 & m' & _ & Hh & H)].
  2:{ apply on_CalledProcessError_inv in Hh as [-> ->]. done. }
  bind_inv H. rename a into build_cmd.
  bind_inv H. rename a into dir.
  bind_inv H. injection H as <-.
  apply subprocess_run_log in Hstep1.
  assert (w1 = w0 /\ dir ∈ [ ["app"; "project"];
                              DeploymentAgent.base_dir self ])
    as [-> Hdir].
  { unfold DeploymentAgent.compose_dir in Hstep0. bind_inv Hstep0.
    injection Hstep0 as <- <-. injection Hstep2 as _ <-.
    split; [done |].
    match goal with
    | |- context [if ?b then _ else _] => destruct b
    end; [by left | right; by left]. }
  exists build_cmd, dir. rewrite Hstep1.
  apply catch_Ret_inv in Hstep as [H | (e & w5 & m' & Hprobe & Hh & H)].
  - bind_inv H. injection H as <- <-.
    apply subprocess_run_log in Hstep. rewrite Hstep.
    split; [done |]. split; [by left | done].
  - assert (m' = ret ["docker-compose"; "--project-name"; "jalindeploy";
                      "build"; "--parallel"; "frontend"; "backend"])
      as -> by (destruct e; simpl in Hh; try done; by injection Hh as <-).
    injection H as <- <-.
    apply bind_Raise_inv in Hprobe as [Hprobe | (rc & w6 & _ & Hprobe)];
      [| done].
    apply subprocess_run_log in Hprobe. rewrite Hprobe.
    split; [done |]. split; [right; by left | done].
Qed.

Lemma build_success_ran_probe_and_build_witness :
  build_gate demo_agent demo_fs = true
  /\ exists cmd dir,
       w_log (DeploymentAgent.build_docker_images demo_env demo_agent
                demo_world).2
       = EvRun cmd (Some dir)
           :: EvRun ["docker"; "compose"; "version"] None :: []
       /\ cmd ∈ [ ["docker"; "compose"; "-p"; "jalindeploy"; "build";
                   "--parallel"; "frontend"; "backend"];
                  ["docker-compose"; "--project-name"; "jalindeploy";
                   "build"; "--parallel"; "frontend"; "backend"] ]
       /\ dir ∈ [ ["app"; "project"]; ["app"] ].
Proof.
  apply (build_success_ran_probe_and_build demo_env demo_agent demo_world).
  vm_compute. reflexivity.
Defined.

(** X16: [deploy] reports failure only for the bring-up.  Where
    [CalledProcessError] comes from [check=True] alone, a [deploy] that
    returns [False] has as its last action the command
    [... up -d --no-deps --build frontend backend], which failed: a failing
    stop or removal of a container does not end the deploy, and after a
    failed bring-up no image is cleaned up. *)
Theorem deploy_fails_only_at_bring_up (env : Env) (self : DeploymentAgent.t)
    (w w' : World) :
  check_raises_alone env ->
  DeploymentAgent.deploy env self w = (Ret false, w') ->
  exists compose_cmd_base project_flag dir,
    (compose_cmd_base, project_flag)
      ∈ [ (["docker"; "compose"], "-p");
          (["docker-compose"], "--project-name") ]
    /\ ended_in_failed_command env
         (DeploymentAgent.up_cmd compose_cmd_base project_flag) (Some dir) w'.
Proof.
  intros Henv H. unfold DeploymentAgent.deploy in H.
  apply catch_Ret_inv in H as [H | (e & w5 & m' & Hbody & Hh & H)].
  { bind_inv H. destruct a as [compose_cmd_base project_flag].
    do 5 bind_inv H. done. }
  apply on_CalledProcessError_inv in Hh as [-> ->]. injection H as <-.
  apply bind_Raise_inv in Hbody as [Hprobe | (a & w1 & Hprobe & Hbody)].
  { (* the probe: its handler catches [CalledProcessError] *)
    apply catch_Raise_inv in Hprobe
      as [[_ Hh] | (e & w6 & m' & _ & Hh & Hm')]; [done |].
    destruct e; simpl in Hh; try done; by injection Hh as <-. }
  destruct a as [compose_cmd_base project_flag].
  assert ((compose_cmd_base, project_flag)
            ∈ [ (["docker"; "compose"], "-p");
                (["docker-compose"], "--project-name") ]) as Hbase.
  { apply catch_Ret_inv in Hprobe as [H | (e & w6 & m' & _ & Hh & H)].
    - bind_inv H. injection H as <- <- _. by left.
    - assert (m' = ret (["docker-compose"], "--project-name"))
        as -> by (destruct e; simpl in Hh; try done; by injection Hh as <-).
      injection H as <- <- _. right. by left. }
  apply bind_Raise_inv in Hbody as [Hdir | (dir & w2 & _ & Hbody)].
  { unfold DeploymentAgent.compose_dir in Hdir.
    apply bind_Raise_inv in Hdir as [Hdir | (? & ? & _ & Hdir)]; done. }
  apply bind_Raise_inv in Hbody as [Hstop | ([] & w3 & _ & Hbody)].
  { (* stopping and removing: [check=False] *)
    apply for_each_Raise_inv in Hstop as (container & w6 & _ & Hstop).
    apply bind_Raise_inv in Hstop as [Hstop | (rc & w7 & _ & Hstop)].
    { by apply subprocess_run_unchecked in Hstop. }
    apply bind_Raise_inv in Hstop as [Hstop | (rc' & w8 & _ & Hstop)];
      [| done].
    by apply subprocess_run_unchecked in Hstop. }
  apply bind_Raise_inv in Hbody as [Hsleep | ([] & w4 & _ & Hbody)].
  { (* the pause *)
    destruct Henv as [_ Hsleep']. unfold time_sleep in Hsleep.
    simpl in Hsleep. unfold mbind, M_bind, bind, clock, gets, log_event,
      modify in Hsleep. simpl in Hsleep.
    specialize (Hsleep' (length (w_log w3))).
    destruct (env_sleep env (length (w_log w3))) as [e |]; [| done].
    injection Hsleep as -> _. done. }
  apply bind_Raise_inv in Hbody as [Hup | (rc & w6 & _ & Hbody)].
  { exists compose_cmd_base, project_flag, dir. split; [done |].
    by eapply subprocess_run_failed. }
  apply bind_Raise_inv in Hbody as [Hclean | ([] & w7 & _ & Hbody)];
    [| done].
  (* the cleanup: [except Exception] *)
  apply for_each_Raise_inv in Hclean as (image & w8 & _ & Hclean).
  pose proof (catch_all_raises
                (subprocess_run env
                   ["docker"; "image"; "prune"; "-f"; "--filter";
                    "dangling=true"] None false;;
                 subprocess_run env ["docker"; "rmi"; "-f"; image] None false;;
                 ret tt) tt w8) as Hnone.
  rewrite Hclean in Hnone. done.
Qed.

Lemma deploy_fails_only_at_bring_up_witness :
  exists compose_cmd_base project_flag dir,
    ended_in_failed_command
      (failing_env (DeploymentAgent.up_cmd ["docker"; "compose"] "-p"))
      (DeploymentAgent.up_cmd compose_cmd_base project_flag) (Some dir)
      (DeploymentAgent.deploy
         (failing_env (DeploymentAgent.up_cmd ["docker"; "compose"] "-p"))
         demo_agent demo_world).2.
Proof.
  destruct (deploy_fails_only_at_bring_up
              (failing_env (DeploymentAgent.up_cmd ["docker"; "compose"] "-p"))
              demo_agent demo_world
              (DeploymentAgent.deploy
                 (failing_env
                    (DeploymentAgent.up_cmd ["docker"; "compose"] "-p"))
                 demo_agent demo_world).2)
    as (compose_cmd_base & project_flag & dir & _ & H).
  - split.
    + intros n cmd cwd fs. simpl. by destruct (bool_decide _).
    + done.
  - vm_compute. reflexivity.
  - by exists compose_cmd_base, project_flag, dir.
Defined.

(** X17: without a token the agent does nothing.  When [.env.local] is
    missing, or [GITHUB_TOKEN] is unset or empty, the first fetch returns
    [False] at once and the process of the agent exits with status 1: no
    request was sent, no command run, no file touched. *)
Theorem agent_without_token_does_nothing (env : Env)
    (fe_repo be_repo : string) (w : World) :
  Fs.exists_ (w_fs w) (env_base_dir env ++ [".env.local"]) = false
  \/ Py.truthy (env_getenv env "GITHUB_TOKEN") = false ->
  DeploymentAgent.main env fe_repo be_repo w = (1%Z, w).
Proof.
  intros Htoken.
  unfold DeploymentAgent.main, DeploymentAgent.__init__,
    DeploymentAgent.run, DeploymentAgent.clone_repository,
    mbind, M_bind, bind, path_exists, gets, ret.
  cbn [DeploymentAgent.github_token].
  assert (Py.truthy
            (if Fs.exists_ (w_fs w) (env_base_dir env ++ [".env.local"])
             then env_getenv env "GITHUB_TOKEN" else None) = false) as ->;
    [| done].
  destruct Htoken as [-> | Htoken]; [done |].
  by destruct (Fs.exists_ _ _).
Qed.

Lemma agent_without_token_does_nothing_witness :
  DeploymentAgent.main demo_env "https://github.com/Ayash13/Jalin-App-v2.git"
    "https://github.com/Ayash13/JalinApp-REN.git"
    (mkWorld (delete ["app"; ".env.local"] demo_fs) [])
  = (1%Z, mkWorld (delete ["app"; ".env.local"] demo_fs) []).
Proof.
  apply (agent_without_token_does_nothing demo_env).
  left. vm_compute. reflexivity.
Defined.

(** X18: a redeploy whose agent has no token stops after the agent.  The
    watcher starts [deploy_agent.py], the agent exits with status 1, and
    [trigger_redeploy] returns [False] without probing or running a
    compose command: the start of the agent is the only thing done. *)
Theorem redeploy_without_token_only_starts_agent (env : Env)
    (self : DeployWatcher.t) (w : World) :
  Fs.exists_ (w_fs w) (env_base_dir env ++ [".env.local"]) = false
  \/ Py.truthy (env_getenv env "GITHUB_TOKEN") = false ->
  env_agent_fault env (length (w_log w)) (DeployWatcher.agent_start env self w)
  = None ->
  DeployWatcher.trigger_redeploy env self w
  = (Ret false, DeployWatcher.agent_start env self w).
Proof.
  intros Htoken Hfault.
  unfold DeployWatcher.trigger_redeploy, catch, mbind, M_bind, bind,
    DeployWatcher.run_deploy_agent.
  rewrite Hfault.
  assert (DeploymentAgent.main env (DeployWatcher.fe_repo_url self)
            (DeployWatcher.be_repo_url self)
            (DeployWatcher.agent_start env self w)
          = (1%Z, DeployWatcher.agent_start env self w)) as ->; [| done].
  unfold DeploymentAgent.main, DeploymentAgent.__init__,
    DeploymentAgent.run, DeploymentAgent.clone_repository,
    mbind, M_bind, bind, path_exists, gets, ret.
  cbn [DeploymentAgent.github_token].
  change (w_fs (DeployWatcher.agent_start env self w)) with (w_fs w).
  assert (Py.truthy
            (if Fs.exists_ (w_fs w) (env_base_dir env ++ [".env.local"])
             then env_getenv env "GITHUB_TOKEN" else None) = false) as ->;
    [| done].
  destruct Htoken as [-> | Htoken]; [done |].
  by destruct (Fs.exists_ _ _).
Qed.

Lemma redeploy_without_token_only_starts_agent_witness :
  DeployWatcher.trigger_redeploy demo_env demo_watcher
    (mkWorld (delete ["app"; ".env.local"] demo_fs) [])
  = (Ret false,
     DeployWatcher.agent_start demo_env demo_watcher
       (mkWorld (delete ["app"; ".env.local"] demo_fs) [])).
Proof.
  apply (redeploy_without_token_only_starts_agent demo_env demo_watcher).
  - left. vm_compute. reflexivity.
  - reflexivity.
Defined.
(** ** What the stages of the agent do to the outside *)

Section Quiet.
Context (P : event -> Prop).

Local Ltac step := respects_step (events_only_refl P) (events_only_trans P).

(** A step that leaves the log as it is. *)
Lemma respects_quiet {A} (m : M A) :
  (forall w, w_log (m w).2 = w_log w) -> respects (events_only P) m.
Proof. intros H w. by apply events_only_same_log. Qed.

Lemma shutil_copy2_log env attempt name content dst w :
  w_log (shutil_copy2 env attempt name content dst w).2 = w_log w.
Proof.
  unfold shutil_copy2. cbv zeta.
  set (real := if Fs.is_dir (w_fs w) dst then dst ++ [name] else dst).
  destruct (env_copy_fault env real attempt);
    destruct (Fs.is_dir (w_fs w) real); try done;
    by destruct (negb _).
Qed.

Lemma os_chmod_log env p w : w_log (os_chmod env p w).2 = w_log w.
Proof. unfold os_chmod. by destruct (env_chmod_fault env p). Qed.

Lemma merge_file_quiet env target_subdir file content :
  respects (events_only P)
    (DeploymentAgent.merge_file env target_subdir file content).
Proof.
  unfold DeploymentAgent.merge_file. step; [step |].
  intros target_exists.
  destruct (bool_decide (file ∈ DeploymentAgent.preserve_files)
            && target_exists); [step |].
  step; [apply respects_quiet, shutil_copy2_log |].
  intros e m' He. destruct e; try discriminate He.
  injection He as <-.
  step; [apply respects_quiet, os_chmod_log | intros _].
  step; [apply respects_quiet, shutil_copy2_log | intros _].
  apply respects_quiet, os_chmod_log.
Qed.

Lemma _merge_directories_events env source_dir target_dir :
  P (EvMerge source_dir target_dir) ->
  respects (events_only P)
    (DeploymentAgent._merge_directories env source_dir target_dir).
Proof.
  intros HP. unfold DeploymentAgent._merge_directories.
  step; [| intros _].
  { intros w. by apply (events_only_one P (EvMerge source_dir target_dir)). }
  step; [apply respects_quiet, mkdir_parents_log | intros _].
  step; [step | intros walk].
  step. intros [[rel_path dirs] files].
  unfold DeploymentAgent.merge_walk_entry.
  step.
  - destruct rel_path; [step | apply respects_quiet, mkdir_parents_log].
  - intros _. step. intros [file content]. apply merge_file_quiet.
Qed.

Lemma path_rename_events env src dst :
  P (EvRename src dst) ->
  respects (events_only P) (DeploymentAgent.path_rename env src dst).
Proof.
  intros HP w. unfold DeploymentAgent.path_rename, mbind, M_bind, bind,
    log_event, modify. simpl.
  destruct (env_rename_fault env src);
    by apply (events_only_one P (EvRename src dst)).
Qed.

Lemma requests_get_respects env url :
  P (EvGet url) -> respects (events_only P) (requests_get env url).
Proof.
  intros HP w. unfold requests_get.
  destruct (env_get env _ url); by apply (events_only_one P (EvGet url)).
Qed.

Lemma extractall_quiet dest members :
  respects (events_only P) (DeploymentAgent.extractall dest members).
Proof.
  unfold DeploymentAgent.extractall. step. intros [name n].
  unfold DeploymentAgent.extract_member. simpl.
  destruct n as [content |].
  - step; [apply respects_quiet, mkdir_parents_log | intros _].
    apply respects_quiet. intros w. apply write_file_log.
  - apply respects_quiet, mkdir_parents_log.
Qed.

Lemma remove_if_exists_quiet (p : path) (remove : path -> M unit) :
  (forall w, w_log (remove p w).2 = w_log w) ->
  respects (events_only P)
    (there ← path_exists p; if there : bool then remove p else ret tt).
Proof.
  intros Hremove. step; [step |]. intros [|]; [| step].
  by apply respects_quiet.
Qed.

End Quiet.

Section FetchEvents.
Import DeploymentAgent.

Local Ltac step :=
  respects_step (events_only_refl fetch_event) (events_only_trans fetch_event).
Local Ltac quiet := apply respects_quiet.

Lemma extract_and_place_events env body extract_temp target_dir :
  respects (events_only fetch_event)
    (extract_and_place env body extract_temp target_dir).
Proof.
  unfold extract_and_place.
  step; [destruct body; step | intros zip_members].
  step; [apply extractall_quiet | intros _].
  destruct zip_members as [| first rest]; [step |].
  step; [step | intros folder_exists].
  destruct (negb folder_exists); [step |].
  step; [step | intros target_exists].
  destruct target_exists.
  - by apply _merge_directories_events.
  - by apply path_rename_events.
Qed.

Lemma clone_repository_events env self repo_url target_dir repo_name :
  respects (events_only fetch_event)
    (clone_repository env self repo_url target_dir repo_name).
Proof.
  unfold clone_repository.
  destruct (negb (Py.truthy (github_token self))); [step |].
  step.
  2:{ intros e m' He. unfold except_Exception in He.
      destruct (is_Exception e); [| done]. injection He as <-. step. }
  step; [quiet; intros w; by rewrite extract_repo_info_world |].
  intros [owner repo].
  step.
  { step.
    - step; [by apply requests_get_respects |].
      intros [status body]. destruct (status =? 200)%Z; [| step].
      step; [quiet; intros w; by rewrite json_get_world | intros branch].
      step.
    - intros e m' He. unfold except_Exception in He.
      destruct (is_Exception e); [| done]. injection He as <-. step. }
  intros default_branch.
  step; [step | intros now].
  step; [quiet; intros w; apply write_file_log | intros _].
  step.
  2:{ apply remove_if_exists_quiet. done. }
  step; [by apply requests_get_respects | intros [status body]].
  step; [quiet; intros w; by rewrite raise_for_status_world | intros _].
  step; [quiet; intros w; apply write_file_log | intros _].
  step; [quiet; apply mkdir_parents_log | intros _].
  step; [step | intros now'].
  step; [step | intros stale].
  step; [destruct stale; [by quiet | step] | intros _].
  step; [quiet; apply mkdir_parents_log | intros _].
  step; [| intros _; step].
  step; [apply extract_and_place_events |].
  apply remove_if_exists_quiet. done.
Qed.

End FetchEvents.

(** ** The containers *)

(** Proves that a command is none of [container_commands]. *)
Ltac other_command :=
  unfold leaves_containers, container_commands, DeploymentAgent.up_cmd;
  simpl; rewrite !not_elem_of_cons;
  repeat split; try apply not_elem_of_nil; intros [=].

Section Containers.
Import DeploymentAgent.

Local Abbreviation R := (events_only leaves_containers).

Local Ltac step :=
  respects_step (events_only_refl leaves_containers)
                (events_only_trans leaves_containers).
Local Ltac run_other := apply subprocess_run_events; other_command.
Local Ltac on_failure :=
  let e := fresh "e" in
  let m' := fresh "m'" in
  let He := fresh "He" in
  intros e m' He; destruct e; try discriminate He; injection He as <-.

Lemma clone_repository_leaves env self repo_url target_dir repo_name :
  respects R (clone_repository env self repo_url target_dir repo_name).
Proof.
  eapply respects_weaken; [| apply clone_repository_events].
  intros w w'. apply events_only_weaken. by intros [].
Qed.

Lemma setup_backend_leaves env self : respects R (setup_backend env self).
Proof.
  unfold setup_backend.
  step; [step | intros in_docker]. destruct in_docker; [step |].
  step; [step | intros venv_exists].
  step.
  { destruct venv_exists; [step |].
    step; [| on_failure; step].
    step; [run_other | intros _; step]. }
  intros created. destruct (negb created); [step |].
  step; [step | intros venv_exists'].
  step; [step | intros requirements_exist].
  destruct (venv_exists' && requirements_exist); [| step].
  step; [| on_failure; step].
  step; [run_other | intros _].
  step; [run_other | intros _; step].
Qed.

Lemma setup_frontend_leaves env self : respects R (setup_frontend env self).
Proof.
  unfold setup_frontend, check_nodejs, check_command.
  step; [step | intros in_docker]. destruct in_docker; [step |].
  step.
  { step.
    - step; [| on_failure; step].
      step; [run_other | intros _; step].
    - intros found. destruct found; [| step].
      step; [run_other | intros _; step]. }
  intros node_ok. destruct (negb node_ok); [step |].
  step; [step | intros has_package_json].
  destruct has_package_json; [| step].
  step.
  { step; [step; [run_other | intros _; step] |].
    on_failure.
    step; [step; [run_other | intros _; step] |].
    on_failure. step. }
  intros installed. destruct (negb installed); [step |].
  step; [| intros _; step].
  step; [step; [run_other | intros _; step] |].
  on_failure. step.
Qed.

Lemma build_docker_images_leaves env self w :
  R w (build_docker_images env self w).2.
Proof.
  cut (safe R (fun _ => True) (build_docker_images env self) w w);
    [by intros [? _] |].
  assert (forall w', R w' w') as Hrefl by apply events_only_refl.
  pose proof (events_only_trans leaves_containers) as Htrans.
  unfold build_docker_images.
  apply (safe_bind R (fun _ => True)); [by apply safe_respects; [| step |] |].
  intros manifest w1 _ HR1. destruct (negb manifest); [by apply safe_ret |].
  apply (safe_bind R (fun _ => True)); [by apply safe_respects; [| step |] |].
  intros frontend_ok w2 _ HR2.
  destruct (negb frontend_ok); [by apply safe_ret |].
  apply (safe_bind R (fun _ => True)); [by apply safe_respects; [| step |] |].
  intros backend_ok w3 _ HR3.
  destruct (negb backend_ok); [by apply safe_ret |].
  apply safe_catch.
  2:{ intros e m' w4 He HR4. destruct e; try done. injection He as <-.
      by apply safe_ret. }
  apply (safe_bind R
           (fun cmd => cmd = ["docker"; "compose"; "-p"; "jalindeploy";
                              "build"; "--parallel"; "frontend"; "backend"]
                       \/ cmd = ["docker-compose"; "--project-name";
                                 "jalindeploy"; "build"; "--parallel";
                                 "frontend"; "backend"])).
  { apply safe_catch.
    - apply (safe_bind R (fun _ => True)).
      + apply safe_respects; [done | run_other | done].
      + intros _ w4 _ HR4. apply safe_ret; auto.
    - intros e m' w4 He HR4.
      destruct e; try done; injection He as <-; apply safe_ret; auto. }
  intros build_cmd w4 Hcmd HR4.
  apply (safe_bind R (fun _ => True)).
  { split; [by rewrite compose_dir_world | done]. }
  intros dir w5 _ HR5.
  apply (safe_bind R (fun _ => True)).
  { apply safe_respects; [done | | done].
    destruct Hcmd as [-> | ->]; run_other. }
  intros _ w6 _ HR6. by apply safe_ret.
Qed.

End Containers.

(** X20: the containers are left alone unless the build succeeded.  In a
    run of the agent, either both fetches, both preparations and the build
    returned [True], one after the other, and the world at the end is the
    one [deploy] left; or no command that stops, removes or recreates a
    container ([docker stop], [docker rm -f], [... up ...]) was run at
    all. *)
Theorem containers_untouched_unless_built (env : Env)
    (self : DeploymentAgent.t) (fe_repo_url be_repo_url : string)
    (w : World) :
  let r := DeploymentAgent.run env self fe_repo_url be_repo_url w in
  events_only leaves_containers w r.2
  \/ exists w1 w2 w3 w4 w5,
       DeploymentAgent.clone_repository env self fe_repo_url
         (DeploymentAgent.frontend_dir self) "Frontend" w = (Ret true, w1)
       /\ DeploymentAgent.clone_repository env self be_repo_url
            (DeploymentAgent.backend_dir self) "Backend" w1 = (Ret true, w2)
       /\ DeploymentAgent.setup_backend env self w2 = (Ret true, w3)
       /\ DeploymentAgent.setup_frontend env self w3 = (Ret true, w4)
       /\ DeploymentAgent.build_docker_images env self w4 = (Ret true, w5)
       /\ r.2 = (DeploymentAgent.deploy env self w5).2.
Proof.
  intros r. subst r.
  pose proof (events_only_trans leaves_containers) as Htrans.
  unfold DeploymentAgent.run, mbind, M_bind, bind.
  pose proof (clone_repository_leaves env self fe_repo_url
                (DeploymentAgent.frontend_dir self) "Frontend" w) as H1.
  destruct (DeploymentAgent.clone_repository env self fe_repo_url _ _ w)
    as [[[] | e1] w1] eqn:E1; simpl in *; [| by left | by left].
  pose proof (clone_repository_leaves env self be_repo_url
                (DeploymentAgent.backend_dir self) "Backend" w1) as H2.
  destruct (DeploymentAgent.clone_repository env self be_repo_url _ _ w1)
    as [[[] | e2] w2] eqn:E2; simpl in *; [| left; eauto | left; eauto].
  pose proof (setup_backend_leaves env self w2) as H3.
  destruct (DeploymentAgent.setup_backend env self w2)
    as [[[] | e3] w3] eqn:E3; simpl in *; [| left; eauto | left; eauto].
  pose proof (setup_frontend_leaves env self w3) as H4.
  destruct (DeploymentAgent.setup_frontend env self w3)
    as [[[] | e4] w4] eqn:E4; simpl in *; [| left; eauto | left; eauto].
  pose proof (build_docker_images_leaves env self w4) as H5.
  destruct (DeploymentAgent.build_docker_images env self w4)
    as [[[] | e5] w5] eqn:E5; simpl in *; [| left; eauto 6 | left; eauto 6].
  right. exists w1, w2, w3, w4, w5. repeat split; try done.
  by destruct (DeploymentAgent.deploy env self w5) as [[[] | e6] w6].
Qed.
(** ** Working trees *)

Lemma nonempty_dir_spec (fs : FS) (d : path) :
  Fs.nonempty_dir fs d = true <-> exists name n, fs !! (d ++ [name]) = Some n.
Proof.
  unfold Fs.nonempty_dir. split.
  - destruct (Fs.listdir fs d) as [| [name n] l] eqn:Hl; [done |].
    intros _. exists name, n. apply elem_of_listdir. rewrite Hl. by left.
  - intros (name & n & H). apply elem_of_listdir in H.
    destruct (Fs.listdir fs d); [by apply elem_of_nil in H | done].
Qed.

Lemma exists_spec (fs : FS) (p : path) :
  Fs.exists_ fs p = true <-> p = [] \/ is_Some (fs !! p).
Proof.
  destruct p as [| x p]; simpl; [by split; [left |] |].
  rewrite bool_decide_eq_true. split; [by right | by intros [|]].
Qed.

Lemma is_dir_spec (fs : FS) (p : path) :
  Fs.is_dir fs p = true <-> p = [] \/ fs !! p = Some Dir.
Proof.
  destruct p as [| x p]; simpl; [by split; [left |] |].
  rewrite bool_decide_eq_true. split; [by right | by intros [|]].
Qed.

Lemma tree_ready_spec (fs : FS) (dir : path) :
  tree_ready fs dir = true
  <-> (dir = [] \/ fs !! dir = Some Dir)
      /\ exists name n, fs !! (dir ++ [name]) = Some n.
Proof.
  unfold tree_ready.
  rewrite !andb_true_iff, exists_spec, is_dir_spec, nonempty_dir_spec.
  unfold path. split.
  - by intros [[_ ?] ?].
  - intros [Hd ?]. split; [| done]. split; [| done].
    destruct Hd as [-> | ->]; [by left | right; eauto].
Qed.

(** A working tree that passes the verification check still passes it
    after steps that only add entries. *)
Lemma tree_ready_additive (w w' : World) (dir : path) :
  fs_additive w w' ->
  tree_ready (w_fs w) dir = true -> tree_ready (w_fs w') dir = true.
Proof.
  intros Hadd. rewrite !tree_ready_spec.
  intros [Hd (name & n & Hchild)]. split.
  - destruct Hd as [-> | Hd]; [by left | right].
    destruct (Hadd _ _ Hd) as (n' & Hn' & Hkind). by destruct n'.
  - destruct (Hadd _ _ Hchild) as (n' & Hn' & _). by exists name, n'.
Qed.

Lemma exists_additive (w w' : World) (p : path) :
  fs_additive w w' ->
  Fs.exists_ (w_fs w) p = true -> Fs.exists_ (w_fs w') p = true.
Proof.
  intros Hadd. rewrite !exists_spec. intros [-> | [n Hn]]; [by left |].
  right. destruct (Hadd _ _ Hn) as (n' & Hn' & _). eauto.
Qed.

Lemma filter_nil_Forall {A} (f : A -> bool) (l : list A) :
  List.filter f l = [] <-> Forall (fun x => f x = false) l.
Proof.
  induction l as [| x l IH]; simpl; [by split |].
  destruct (f x) eqn:Hx.
  - split; [done |]. intros H. apply Forall_cons in H as [H _]. congruence.
  - rewrite IH. split; [by constructor |]. by intros [_ ?]%Forall_cons.
Qed.

(** What [verify_repo_cloned] checks. *)
Lemma verify_repo_cloned_true (dir : path) (required : list string)
    (w : World) :
  (DeploymentAgent.verify_repo_cloned dir required w).1 = Ret true
  <-> tree_ready (w_fs w) dir = true
      /\ Forall (fun file_name =>
                   Fs.exists_ (w_fs w) (Fs.join dir file_name) = true)
                required.
Proof.
  unfold DeploymentAgent.verify_repo_cloned, gets, tree_ready. simpl.
  destruct (Fs.exists_ (w_fs w) dir); simpl; [| by split; [| intros []]].
  destruct (Fs.is_dir (w_fs w) dir); simpl; [| by split; [| intros []]].
  destruct (Fs.nonempty_dir (w_fs w) dir); simpl;
    [| by split; [| intros []]].
  match goal with
  | |- context [List.filter ?f required] =>
      pose proof (filter_nil_Forall f required) as Hf;
      destruct (List.filter f required)
  end.
  - split; [| done]. intros _. split; [done |].
    eapply Forall_impl; [by apply Hf |]. simpl. intros x.
    by rewrite negb_false_iff.
  - split; [done |]. intros [_ Hall].
    assert (Forall (fun x => negb (Fs.exists_ (w_fs w) (Fs.join dir x))
                             = false) required) as Hall'.
    { eapply Forall_impl; [exact Hall |]. simpl. intros x.
      by rewrite negb_false_iff. }
    by apply Hf in Hall'.
Qed.

(** X21: a working tree that is verified stays verified through a merge.
    When [verify_repo_cloned] accepts a directory with some required
    files, it accepts it again after [_merge_directories], whatever
    is merged, wherever it is merged, and also when the merge raises:
    the merge removes nothing the check looks for. *)
Theorem verified_tree_survives_merge (env : Env) (source target dir : path)
    (required : list string) (w : World) :
  (DeploymentAgent.verify_repo_cloned dir required w).1 = Ret true ->
  (DeploymentAgent.verify_repo_cloned dir required
     (DeploymentAgent._merge_directories env source target w).2).1
  = Ret true.
Proof.
  rewrite !verify_repo_cloned_true. intros [Hready Hfiles].
  pose proof (_merge_directories_additive env source target w) as Hadd.
  split; [by eapply tree_ready_additive |].
  eapply Forall_impl; [exact Hfiles |]. simpl. intros file_name.
  by apply exists_additive.
Qed.

Lemma verified_tree_survives_merge_witness :
  (DeploymentAgent.verify_repo_cloned ["app"; "backend"] ["requirements.txt"]
     (DeploymentAgent._merge_directories demo_env ["tmp"; "src"]
        ["app"; "backend"] fetched_world).2).1
  = Ret true.
Proof.
  apply (verified_tree_survives_merge demo_env ["tmp"; "src"]
           ["app"; "backend"] ["app"; "backend"] ["requirements.txt"]
           fetched_world).
  vm_compute. reflexivity.
Defined.
(** ** What a fetch leaves behind *)

Lemma finally_Ret_inv {A} (m : M A) (f : M unit) (w w' : World) (a : A) :
  finally m f w = (Ret a, w') ->
  exists w1, m w = (Ret a, w1) /\ f w1 = (Ret tt, w').
Proof.
  unfold finally. destruct (m w) as [r w1].
  destruct (f w1) as [[[] | e] w2] eqn:Hf; [| done].
  intros [= -> <-]. by exists w1.
Qed.

(** The removal of a directory that may be there. *)
Lemma rmtree_if_exists (p : path) (w w' : World) :
  (there ← path_exists p; if there : bool then Fs.rmtree p else ret tt) w
  = (Ret tt, w') ->
  p <> [] ->
  w_fs w' !! p = None /\ w_log w' = w_log w.
Proof.
  unfold mbind, M_bind, bind, path_exists, gets, Fs.rmtree, modify, ret.
  intros H Hp. destruct (Fs.exists_ (w_fs w) p) eqn:Hex;
    injection H as <-; simpl.
  - split; [| done]. apply map_lookup_filter_None. right.
    intros n _. simpl. by intros [].
  - split; [| done]. rewrite exists_nonempty in Hex by done.
    apply bool_decide_eq_false in Hex. by apply eq_None_not_Some.
Qed.

(** The removal of a file that may be there. *)
Lemma unlink_if_exists (p : path) (w w' : World) :
  (there ← path_exists p; if there : bool then Fs.unlink p else ret tt) w
  = (Ret tt, w') ->
  w_fs w' = delete p (w_fs w) /\ w_log w' = w_log w.
Proof.
  unfold mbind, M_bind, bind, path_exists, gets, Fs.unlink, modify, ret.
  intros H. destruct (Fs.exists_ (w_fs w) p) eqn:Hex;
    injection H as <-; simpl; [done |].
  split; [| done]. symmetry. apply delete_id.
  destruct p as [| x p]; [done |]. simpl in Hex.
  apply bool_decide_eq_false in Hex. by apply eq_None_not_Some.
Qed.

Lemma tree_ready_delete (fs : FS) (dir p : path) :
  ¬ dir `prefix_of` p ->
  tree_ready fs dir = true -> tree_ready (delete p fs) dir = true.
Proof.
  intros Hp. rewrite !tree_ready_spec. intros [Hd (name & n & Hchild)].
  split.
  - destruct Hd as [-> | Hd]; [by left | right].
    rewrite lookup_delete_ne; [done |]. intros ->. by apply Hp.
  - exists name, n. rewrite lookup_delete_ne; [done |].
    intros ->. apply Hp. by apply prefix_app_r.
Qed.

(** The look for the default branch always sends one request and
    returns. *)
Lemma default_branch_world env url w r w1 :
  catch
    ('(status, body) ← requests_get env url;
     if (status =? 200)%Z then
       branch ← json_get body "default_branch";
       ret (default "main" branch)
     else ret "main")
    (except_Exception (ret "main")) w = (r, w1) ->
  w1 = add_event (EvGet url) w.
Proof.
  unfold catch, mbind, M_bind, bind, requests_get, except_Exception.
  destruct (env_get env _ url) as [status body | e]; simpl.
  - destruct (status =? 200)%Z; [| by intros [= _ <-]].
    destruct body; simpl; by intros [= _ <-].
  - destruct (is_Exception e); by intros [= _ <-].
Qed.

Lemma requests_get_world env url w r w1 :
  requests_get env url w = (r, w1) -> w1 = add_event (EvGet url) w.
Proof.
  unfold requests_get. destruct (env_get env _ url); by intros [= _ <-].
Qed.



Section FetchKeeps.
Import DeploymentAgent.
Context (env : Env) (q : path) (c : string) (target : path).
Hypothesis q_local : Fs.basename q ∈ preserve_files.
Hypothesis q_outside : ¬ ["tmp"] `prefix_of` q.
Hypothesis target_outside : ¬ ["tmp"] `prefix_of` target.
Hypothesis zip_in_tmp : forall n, ["tmp"] `prefix_of` env_tmp_zip env n.

Local Abbreviation R := (kept_with_target q c target).

Lemma kept_with_target_refl w : R w w.
Proof. unfold kept_with_target, local_kept. by split. Qed.

Lemma kept_with_target_trans w1 w2 w3 : R w1 w2 -> R w2 w3 -> R w1 w3.
Proof. unfold kept_with_target, local_kept. intros [??] [??]. auto. Qed.

Local Ltac step :=
  respects_step kept_with_target_refl kept_with_target_trans.

Lemma respects_same_fs {A} (m : M A) :
  (forall w, w_fs (m w).2 = w_fs w) -> respects R m.
Proof.
  intros H w. unfold kept_with_target, local_kept. by rewrite H.
Qed.

Lemma respects_fs_kept {A} (m : M A) : respects fs_kept m -> respects R m.
Proof.
  intros H w. specialize (H w). unfold fs_kept in H.
  split; intros Hl; eapply lookup_weaken; eauto.
Qed.

(** Writing, removing and deleting below [/tmp]. *)
Lemma outside_tmp (p : path) :
  ["tmp"] `prefix_of` p -> ¬ p `prefix_of` q /\ ¬ p `prefix_of` target.
Proof.
  intros Hp. split; intros Hq; [apply q_outside | apply target_outside];
    by etrans.
Qed.

Lemma write_file_keeps p content :
  ["tmp"] `prefix_of` p -> respects R (Fs.write_file p content).
Proof using q_outside target_outside.
  intros Hp w. destruct (outside_tmp p Hp) as [Hq Ht].
  unfold Fs.write_file.
  destruct (Fs.is_dir (w_fs w) p); [apply kept_with_target_refl |].
  destruct (negb _); [apply kept_with_target_refl |].
  unfold kept_with_target, local_kept. simpl. unfold path in *.
  split; intros Hl; (rewrite lookup_insert_ne; [done |]); by intros ->.
Qed.

Lemma rmtree_keeps p : ["tmp"] `prefix_of` p -> respects R (Fs.rmtree p).
Proof using q_outside target_outside.
  intros Hp w. destruct (outside_tmp p Hp) as [Hq Ht].
  unfold Fs.rmtree, modify, kept_with_target, local_kept. simpl.
  split; intros Hl; by apply map_lookup_filter_Some.
Qed.

Lemma unlink_keeps p : ["tmp"] `prefix_of` p -> respects R (Fs.unlink p).
Proof using q_outside target_outside.
  intros Hp w. destruct (outside_tmp p Hp) as [Hq Ht].
  unfold Fs.unlink, modify, kept_with_target, local_kept. simpl.
  unfold path in *.
  split; intros Hl; (rewrite lookup_delete_ne; [done |]); by intros ->.
Qed.

Lemma _merge_directories_keeps source_dir target_dir :
  respects R (_merge_directories env source_dir target_dir).
Proof using q_local.
  intros w. split.
  - by apply _merge_directories_local.
  - intros Hl.
    destruct (_merge_directories_additive env source_dir target_dir w
                _ _ Hl) as (n' & Hn' & Hkind).
    by destruct n'.
Qed.

Lemma extractall_keeps dest members :
  ["tmp"] `prefix_of` dest -> respects R (extractall dest members).
Proof using q_outside target_outside.
  intros Hdest. unfold extractall. step. intros [name n].
  unfold extract_member. simpl.
  destruct n as [content |].
  - step; [apply respects_fs_kept, mkdir_parents_kept | intros _].
    apply write_file_keeps. by apply prefix_app_r.
  - apply respects_fs_kept, mkdir_parents_kept.
Qed.

(** With the target in place, the extracted tree is merged into it. *)
Lemma extract_and_place_keeps body extract_temp w :
  ["tmp"] `prefix_of` extract_temp ->
  w_fs w !! target = Some Dir ->
  R w (extract_and_place env body extract_temp target w).2.
Proof using q_local q_outside target_outside.
  intros Htemp Htarget.
  unfold extract_and_place, mbind, M_bind, bind.
  destruct body as [fields | members |];
    [apply kept_with_target_refl | | apply kept_with_target_refl].
  simpl.
  pose proof (extractall_keeps extract_temp members Htemp w) as Hextract.
  destruct (extractall extract_temp members w) as [[[] | e] w1];
    simpl in *; [| done].
  destruct members as [| first rest]; [done |].
  unfold path_exists, gets.
  destruct (negb (Fs.exists_ (w_fs w1) _)); [done |].
  assert (Fs.exists_ (w_fs w1) target = true) as ->.
  { apply exists_spec. right. destruct Hextract as [_ Hdir].
    rewrite (Hdir Htarget). eauto. }
  eapply kept_with_target_trans; [exact Hextract |].
  apply _merge_directories_keeps.
Qed.

Lemma clone_repository_keeps self repo_url repo_name w :
  w_fs w !! target = Some Dir ->
  safe R (fun _ => True)
    (clone_repository env self repo_url target repo_name) w w.
Proof using q_local q_outside target_outside zip_in_tmp.
  intros Htarget. unfold clone_repository.
  pose proof kept_with_target_refl as Hrefl.
  pose proof kept_with_target_trans as Htrans.
  destruct (negb (Py.truthy (github_token self))); [by apply safe_ret |].
  apply safe_catch.
  2:{ intros e m' w1 He HR. unfold except_Exception in He.
      destruct (is_Exception e); [| done]. injection He as <-.
      by apply safe_ret. }
  assert (forall {A} (m : M A) w1, respects R m -> R w w1 ->
            safe R (fun _ => True) m w w1) as Hsafe.
  { intros A m w1 Hm HR. by apply safe_respects. }
  eapply (safe_bind R (fun _ => True)).
  { apply Hsafe; [| done]. apply respects_same_fs. intros w1.
    by rewrite extract_repo_info_world. }
  intros [owner repo] w1 _ HR1.
  eapply (safe_bind R (fun _ => True)).
  { apply Hsafe; [| done]. apply respects_same_fs. intros w2.
    match goal with
    | |- context [catch ?m ?h w2] =>
        by rewrite (default_branch_world env _ w2 _ _
                      (surjective_pairing (catch m h w2)))
    end. }
  intros default_branch w2 _ HR2.
  eapply (safe_bind R (fun _ => True)); [by apply Hsafe; [step |] |].
  intros now w3 _ HR3.
  eapply (safe_bind R (fun _ => True));
    [by apply Hsafe; [apply write_file_keeps |] |].
  intros _ w4 _ HR4.
  apply safe_finally.
  2:{ intros w5 HR5. apply Hsafe; [| done].
      step; [step | intros [|]; [by apply unlink_keeps | step]]. }
  eapply (safe_bind R (fun _ => True)).
  { apply Hsafe; [| done]. apply respects_same_fs. intros w5.
    by rewrite (requests_get_world env _ w5 _ _ (surjective_pairing _)). }
  intros [status body] w5 _ HR5.
  eapply (safe_bind R (fun _ => True)).
  { apply Hsafe; [| done]. apply respects_same_fs. intros w6.
    by rewrite raise_for_status_world. }
  intros _ w6 _ HR6.
  eapply (safe_bind R (fun _ => True));
    [by apply Hsafe; [apply write_file_keeps |] |].
  intros _ w7 _ HR7.
  eapply (safe_bind R (fun _ => True));
    [by apply Hsafe; [apply respects_fs_kept, mkdir_parents_kept |] |].
  intros _ w8 _ HR8.
  eapply (safe_bind R (fun _ => True)); [by apply Hsafe; [step |] |].
  intros now' w9 _ HR9.
  assert (["tmp"] `prefix_of`
            ["tmp"; "_temp_extract_" +:+ repo_name +:+ "_"
                      +:+ env_time env now']) as Htemp
    by by eexists [_].
  eapply (safe_bind R (fun _ => True)); [by apply Hsafe; [step |] |].
  intros stale w10 _ HR10.
  eapply (safe_bind R (fun _ => True)).
  { apply Hsafe; [| done]. destruct stale; [by apply rmtree_keeps | step]. }
  intros _ w11 _ HR11.
  eapply (safe_bind R (fun _ => True));
    [by apply Hsafe; [apply respects_fs_kept, mkdir_parents_kept |] |].
  intros _ w12 _ HR12.
  eapply (safe_bind R (fun _ => True)).
  { apply safe_finally.
    - split; [| done]. eapply Htrans; [exact HR12 |].
      apply extract_and_place_keeps; [done |].
      by apply (proj2 HR12).
    - intros w13 HR13. apply Hsafe; [| done].
      step; [step | intros [|]; [by apply rmtree_keeps | step]]. }
  intros _ w13 _ HR13. apply Hsafe; [step | done].
Qed.

End FetchKeeps.

(** X23: a fetch into an existing working tree keeps the local files.
    With the temporary files of the agent under [/tmp], where neither the
    target nor the file lies, a file named [.env.local],
    [.env.local.example] or [Dockerfile] is there with the same content
    after [clone_repository], whatever the archive holds and whatever the
    outcome of the fetch, as long as the target exists as a directory when
    the fetch starts. *)
Theorem fetch_keeps_local_files (env : Env) (self : DeploymentAgent.t)
    (repo_url : string) (target_dir : path) (repo_name : string)
    (w : World) (q : path) (c : string) :
  (forall n, ["tmp"] `prefix_of` env_tmp_zip env n) ->
  Fs.basename q ∈ DeploymentAgent.preserve_files ->
  ¬ ["tmp"] `prefix_of` q ->
  ¬ ["tmp"] `prefix_of` target_dir ->
  w_fs w !! target_dir = Some Dir ->
  w_fs w !! q = Some (File c) ->
  w_fs (DeploymentAgent.clone_repository env self repo_url target_dir
          repo_name w).2 !! q
  = Some (File c).
Proof.
  intros Hzip Hlocal Hq Htarget Hdir Hfile.
  destruct (clone_repository_keeps env q c target_dir Hlocal Hq Htarget Hzip
              self repo_url repo_name w Hdir) as [[Hkept _] _].
  by apply Hkept.
Qed.

Lemma fetch_keeps_local_files_witness :
  w_fs (DeploymentAgent.clone_repository demo_env demo_agent
          "https://github.com/Ayash13/Jalin-App-v2.git" ["app"; "frontend"]
          "Frontend" demo_world).2
    !! ["app"; "frontend"; "Dockerfile"]
  = Some (File "FROM node").
Proof.
  apply (fetch_keeps_local_files demo_env demo_agent
           "https://github.com/Ayash13/Jalin-App-v2.git" ["app"; "frontend"]
           "Frontend" demo_world ["app"; "frontend"; "Dockerfile"]
           "FROM node").
  - intros n. by exists ["download.zip"].
  - closed_elem.
  - intros [k Hk]. discriminate Hk.
  - intros [k Hk]. discriminate Hk.
  - reflexivity.
  - reflexivity.
Defined.
